(** * Runtime widget loader: a shallow embedding of RuntimeWidgetLoaderService

    The development follows the TypeScript service that loads packaged
    Cumulocity widgets at run time (the loader service with its
    [monkeyPatch], [loadRuntimeWidgets], [loadWidget] and
    [removeWidgetFromApp] methods) and the helper [contextPathFromURL] of
    the installer service.

    JavaScript values are modelled as the code uses them: strings as
    [string], optional properties as [option], arrays as [list], the
    [Map] of widget factories as a [gmap], thrown values as [Exn].
    Effects (the console, the alert service, the host registry, the
    inventory, the load signal) live in one [World] record that is threaded
    through a small state-and-exception monad; every externally visible
    call is also appended to a [trace], so that ordering properties can be
    stated.

    What lies outside the service is a parameter of the model ([Env]): the
    answers of the platform and of the module loader, the resolvers of
    Angular, and the lookup of the host's component service. The model
    takes from the host only that [getById$] emits, once, what the id
    resolves to in the registry at the time of subscription, and that the
    static widgets enter the registry together (as the comment in
    [loadRuntimeWidgets] says). Bundle identifiers are strings, as their
    TypeScript type says. An [await] that never resumes is the outcome
    [Pending].

    The installer service ([installWidget], [installWidgetWithContext],
    [widgetInstallaitonProcess]) and the [upload] method of its dialog are
    embedded in the module [Installer], over a state of their own: the
    runtime contexts of the tenant, the calls made, and the two variables
    of the dialog. An [async] method that is called without [await] is
    modelled by handing back the computation it leaves running; in
    [upload] that computation runs while the dialog waits for its timer. *)

From Stdlib Require Import ZArith Ascii Lia.
From stdpp Require Import base option list strings gmap fin_maps.

Local Open Scope string_scope.
Local Open Scope list_scope.

(** ** JavaScript array helpers *)

Module Js.

(** [Array.from(new Set(l))]: a [Set] keeps the first occurrence of every
    value, in insertion order. [seen] holds what the set contains so far. *)
Fixpoint set_insert_all (seen : list string) (l : list string) : list string :=
  match l with
  | [] => []
  | x :: l' =>
      if bool_decide (x ∈ seen) then set_insert_all seen l'
      else x :: set_insert_all (x :: seen) l'
  end.

Definition array_from_set (l : list string) : list string :=
  set_insert_all [] l.

(** [l.indexOf(x)]: index of the first occurrence, [-1] when absent. *)
Fixpoint indexOf (x : string) (l : list string) : Z :=
  match l with
  | [] => (-1)%Z
  | y :: l' =>
      if String.eqb y x then 0%Z
      else let i := indexOf x l' in
           if (i <? 0)%Z then (-1)%Z else (i + 1)%Z
  end.

(** [l.splice(i, 1)] for an index [0 <= i]: the array without position [i]. *)
Definition splice1 (i : Z) (l : list string) : list string :=
  take (Z.to_nat i) l ++ drop (S (Z.to_nat i)) l.

(** [xs || []] for an optional array. *)
Definition or_empty {A} (o : option (list A)) : list A := default [] o.

(** [o1 === o2] on optional strings ([undefined] is [None]). *)
Definition opt_eqb (o1 o2 : option string) : bool :=
  match o1, o2 with
  | Some a, Some b => String.eqb a b
  | None, None => true
  | _, _ => false
  end.

End Js.

(** ** [contextPathFromURL]

    [window.location.pathname.match(/\/apps\/(.*?)\//)[1]]: the leftmost
    occurrence of [/apps/] that is followed, before any line terminator, by
    another [/]; the capture is the text in between. When nothing matches,
    [match] yields [null] and indexing it throws: that is [None] here. *)

Definition slash : ascii := "/"%char.

Definition is_line_terminator (c : ascii) : bool :=
  bool_decide (c = "010"%char) || bool_decide (c = "013"%char).

(** The lazy group [(.*?)] followed by [/]: the shortest run of
    non-terminator characters that ends right before a [/]. *)
Fixpoint lazy_until_slash (s : string) : option string :=
  match s with
  | EmptyString => None
  | String c s' =>
      if bool_decide (c = slash) then Some EmptyString
      else if is_line_terminator c then None
      else String c <$> lazy_until_slash s'
  end.

Fixpoint strip_prefix (p s : string) : option string :=
  match p, s with
  | EmptyString, _ => Some s
  | String a p', String b s' =>
      if bool_decide (a = b) then strip_prefix p' s' else None
  | String _ _, EmptyString => None
  end.

Fixpoint contextPathFromURL (pathname : string) : option string :=
  match strip_prefix "/apps/" pathname ≫= lazy_until_slash with
  | Some cp => Some cp
  | None =>
      match pathname with
      | EmptyString => None
      | String _ rest => contextPathFromURL rest
      end
  end.

(** ** Data model *)

(** Identity of a [DynamicComponentDefinition] object. The loader writes the
    [isRuntimeLoaded] flag on the object itself, and the same object is what
    the host registry holds, so definitions are named by reference. *)
Definition Ref := nat.

(** Identity of an activated [NgModuleRef]. *)
Definition ModId := nat.

(** A component class, as named in a definition. *)
Definition Component := string.

(** An Angular [ComponentFactory]; opaque, produced by a resolver. *)
Definition ComponentFactory := nat.

Inductive Injector :=
| RootInjector
| ModuleInjector (m : ModId).

(** Thrown values. Every value thrown in the modelled code paths is an error
    object carrying a [message]. *)
Inductive Exn :=
| Error (msg : string)
| TypeError (msg : string).

Definition message (e : Exn) : string :=
  match e with Error m | TypeError m => m end.

(** The fields of a [DynamicComponentDefinition] the loader reads. *)
Record DynamicComponentDefinition := {
  widget_id : string;
  component : Component;
  configComponent : option Component;
}.

Record WidgetComponentFactoriesAndInjector := {
  componentFactory : ComponentFactory;
  configComponentFactory : option ComponentFactory;
  injector : Injector;
}.

Record IApplication := {
  app_id : string;
  contextPath : option string;
  availability : option string;
  app_widgetContextPaths : option (list string);
}.

Record IAppRuntimeContext := {
  rc_id : string;
  appId : option string;
  widgetContextPaths : option (list string);
}.

(** One exported value of an imported bundle, as far as the module scan
    looks at it. *)
Inductive ExportedObj :=
| ExpNullish
    (** [null] or [undefined]: [exportedObj.hasOwnProperty] throws *)
| ExpPlain
    (** any other value without an own [__annotations__] property *)
| ExpAnnotated (annotations : list (option string)) (activation : Exn + ModId)
    (** a value with own [__annotations__]; each annotation is given by the
        [ngMetadataName] of its prototype; [activation] is what
        [compileModuleAsync] followed by [create] does with it. *)
.

(** An imported bundle: exported names, in [Object.keys] order. *)
Definition JsModule := list (string * ExportedObj).

(** An entry of a [HOOK_COMPONENTS] multi-provider: one definition or an
    array of definitions. *)
Inductive HookEntry :=
| Single (w : Ref)
| Many (ws : list Ref).

(** A widget configuration; opaque. *)
Definition Config := nat.

(** A created component: the factory and injector it was created with and
    the [config] assigned to its instance. *)
Record ComponentRef := {
  ref_factory : ComponentFactory;
  ref_injector : option Injector;
  ref_config : option Config;
}.

(** A [DynamicComponentComponent] instance of the host: one place on a
    dashboard where a component is rendered. [host] is the content of its
    view container. *)
Record DynamicComponentComponent := {
  componentId : string;
  mode : string;
  config : Config;
  error : option Exn;
  host : option ComponentRef;
  (** live subscriptions on [isLoaded$] made by [ngOnChanges] *)
  waiting : nat;
}.

(** ** Observable effects *)

(** Modelled from the spec: the [UpdateableAlert] class (imported from
    [./UpdateableAlert]) is a single update-in-place message sink with
    [update(text)] and [close()]; the texts passed to [update] are recorded
    by the template they instantiate. *)
Inductive ProgressMsg :=
| MsgLoading                               (** 'Please wait! Loading...' *)
| MsgLoadingWidgets (counter total : nat)
    (** 'Please wait! \nLoading widgets <counter> of <total> ...' *)
| MsgStillWorking                          (** 'Please wait! Still Working...' *)
| MsgAlmostReady.                          (** 'Please wait! Almost ready...' *)

Inductive ConsoleEntry :=
| LogManifestMissing (cp : string) (e : Exn)
    (** 'Unable to find widget manifest: /apps/<cp>/importManifest.js' *)
| LogNoCustomWidget (cp : string) (e : Exn)
    (** 'Module: <cp>, did not contain a custom widget' *)
| LogCompileFailed (cp : string) (e : Exn)
    (** 'Failed to compile widgets in module:', jsModule *)
| LogWidgetFailed (w : Ref) (e : Exn).
    (** 'Failed to load runtime widget:', widget *)

Inductive Event :=
| EvProgress (m : ProgressMsg)            (** [loadingAlert.update] *)
| EvProgressClose                         (** [loadingAlert.close] *)
| EvFetchApplications (user : string)     (** [fetchClient.fetch] *)
| EvInventoryList                         (** [invService.list] *)
| EvManifestImport (cp : string)          (** [corsImport] of the manifest *)
| EvModuleImport (cp : string)            (** [__webpack_require__.interleaved] *)
| EvConsoleError (entry : ConsoleEntry)   (** [console.error] *)
| EvDanger (text detail : string)         (** [alertService.danger] *)
| EvActivate (cp key : string)            (** [compileModuleAsync] and [create] *)
| EvHostRegistryReady                     (** [state$] reported [size > 0] *)
| EvLoadWidget (m : ModId) (w : Ref)      (** entry into [loadWidget] *)
| EvRegistryAdd (w : Ref)                 (** [dynamicComponentService.add] *)
| EvIsLoadedNext (b : bool)               (** [isLoaded$.next] *)
| EvInventoryUpdate (id : string) (paths : list string).
                                          (** [invService.update] *)

#[global] Instance Exn_eq_dec : EqDecision Exn.
Proof. solve_decision. Defined.
#[global] Instance ProgressMsg_eq_dec : EqDecision ProgressMsg.
Proof. solve_decision. Defined.
#[global] Instance ConsoleEntry_eq_dec : EqDecision ConsoleEntry.
Proof. solve_decision. Defined.
#[global] Instance Event_eq_dec : EqDecision Event.
Proof. solve_decision. Defined.

(** ** The world the service acts on *)

Record World := {
  (** current value of the [isLoaded$] behaviour subject *)
  isLoaded : bool;
  (** the service's [widgetFactories] map *)
  widgetFactories : gmap string WidgetComponentFactoriesAndInjector;
  (** the definition objects on which [isRuntimeLoaded = true] was written *)
  runtimeLoaded : gset Ref;
  (** the definitions held by the host's [DynamicComponentService] *)
  hostRegistry : list Ref;
  (** the managed objects of type [app_runtimeContext] *)
  inventory : list IAppRuntimeContext;
  (** the component instances currently on screen *)
  instances : list DynamicComponentComponent;
  (** every external call so far, oldest first *)
  trace : list Event;
}.

(** What the surroundings answer: the browser, the platform, the module
    loader, Angular and the host's component service. *)
Record Env := {
  (** [window.location.pathname] *)
  pathname : string;
  (** the user name [appStateService.currentUser] eventually delivers;
      [None] when nobody ever logs in *)
  currentUser : option string;
  (** the [applications] array of [/application/applicationsByUser/<user>] *)
  applicationsByUser : string -> Exn + list IApplication;
  (** failure of [invService.list] and of [invService.update], if any *)
  inventoryListError : option Exn;
  inventoryUpdateError : option Exn;
  (** [corsImport] of [/apps/<cp>/importManifest.js?<now>]: the exception it
      rejects with, if any *)
  corsImport : string -> option Exn;
  (** [__webpack_require__.interleaved] of [<cp>/<cp>-CustomWidget] *)
  interleaved : string -> Exn + JsModule;
  (** [ngModule.injector.get(HOOK_COMPONENTS)] *)
  hookComponents : ModId -> option (list HookEntry);
  (** the contents of a definition object *)
  defn : Ref -> DynamicComponentDefinition;
  (** [ngModule.componentFactoryResolver.resolveComponentFactory] *)
  resolveComponentFactory : ModId -> Component -> Exn + ComponentFactory;
  (** the host's own [componentFactoryResolver.resolveComponentFactory] *)
  hostResolveComponentFactory : Component -> Exn + ComponentFactory;
  (** what the host's [getById$] emits (once) for an id, given its registry *)
  getById : list Ref -> string -> option Ref;
}.

(** ** A state-and-exception monad for [async] methods

    A computation either returns, throws, or is left awaiting something that
    never arrives ([Pending]); in each case the effects performed so far
    stay in the world. *)

Inductive Result (A : Type) :=
| Ok (a : A)
| Threw (e : Exn)
| Pending.
Arguments Ok {A} a.
Arguments Threw {A} e.
Arguments Pending {A}.

Definition M (A : Type) : Type := World -> Result A * World.

#[global] Instance M_ret : MRet M := fun A a w => (Ok a, w).

#[global] Instance M_bind : MBind M := fun A B f m w =>
  match m w with
  | (Ok a, w') => f a w'
  | (Threw e, w') => (Threw e, w')
  | (Pending, w') => (Pending, w')
  end.

Definition throw {A} (e : Exn) : M A := fun w => (Threw e, w).

Definition never {A} : M A := fun w => (Pending, w).

(** [try { body } catch (e) { handler e }] *)
Definition try_catch {A} (body : M A) (handler : Exn -> M A) : M A := fun w =>
  match body w with
  | (Threw e, w') => handler e w'
  | r => r
  end.

(** An external call that resolves or rejects. *)
Definition lift_sum {A} (r : Exn + A) : M A :=
  match r with inl e => throw e | inr a => mret a end.

Definition get_world : M World := fun w => (Ok w, w).

Definition modify (f : World -> World) : M unit := fun w => (Ok tt, f w).

(** *** Field updates *)

Definition set_isLoaded (b : bool) (w : World) : World :=
  {| isLoaded := b; widgetFactories := widgetFactories w;
     runtimeLoaded := runtimeLoaded w; hostRegistry := hostRegistry w;
     inventory := inventory w; instances := instances w; trace := trace w |}.

Definition set_widgetFactories
    (m : gmap string WidgetComponentFactoriesAndInjector) (w : World) : World :=
  {| isLoaded := isLoaded w; widgetFactories := m;
     runtimeLoaded := runtimeLoaded w; hostRegistry := hostRegistry w;
     inventory := inventory w; instances := instances w; trace := trace w |}.

Definition set_runtimeLoaded (s : gset Ref) (w : World) : World :=
  {| isLoaded := isLoaded w; widgetFactories := widgetFactories w;
     runtimeLoaded := s; hostRegistry := hostRegistry w;
     inventory := inventory w; instances := instances w; trace := trace w |}.

Definition set_hostRegistry (l : list Ref) (w : World) : World :=
  {| isLoaded := isLoaded w; widgetFactories := widgetFactories w;
     runtimeLoaded := runtimeLoaded w; hostRegistry := l;
     inventory := inventory w; instances := instances w; trace := trace w |}.

Definition set_inventory (l : list IAppRuntimeContext) (w : World) : World :=
  {| isLoaded := isLoaded w; widgetFactories := widgetFactories w;
     runtimeLoaded := runtimeLoaded w; hostRegistry := hostRegistry w;
     inventory := l; instances := instances w; trace := trace w |}.

Definition set_instances (l : list DynamicComponentComponent) (w : World) : World :=
  {| isLoaded := isLoaded w; widgetFactories := widgetFactories w;
     runtimeLoaded := runtimeLoaded w; hostRegistry := hostRegistry w;
     inventory := inventory w; instances := l; trace := trace w |}.

Definition set_trace (t : list Event) (w : World) : World :=
  {| isLoaded := isLoaded w; widgetFactories := widgetFactories w;
     runtimeLoaded := runtimeLoaded w; hostRegistry := hostRegistry w;
     inventory := inventory w; instances := instances w; trace := t |}.

(** Record an external call. *)
Definition emit (e : Event) : M unit :=
  modify (fun w => set_trace (trace w ++ [e]) w).

Definition console_error (entry : ConsoleEntry) : M unit :=
  emit (EvConsoleError entry).

Definition alert_danger (text detail : string) : M unit :=
  emit (EvDanger text detail).

(** ** The patched [DynamicComponentComponent] methods ([monkeyPatch]) *)

Definition set_error (e : option Exn) (this : DynamicComponentComponent)
  : DynamicComponentComponent :=
  {| componentId := componentId this; mode := mode this;
     config := config this; error := e; host := host this;
     waiting := waiting this |}.

Definition set_host (h : option ComponentRef) (this : DynamicComponentComponent)
  : DynamicComponentComponent :=
  {| componentId := componentId this; mode := mode this;
     config := config this; error := error this; host := h;
     waiting := waiting this |}.

Definition set_waiting (n : nat) (this : DynamicComponentComponent)
  : DynamicComponentComponent :=
  {| componentId := componentId this; mode := mode this;
     config := config this; error := error this; host := host this;
     waiting := n |}.

(** [this.host.createComponent(factory, undefined, injector)]: calling it
    with an [undefined] factory throws. *)
Definition createComponent (factory : option ComponentFactory)
    (inj : option Injector) : Exn + ComponentRef :=
  match factory with
  | None => inl (TypeError "Cannot read property 'create' of undefined")
  | Some cf =>
      inr {| ref_factory := cf; ref_injector := inj; ref_config := None |}
  end.

(** [componentRef.instance.config = this.config] *)
Definition assign_config (c : Config) (componentRef : ComponentRef)
  : ComponentRef :=
  {| ref_factory := ref_factory componentRef;
     ref_injector := ref_injector componentRef;
     ref_config := Some c |}.

(** [if (this.mode === 'component') a else b] *)
Definition by_mode {A} (this : DynamicComponentComponent) (a b : A) : A :=
  if String.eqb (mode this) "component" then a else b.

(** The replacement for the private [loadComponent]. The body is one [try]
    whose [catch] stores the exception in [this.error]; assignments made
    before the throw stay. *)
Definition loadComponent (env : Env) (w : World)
    (this : DynamicComponentComponent) (dynamicComponent : option Ref)
  : DynamicComponentComponent :=
  let this := set_error None this in
  match dynamicComponent with
  | None =>
      set_error
        (Some (TypeError "Cannot read property 'isRuntimeLoaded' of undefined"))
        this
  | Some dc =>
      if bool_decide (dc ∈ runtimeLoaded w) then
        match widgetFactories w !! componentId this with
        | None =>
            set_error
              (Some (TypeError "Cannot destructure property of undefined"))
              this
        | Some f =>
            let this := set_host None this in
            match createComponent
                    (by_mode this (Some (componentFactory f))
                                  (configComponentFactory f))
                    (Some (injector f)) with
            | inl ex => set_error (Some ex) this
            | inr componentRef =>
                set_host (Some (assign_config (config this) componentRef)) this
            end
        end
      else
        match by_mode this (Some (component (defn env dc)))
                           (configComponent (defn env dc)) with
        | None =>
            set_error
              (Some (Error "No component factory found for undefined")) this
        | Some c =>
            match hostResolveComponentFactory env c with
            | inl ex => set_error (Some ex) this
            | inr componentFactory =>
                let this := set_host None this in
                match createComponent (Some componentFactory) None with
                | inl ex => set_error (Some ex) this
                | inr componentRef =>
                    set_host (Some (assign_config (config this) componentRef))
                      this
                end
            end
        end
  end.

(** [cmp === undefined || cmp.isRuntimeLoaded] *)
Definition unresolved_or_runtime (w : World) (cmp : option Ref) : bool :=
  match cmp with
  | None => true
  | Some r => bool_decide (r ∈ runtimeLoaded w)
  end.

(** What a subscription made by [ngOnChanges] does once [isLoaded$] delivers
    [true]: look the id up again and load the result. *)
Definition resolve_and_load (env : Env) (w : World)
    (this : DynamicComponentComponent) : DynamicComponentComponent :=
  loadComponent env w this (getById env (hostRegistry w) (componentId this)).

(** The replacement for [ngOnChanges]. [isLoaded$] is a behaviour subject:
    a new subscriber is handed the current value at once, so when it is
    already [true] the inner lookup runs immediately; otherwise the
    subscription stays until [true] is emitted. *)
Definition ngOnChanges (env : Env) (w : World)
    (this : DynamicComponentComponent) : DynamicComponentComponent :=
  let cmp := getById env (hostRegistry w) (componentId this) in
  if unresolved_or_runtime w cmp then
    if isLoaded w then resolve_and_load env w this
    else set_waiting (S (waiting this)) this
  else loadComponent env w this cmp.

(** Delivery of [true] to the subscriptions of one instance; [first()]
    then completes each of them. *)
Definition deliver_loaded (env : Env) (w : World)
    (this : DynamicComponentComponent) : DynamicComponentComponent :=
  set_waiting 0 (Nat.iter (waiting this) (resolve_and_load env w) this).

(** [this.isLoaded$.next(b)]: store the value and notify the subscribers;
    [filter(loaded => loaded)] lets only [true] through. *)
Definition isLoaded_next (env : Env) (b : bool) : M unit :=
  emit (EvIsLoadedNext b);;
  modify (set_isLoaded b);;
  if b then
    modify (fun w => set_instances (deliver_loaded env w <$> instances w) w)
  else mret tt.

(** ** [loadWidget] *)

(** [(widget as any).isRuntimeLoaded = true] *)
Definition mark_runtime_loaded (widget : Ref) : M unit :=
  modify (fun w => set_runtimeLoaded ({[widget]} ∪ runtimeLoaded w) w).

(** [this.widgetFactories.set(id, entry)] *)
Definition widgetFactories_set (id : string)
    (entry : WidgetComponentFactoriesAndInjector) : M unit :=
  modify (fun w => set_widgetFactories (<[id := entry]> (widgetFactories w)) w).

(** [dynamicComponentService.add(widget)]; the registry is kept as the list
    of the definitions added, in order. *)
Definition dynamicComponentService_add (widget : Ref) : M unit :=
  emit (EvRegistryAdd widget);;
  modify (fun w => set_hostRegistry (hostRegistry w ++ [widget]) w).

Definition widget_failed_text : string :=
  "Failed to load runtime custom widget, it may have been compiled for a different Cumulocity version.".

(** The object literal passed to [widgetFactories.set]; its fields are
    evaluated in order, so either resolver call may throw before the map is
    touched. The resolver calls have no effect besides their result. *)
Definition build_factories (env : Env) (ngModule : ModId) (widget : Ref)
  : Exn + WidgetComponentFactoriesAndInjector :=
  match resolveComponentFactory env ngModule (component (defn env widget)) with
  | inl e => inl e
  | inr cf =>
      match configComponent (defn env widget) with
      | Some c =>
          match resolveComponentFactory env ngModule c with
          | inl e => inl e
          | inr ccf =>
              inr {| componentFactory := cf;
                     configComponentFactory := Some ccf;
                     injector := ModuleInjector ngModule |}
          end
      | None =>
          inr {| componentFactory := cf;
                 configComponentFactory := None;
                 injector := ModuleInjector ngModule |}
      end
  end.

Definition loadWidget (env : Env) (ngModule : ModId) (widget : Ref) : M unit :=
  emit (EvLoadWidget ngModule widget);;
  mark_runtime_loaded widget;;
  try_catch
    (entry ← lift_sum (build_factories env ngModule widget);
     widgetFactories_set (widget_id (defn env widget)) entry;;
     dynamicComponentService_add widget)
    (fun e =>
       console_error (LogWidgetFailed widget e);;
       alert_danger widget_failed_text (message e)).

(** ** [loadRuntimeWidgets] *)

(** [await observable.pipe(filter(..), first()).toPromise()] on a value that
    may never arrive. *)
Definition await_first {A} (o : option A) : M A :=
  match o with Some a => mret a | None => never end.

(** [contextPathFromURL()] as a call that may throw. *)
Definition contextPathFromURL_call (env : Env) : M string :=
  match contextPathFromURL (pathname env) with
  | Some cp => mret cp
  | None => throw (TypeError "Cannot read property '1' of null")
  end.

(** [array.find(pred)] with a callback that may throw. *)
Fixpoint find_m {A} (pred : A -> M bool) (l : list A) : M (option A) :=
  match l with
  | [] => mret None
  | x :: l' =>
      b ← pred x;
      if b : bool then mret (Some x) else find_m pred l'
  end.

(** [app.contextPath === contextPathFromURL() && app.availability === 'PRIVATE'] *)
Definition is_own_app (env : Env) (app : IApplication) : M bool :=
  cp ← contextPathFromURL_call env;
  mret (Js.opt_eqb (contextPath app) (Some cp)
        && Js.opt_eqb (availability app) (Some "PRIVATE")).

(** [app.contextPath === contextPathFromURL()] *)
Definition is_current_app (env : Env) (app : IApplication) : M bool :=
  cp ← contextPathFromURL_call env;
  mret (Js.opt_eqb (contextPath app) (Some cp)).

Definition find_current_app (env : Env) (appList : list IApplication)
  : M IApplication :=
  own ← find_m (is_own_app env) appList;
  match own with
  | Some app => mret app
  | None =>
      subscribed ← find_m (is_current_app env) appList;
      match subscribed with
      | Some app => mret app
      | None => throw (Error "Could not find current application.")
      end
  end.

(** [invService.list({pageSize: 2000, query: `type eq app_runtimeContext`})] *)
Definition inventory_list (env : Env) : M (list IAppRuntimeContext) :=
  emit EvInventoryList;;
  match inventoryListError env with
  | Some e => throw e
  | None => w ← get_world; mret (take 2000 (inventory w))
  end.

(** [invService.update({id, widgetContextPaths})]: a partial update of the
    managed object with that id. *)
Definition update_paths (id : string) (paths : list string)
    (rc : IAppRuntimeContext) : IAppRuntimeContext :=
  if String.eqb (rc_id rc) id
  then {| rc_id := rc_id rc; appId := appId rc;
          widgetContextPaths := Some paths |}
  else rc.

Definition inventory_update (env : Env) (id : string) (paths : list string)
  : M unit :=
  emit (EvInventoryUpdate id paths);;
  match inventoryUpdateError env with
  | Some e => throw e
  | None =>
      modify (fun w => set_inventory (update_paths id paths <$> inventory w) w)
  end.

(** [(app && app.widgetContextPaths) || []] followed by the same for the
    runtime context, through a [Set]. *)
Definition resolve_contextPaths (app : IApplication)
    (AppRuntimePath : option IAppRuntimeContext) : list string :=
  Js.array_from_set
    (Js.or_empty (app_widgetContextPaths app)
     ++ Js.or_empty (AppRuntimePath ≫= widgetContextPaths)).

(** The local variables of the import loop. Each imported module is kept
    together with the context path it came from, which the code does not
    store but which names the module in the trace. *)
Record ImportState := {
  jsModules : list (string * JsModule);
  cleanupWidgetContextPath : list string;
  widgetCounter : nat;
}.

Definition import_failed_text : string :=
  "Failed to load a runtime custom widget, it may have been compiled for a different Cumulocity version.".

(** [appList.some(app => app.contextPath === contextPath)] *)
Definition is_known_app (appList : list IApplication) (cp : string) : bool :=
  existsb (fun app => Js.opt_eqb (contextPath app) (Some cp)) appList.

(** The empty string, the one falsy string of JavaScript. *)
Definition blank : string := EmptyString.

(** [contextPath && contextPath.length > 0] *)
Definition is_loadable (cp : string) : bool :=
  negb (String.eqb cp blank) && (0 <? String.length cp)%nat.

(** The body of [for (const contextPath of contextPaths)]. *)
Definition import_one (env : Env) (appList : list IApplication) (total : nat)
    (contextPath : string) (st : ImportState) : M ImportState :=
  if is_loadable contextPath then
    let widgetCounter := S (widgetCounter st) in
    let st := {| jsModules := jsModules st;
                 cleanupWidgetContextPath := cleanupWidgetContextPath st;
                 widgetCounter := widgetCounter |} in
    emit (EvProgress (MsgLoadingWidgets widgetCounter total));;
    emit (EvManifestImport contextPath);;
    match corsImport env contextPath with
    | Some e =>
        if is_known_app appList contextPath then
          console_error (LogManifestMissing contextPath e);;
          mret st
        else
          mret {| jsModules := jsModules st;
                  cleanupWidgetContextPath :=
                    cleanupWidgetContextPath st ++ [contextPath];
                  widgetCounter := widgetCounter |}
    | None =>
        try_catch
          (emit (EvModuleImport contextPath);;
           jsModule ← lift_sum (interleaved env contextPath);
           mret {| jsModules := jsModules st ++ [(contextPath, jsModule)];
                   cleanupWidgetContextPath := cleanupWidgetContextPath st;
                   widgetCounter := widgetCounter |})
          (fun e =>
             console_error (LogNoCustomWidget contextPath e);;
             alert_danger import_failed_text (message e);;
             mret st)
    end
  else mret st.

Fixpoint import_loop (env : Env) (appList : list IApplication) (total : nat)
    (contextPaths : list string) (st : ImportState) : M ImportState :=
  match contextPaths with
  | [] => mret st
  | contextPath :: rest =>
      st' ← import_one env appList total contextPath st;
      import_loop env appList total rest st'
  end.

(** [exportedObj.__annotations__.some(a => a.__proto__.ngMetadataName === "NgModule")] *)
Definition has_NgModule_annotation (annotations : list (option string)) : bool :=
  existsb (fun a => Js.opt_eqb a (Some "NgModule")) annotations.

(** The body of [for (const key of Object.keys(jsModule))]. The test on the
    exported value is outside the [try], so a nullish export throws out of
    the whole method. *)
Definition activate_one (cp key : string) (exportedObj : ExportedObj)
    (ngModules : list ModId) : M (list ModId) :=
  match exportedObj with
  | ExpNullish =>
      throw (TypeError "Cannot read property 'hasOwnProperty' of undefined")
  | ExpPlain => mret ngModules
  | ExpAnnotated annotations activation =>
      if has_NgModule_annotation annotations then
        try_catch
          (emit (EvActivate cp key);;
           ngModule ← lift_sum activation;
           mret (ngModules ++ [ngModule]))
          (fun e =>
             console_error (LogCompileFailed cp e);;
             alert_danger widget_failed_text (message e);;
             mret ngModules)
      else mret ngModules
  end.

Fixpoint activate_exports (cp : string) (jsModule : JsModule)
    (ngModules : list ModId) : M (list ModId) :=
  match jsModule with
  | [] => mret ngModules
  | (key, exportedObj) :: rest =>
      ngModules' ← activate_one cp key exportedObj ngModules;
      activate_exports cp rest ngModules'
  end.

Fixpoint activate_loop (jsModules : list (string * JsModule))
    (ngModules : list ModId) : M (list ModId) :=
  match jsModules with
  | [] => mret ngModules
  | (cp, jsModule) :: rest =>
      ngModules' ← activate_exports cp jsModule ngModules;
      activate_loop rest ngModules'
  end.

(** [await dynamicComponentService.state$.pipe(filter(state => state.size > 0),
    first()).toPromise()].
    The static widgets all arrive together; [hostRegistry] is what the host
    holds once they have, and an empty registry never lets the wait end. *)
Definition await_host_registry : M unit :=
  w ← get_world;
  if (0 <? length (hostRegistry w))%nat then emit EvHostRegistryReady else never.

Fixpoint loadWidget_each (env : Env) (ngModule : ModId) (ws : list Ref)
  : M unit :=
  match ws with
  | [] => mret tt
  | singleWidget :: rest =>
      loadWidget env ngModule singleWidget;;
      loadWidget_each env ngModule rest
  end.

(** The body of [for (const widget of widgets)]. *)
Definition register_entry (env : Env) (ngModule : ModId) (widget : HookEntry)
  : M unit :=
  match widget with
  | Many ws => loadWidget_each env ngModule ws
  | Single w => loadWidget env ngModule w
  end.

Fixpoint register_entries (env : Env) (ngModule : ModId)
    (widgets : list HookEntry) : M unit :=
  match widgets with
  | [] => mret tt
  | widget :: rest =>
      register_entry env ngModule widget;;
      register_entries env ngModule rest
  end.

Fixpoint register_loop (env : Env) (ngModules : list ModId) : M unit :=
  match ngModules with
  | [] => mret tt
  | ngModule :: rest =>
      register_entries env ngModule (Js.or_empty (hookComponents env ngModule));;
      register_loop env rest
  end.

(** The callback of [cleanupWidgetContextPath.forEach]; the pair is the
    local copy of [AppRuntimePath.widgetContextPaths] and
    [isContextPathChanged]. *)
Definition cleanup_step (acc : option (list string) * bool) (contextPath : string)
  : option (list string) * bool :=
  match fst acc with
  | Some paths =>
      let contextPathIndex := Js.indexOf contextPath paths in
      if (0 <=? contextPathIndex)%Z
      then (Some (Js.splice1 contextPathIndex paths), true)
      else acc
  | None => acc
  end.

Definition cleanup_paths (AppRuntimePath : option IAppRuntimeContext)
    (cleanup : list string) : option (list string) * bool :=
  fold_left cleanup_step cleanup (AppRuntimePath ≫= widgetContextPaths, false).

Definition auto_clean (env : Env) (AppRuntimePath : option IAppRuntimeContext)
    (cleanup : list string) : M unit :=
  let '(paths, isContextPathChanged) := cleanup_paths AppRuntimePath cleanup in
  if isContextPathChanged then
    match AppRuntimePath with
    | Some rc => inventory_update env (rc_id rc) (Js.or_empty paths)
    | None => mret tt
    end
  else mret tt.

Definition empty_import_state : ImportState :=
  {| jsModules := []; cleanupWidgetContextPath := []; widgetCounter := 0 |}.

(** Everything [loadRuntimeWidgets] does once the identifier set is known:
    the three loops, the load signal and the clean-up. *)
Definition load_batch (env : Env) (appList : list IApplication)
    (AppRuntimePath : option IAppRuntimeContext) (contextPaths : list string)
  : M unit :=
  st ← import_loop env appList (length contextPaths) contextPaths
         empty_import_state;
  emit (EvProgress MsgStillWorking);;
  ngModules ← activate_loop (jsModules st) [];
  await_host_registry;;
  emit (EvProgress MsgAlmostReady);;
  register_loop env ngModules;;
  emit EvProgressClose;;
  isLoaded_next env true;;
  auto_clean env AppRuntimePath (cleanupWidgetContextPath st).

(** [AppRuntimePathList.find(path => path.appId === app.id)] *)
Definition find_runtime_context (app : IApplication)
    (AppRuntimePathList : list IAppRuntimeContext) : option IAppRuntimeContext :=
  find (fun path => Js.opt_eqb (appId path) (Some (app_id app)))
       AppRuntimePathList.

Definition loadRuntimeWidgets (env : Env) : M unit :=
  user ← await_first (currentUser env);
  emit (EvProgress MsgLoading);;
  emit (EvFetchApplications user);;
  appList ← lift_sum (applicationsByUser env user);
  app ← find_current_app env appList;
  AppRuntimePathList ← inventory_list env;
  let AppRuntimePath := find_runtime_context app AppRuntimePathList in
  load_batch env appList AppRuntimePath
    (resolve_contextPaths app AppRuntimePath).

(** ** [removeWidgetFromApp] *)

Definition removeWidgetFromApp (env : Env) (app : string) (contextPath : string)
  : M unit :=
  emit EvInventoryList;;
  match inventoryListError env with
  | Some e => throw e
  | None =>
      w ← get_world;
      let AppRuntimePaths :=
        take 2000
          (filter (fun rc => appId rc = Some app) (inventory w)) in
      match AppRuntimePaths with
      | appRuntimePath :: _ =>
          match widgetContextPaths appRuntimePath with
          | Some paths =>
              let contextPathIndex := Js.indexOf contextPath paths in
              if (0 <=? contextPathIndex)%Z then
                inventory_update env (rc_id appRuntimePath)
                  (Js.splice1 contextPathIndex paths)
              else mret tt
          | None => mret tt
          end
      | [] => mret tt
      end
  end.

(** A freshly constructed service in a host that has registered [builtins]:
    [isLoaded$] holds [false] and [widgetFactories] is empty. *)
Definition initial_world (builtins : list Ref)
    (inv : list IAppRuntimeContext) (insts : list DynamicComponentComponent)
  : World :=
  {| isLoaded := false; widgetFactories := ∅; runtimeLoaded := ∅;
     hostRegistry := builtins; inventory := inv; instances := insts;
     trace := [] |}.

(** * Vocabulary of the properties

    The definitions below describe runs: the world a call leaves behind,
    the calls a loop makes, the values it collects. Each is related to the
    code above by a lemma of the second part. *)

(** [w] with further calls recorded. *)
Definition add_events (evs : list Event) (w : World) : World :=
  set_trace (trace w ++ evs) w.

(** Number of occurrences of an identifier in an array. *)
Definition occurrences (x : string) (l : list string) : nat :=
  length (filter (λ y, y = x) l).

(** The entries a [Map] holds under one key. *)
Definition entries_under {V} (k : string) (m : gmap string V)
  : list (string * V) :=
  filter (λ kv, kv.1 = k) (map_to_list m).

(** ** [loadWidget] *)

(** The world after a successful [loadWidget]. *)
Definition registered (env : Env) (ngModule : ModId) (widget : Ref)
    (entry : WidgetComponentFactoriesAndInjector) (w : World) : World :=
  {| isLoaded := isLoaded w;
     widgetFactories :=
       <[widget_id (defn env widget) := entry]> (widgetFactories w);
     runtimeLoaded := {[widget]} ∪ runtimeLoaded w;
     hostRegistry := hostRegistry w ++ [widget];
     inventory := inventory w;
     instances := instances w;
     trace := trace w ++ [EvLoadWidget ngModule widget; EvRegistryAdd widget] |}.

(** The world after a [loadWidget] whose factory construction threw [ex]. *)
Definition rejected (ngModule : ModId) (widget : Ref) (ex : Exn) (w : World)
  : World :=
  {| isLoaded := isLoaded w;
     widgetFactories := widgetFactories w;
     runtimeLoaded := {[widget]} ∪ runtimeLoaded w;
     hostRegistry := hostRegistry w;
     inventory := inventory w;
     instances := instances w;
     trace := trace w ++ [EvLoadWidget ngModule widget;
                          EvConsoleError (LogWidgetFailed widget ex);
                          EvDanger widget_failed_text (message ex)] |}.

(** Every definition of the host registry that carries the runtime flag can
    be rendered: the factory table has an entry under its id. *)
Definition registry_consistent (env : Env) (w : World) : Prop :=
  ∀ r, r ∈ hostRegistry w → r ∈ runtimeLoaded w →
       is_Some (widgetFactories w !! widget_id (defn env r)).

(** Every definition that [loadWidget] has added to the host registry can be
    rendered: the factory table has an entry under its id. *)
Definition loader_consistent (env : Env) (w : World) : Prop :=
  ∀ r, EvRegistryAdd r ∈ trace w →
       is_Some (widgetFactories w !! widget_id (defn env r)).

(** Registration only ever adds to the registry, the table and the flags. *)
Record grows (w w' : World) : Prop := {
  grows_registry : ∀ r, r ∈ hostRegistry w → r ∈ hostRegistry w';
  grows_table : ∀ k, is_Some (widgetFactories w !! k) →
                     is_Some (widgetFactories w' !! k);
  grows_flags : ∀ r, r ∈ runtimeLoaded w → r ∈ runtimeLoaded w';
  grows_loaded : isLoaded w' = isLoaded w;
}.

(** The calls one [loadWidget] makes. *)
Definition loadWidget_events (env : Env) (d : ModId * Ref) : list Event :=
  EvLoadWidget d.1 d.2
  :: match build_factories env d.1 d.2 with
     | inr _ => [EvRegistryAdd d.2]
     | inl ex => [EvConsoleError (LogWidgetFailed d.2 ex);
                  EvDanger widget_failed_text (message ex)]
     end.

(** ** The import loop *)

(** What one identifier does to the local variables of the loop. *)
Definition import_state (env : Env) (appList : list IApplication)
    (cp : string) (st : ImportState) : ImportState :=
  if is_loadable cp then
    match corsImport env cp with
    | Some _ =>
        {| jsModules := jsModules st;
           cleanupWidgetContextPath :=
             if is_known_app appList cp then cleanupWidgetContextPath st
             else cleanupWidgetContextPath st ++ [cp];
           widgetCounter := S (widgetCounter st) |}
    | None =>
        {| jsModules :=
             match interleaved env cp with
             | inr jsModule => jsModules st ++ [(cp, jsModule)]
             | inl _ => jsModules st
             end;
           cleanupWidgetContextPath := cleanupWidgetContextPath st;
           widgetCounter := S (widgetCounter st) |}
    end
  else st.

(** The calls one identifier causes, [counter] identifiers having been
    attempted before it. *)
Definition import_events (env : Env) (appList : list IApplication)
    (total : nat) (cp : string) (counter : nat) : list Event :=
  if is_loadable cp then
    EvProgress (MsgLoadingWidgets (S counter) total)
    :: EvManifestImport cp
    :: match corsImport env cp with
       | Some e =>
           if is_known_app appList cp
           then [EvConsoleError (LogManifestMissing cp e)]
           else []
       | None =>
           EvModuleImport cp
           :: match interleaved env cp with
              | inr _ => []
              | inl e => [EvConsoleError (LogNoCustomWidget cp e);
                          EvDanger import_failed_text (message e)]
              end
       end
  else [].

Fixpoint import_loop_events (env : Env) (appList : list IApplication)
    (total : nat) (cps : list string) (st : ImportState) : list Event :=
  match cps with
  | [] => []
  | cp :: rest =>
      import_events env appList total cp (widgetCounter st)
      ++ import_loop_events env appList total rest
           (import_state env appList cp st)
  end.

Definition import_loop_state (env : Env) (appList : list IApplication)
    (cps : list string) (st : ImportState) : ImportState :=
  fold_left (λ st cp, import_state env appList cp st) cps st.

(** An identifier is stale when its manifest cannot be imported and no
    application carries it as context path any more. *)
Definition is_stale (env : Env) (appList : list IApplication) (cp : string)
  : bool :=
  is_loadable cp && bool_decide (is_Some (corsImport env cp))
  && negb (is_known_app appList cp).

(** The module an identifier contributes: its manifest and its entry module
    must both import. *)
Definition imported_module (env : Env) (cp : string)
  : option (string * JsModule) :=
  if is_loadable cp then
    match corsImport env cp, interleaved env cp with
    | None, inr jsModule => Some (cp, jsModule)
    | _, _ => None
    end
  else None.

(** ** The activation loop *)

(** The structural test of the module scan. *)
Definition is_module_descriptor (exportedObj : ExportedObj) : bool :=
  match exportedObj with
  | ExpAnnotated annotations _ => has_NgModule_annotation annotations
  | _ => false
  end.

Definition is_nullish (exportedObj : ExportedObj) : bool :=
  match exportedObj with ExpNullish => true | _ => false end.

(** The module instance an exported value contributes, if any. *)
Definition activated (exportedObj : ExportedObj) : list ModId :=
  match exportedObj with
  | ExpAnnotated annotations (inr ngModule) =>
      if has_NgModule_annotation annotations then [ngModule] else []
  | _ => []
  end.

Definition activation_events (cp key : string) (exportedObj : ExportedObj)
  : list Event :=
  match exportedObj with
  | ExpAnnotated annotations activation =>
      if has_NgModule_annotation annotations then
        EvActivate cp key
        :: match activation with
           | inr _ => []
           | inl e => [EvConsoleError (LogCompileFailed cp e);
                       EvDanger widget_failed_text (message e)]
           end
      else []
  | _ => []
  end.

Definition nullish_error : Exn :=
  TypeError "Cannot read property 'hasOwnProperty' of undefined".

(** An exported value with the context path and the name it came under. *)
Definition Export : Type := string * string * ExportedObj.

Definition exports_of (cp : string) (jsModule : JsModule) : list Export :=
  (λ kv, (cp, kv.1, kv.2)) <$> jsModule.

(** The exported values of all imported modules, in the order the two nested
    loops visit them. *)
Definition all_exports (jsModules : list (string * JsModule)) : list Export :=
  jsModules ≫= (λ m, exports_of m.1 m.2).

(** The values visited before the scan meets a nullish one. *)
Fixpoint visited (exports : list Export) : list Export :=
  match exports with
  | [] => []
  | x :: rest => if is_nullish x.2 then [] else x :: visited rest
  end.

Definition scan_events (exports : list Export) : list Event :=
  visited exports ≫= (λ x, activation_events x.1.1 x.1.2 x.2).

Definition scan_modules (exports : list Export) : list ModId :=
  exports ≫= (λ x, activated x.2).

Definition scan_throws (exports : list Export) : bool :=
  existsb (λ x, is_nullish x.2) exports.

Definition scan_result (exports : list Export) (ngModules : list ModId)
  : Result (list ModId) :=
  if scan_throws exports then Threw nullish_error
  else Ok (ngModules ++ scan_modules exports).

(** ** The registration loop *)

Definition entry_refs (widget : HookEntry) : list Ref :=
  match widget with Single w => [w] | Many ws => ws end.

(** The definitions the module instances provide, in the order they are fed
    to [loadWidget], each with its owning module. *)
Definition collected (env : Env) (ngModules : list ModId)
  : list (ModId * Ref) :=
  ngModules ≫= (λ m,
    Js.or_empty (hookComponents env m) ≫= (λ widget,
      (λ r, (m, r)) <$> entry_refs widget)).

(** Feeding a list of definitions through [loadWidget]. *)
Definition register_all (env : Env) (defs : list (ModId * Ref)) (w : World)
  : World :=
  fold_left (λ w d, (loadWidget env d.1 d.2 w).2) defs w.

(** ** The load signal and the clean-up *)

(** The world after [isLoaded$.next(true)]. *)
Definition signal_loaded (env : Env) (w : World) : World :=
  let w1 := set_isLoaded true (add_events [EvIsLoadedNext true] w) in
  set_instances (deliver_loaded env w1 <$> instances w1) w1.

(** The world after a successful [invService.update]. *)
Definition updated (id : string) (paths : list string) (w : World) : World :=
  set_inventory (update_paths id paths <$> inventory w)
    (add_events [EvInventoryUpdate id paths] w).

(** ** One batch *)

Definition batch_state (env : Env) (appList : list IApplication)
    (contextPaths : list string) : ImportState :=
  import_loop_state env appList contextPaths empty_import_state.

Definition batch_exports (env : Env) (appList : list IApplication)
    (contextPaths : list string) : list Export :=
  all_exports (jsModules (batch_state env appList contextPaths)).

Definition batch_modules (env : Env) (appList : list IApplication)
    (contextPaths : list string) : list ModId :=
  scan_modules (batch_exports env appList contextPaths).

Definition batch_definitions (env : Env) (appList : list IApplication)
    (contextPaths : list string) : list (ModId * Ref) :=
  collected env (batch_modules env appList contextPaths).

(** The calls of the import pass. *)
Definition import_trace (env : Env) (appList : list IApplication)
    (contextPaths : list string) : list Event :=
  import_loop_events env appList (length contextPaths) contextPaths
    empty_import_state.

(** The calls of the import pass followed by those of the activation pass. *)
Definition scan_trace (env : Env) (appList : list IApplication)
    (contextPaths : list string) : list Event :=
  import_trace env appList contextPaths
  ++ [EvProgress MsgStillWorking]
  ++ scan_events (batch_exports env appList contextPaths).

(** The world at the moment [isLoaded$.next(true)] has returned. *)
Definition loaded_world (env : Env) (appList : list IApplication)
    (contextPaths : list string) (w : World) : World :=
  signal_loaded env
    (add_events [EvProgressClose]
       (register_all env (batch_definitions env appList contextPaths)
          (add_events [EvHostRegistryReady; EvProgress MsgAlmostReady]
             (add_events (scan_trace env appList contextPaths) w)))).

(** ** Resolving the current application *)

Definition own_app (cp : string) (app : IApplication) : bool :=
  Js.opt_eqb (contextPath app) (Some cp)
  && Js.opt_eqb (availability app) (Some "PRIVATE").

Definition current_app (cp : string) (app : IApplication) : bool :=
  Js.opt_eqb (contextPath app) (Some cp).

Definition not_found : Exn := Error "Could not find current application.".

Definition url_error : Exn := TypeError "Cannot read property '1' of null".

(** The application the two searches settle on. *)
Definition resolve_app (cp : string) (appList : list IApplication)
  : option IApplication :=
  match find (own_app cp) appList with
  | Some app => Some app
  | None => find (current_app cp) appList
  end.

(** The run got as far as a resolved application. *)
Record resolved (env : Env) (user : string) (appList : list IApplication)
    (cp : string) (app : IApplication) : Prop := {
  resolved_user : currentUser env = Some user;
  resolved_apps : applicationsByUser env user = inr appList;
  resolved_url : contextPathFromURL (pathname env) = Some cp;
  resolved_app : resolve_app cp appList = Some app;
  resolved_list : inventoryListError env = None;
}.

Definition preamble (user : string) : list Event :=
  [EvProgress MsgLoading; EvFetchApplications user; EvInventoryList].

Definition is_preamble_event (e : Event) : Prop :=
  match e with
  | EvProgress MsgLoading | EvFetchApplications _ | EvInventoryList => True
  | _ => False
  end.

(** The runtime context record of an application, as the run sees it. *)
Definition context_of (app : IApplication) (w : World)
  : option IAppRuntimeContext :=
  find_runtime_context app (take 2000 (inventory w)).

(** ** Reading a trace *)

(** The kind of call an event records. *)
Inductive Kind :=
| KProgress | KFetch | KList | KManifest | KModule | KConsole | KDanger
| KActivate | KReady | KLoadWidget | KAdd | KSignal | KUpdate.

#[global] Instance Kind_eq_dec : EqDecision Kind.
Proof. solve_decision. Defined.

Definition kind (e : Event) : Kind :=
  match e with
  | EvProgress _ | EvProgressClose => KProgress
  | EvFetchApplications _ => KFetch
  | EvInventoryList => KList
  | EvManifestImport _ => KManifest
  | EvModuleImport _ => KModule
  | EvConsoleError _ => KConsole
  | EvDanger _ _ => KDanger
  | EvActivate _ _ => KActivate
  | EvHostRegistryReady => KReady
  | EvLoadWidget _ _ => KLoadWidget
  | EvRegistryAdd _ => KAdd
  | EvIsLoadedNext _ => KSignal
  | EvInventoryUpdate _ _ => KUpdate
  end.

(** All events of [evs] are of one of the kinds [ks]. *)
Definition kinds_in (ks : list Kind) (evs : list Event) : Prop :=
  Forall (λ e, kind e ∈ ks) evs.

(** The calls of [evs] of kind [k], in order. *)
Definition of_kind (k : Kind) (evs : list Event) : list Event :=
  filter (λ e, kind e = k) evs.

(** The bundle identifier a call works on, for the calls that work on
    one. *)
Definition event_subject (e : Event) : option string :=
  match e with
  | EvManifestImport cp | EvModuleImport cp | EvActivate cp _ => Some cp
  | EvConsoleError (LogManifestMissing cp _)
  | EvConsoleError (LogNoCustomWidget cp _)
  | EvConsoleError (LogCompileFailed cp _) => Some cp
  | _ => None
  end.

Definition subjects (evs : list Event) : list string := omap event_subject evs.

(** [l] without its leading run of [cp]. *)
Fixpoint drop_run (cp : string) (l : list string) : list string :=
  match l with
  | [] => []
  | x :: l' => if String.eqb x cp then drop_run cp l' else l
  end.

(** [in_blocks cps l]: [l] consists of a run of the first identifier of
    [cps], followed by a run of the second, and so on (runs may be empty):
    the work on one identifier is over before the work on the next one
    begins. *)
Fixpoint in_blocks (cps : list string) (l : list string) : bool :=
  match cps with
  | [] => match l with [] => true | _ => false end
  | cp :: rest => in_blocks rest (drop_run cp l)
  end.

(** The calls of the registration pass, up to and including the signal. *)
Definition registration_trace (env : Env) (defs : list (ModId * Ref))
  : list Event :=
  [EvHostRegistryReady; EvProgress MsgAlmostReady]
  ++ (defs ≫= loadWidget_events env)
  ++ [EvProgressClose; EvIsLoadedNext true].

(** The paths the clean-up leaves in the runtime context, and whether it
    removed any. *)
Definition cleaned (paths : list string) (cleanup : list string)
  : list string * bool :=
  let r := fold_left cleanup_step cleanup (Some paths, false) in
  (Js.or_empty r.1, r.2).

(** The kinds of calls each pass can make. *)
Definition import_kinds : list Kind :=
  [KProgress; KManifest; KModule; KConsole; KDanger].

Definition activation_kinds : list Kind := [KActivate; KConsole; KDanger].

Definition registration_kinds : list Kind :=
  [KLoadWidget; KAdd; KConsole; KDanger].

(** * Sample surroundings *)

Module Sample.

Definition app (id cp av : string) (paths : option (list string))
  : IApplication :=
  {| app_id := id; contextPath := Some cp; availability := Some av;
     app_widgetContextPaths := paths |}.

(** Definitions 1 and 2 share the id [w1]; definition 3 names a component
    no resolver knows. *)
Definition defs (r : Ref) : DynamicComponentDefinition :=
  match r with
  | 1 => {| widget_id := "w1"; component := "A"; configComponent := None |}
  | 2 => {| widget_id := "w1"; component := "B";
            configComponent := Some "BConfig" |}
  | 3 => {| widget_id := "w3"; component := "Broken";
            configComponent := None |}
  | _ => {| widget_id := "builtin"; component := "Host";
            configComponent := None |}
  end.

Definition resolver (m : ModId) (c : Component) : Exn + ComponentFactory :=
  if String.eqb c "Broken"
  then inl (Error "No component factory found for Broken")
  else inr (m * 100 + String.length c).

Definition hooks (m : ModId) : option (list HookEntry) :=
  match m with
  | 7 => Some [Single 1]
  | 8 => Some [Many [3; 2]]
  | _ => None
  end.

(** A tenant with the given applications, where the manifests of [missing]
    cannot be imported and [bundles] answers the entry-module imports. *)
Definition env_of (apps : list IApplication) (missing : list string)
    (bundles : string -> Exn + JsModule) : Env :=
  {| pathname := "/apps/cockpit/index.html";
     currentUser := Some "alice";
     applicationsByUser := λ _, inr apps;
     inventoryListError := None;
     inventoryUpdateError := None;
     corsImport := λ cp,
       if bool_decide (cp ∈ missing) then Some (Error "404") else None;
     interleaved := bundles;
     hookComponents := hooks;
     defn := defs;
     resolveComponentFactory := resolver;
     hostResolveComponentFactory := λ c, inr 1;
     getById := λ reg id, find (λ r, String.eqb (widget_id (defs r)) id) reg |}.

(** Bundle [a] exports a helper and a module that activates as 7; bundle
    [b] exports a module that activates as 8; bundle [plain] exports only
    values that are no modules. *)
Definition bundles (cp : string) : Exn + JsModule :=
  if String.eqb cp "a" then
    inr [("helper", ExpPlain);
         ("AModule", ExpAnnotated [Some "NgModule"] (inr 7))]
  else if String.eqb cp "b" then
    inr [("BModule", ExpAnnotated [Some "NgModule"] (inr 8))]
  else if String.eqb cp "plain" then
    inr [("VERSION", ExpPlain);
         ("Service", ExpAnnotated [Some "Injectable"] (inr 9))]
  else inl (Error "Cannot find module").

Definition cockpit (paths : option (list string)) : IApplication :=
  app "2" "cockpit" "PRIVATE" paths.

Definition context (paths : list string) : IAppRuntimeContext :=
  {| rc_id := "rc"; appId := Some "2"; widgetContextPaths := Some paths |}.

End Sample.

(** Between [before] and [after] the load signal went from [false] to
    [true] through exactly one emission. *)
Definition transitions_once (before after : World) : Prop :=
  isLoaded before = false ∧ isLoaded after = true
  ∧ ∃ evs, trace after = trace before ++ evs
           ∧ of_kind KSignal evs = [EvIsLoadedNext true].

(** Between [before] and [after] the load signal stayed [false] and nothing
    was emitted. *)
Definition stays_unloaded (before after : World) : Prop :=
  isLoaded before = false ∧ isLoaded after = false
  ∧ ∃ evs, trace after = trace before ++ evs ∧ of_kind KSignal evs = [].

(** A call that leaves a [true] signal [true] and emits nothing but
    [true]. *)
Definition keeps_loaded (before after : World) : Prop :=
  (isLoaded before = true → isLoaded after = true)
  ∧ ∃ evs, trace after = trace before ++ evs
           ∧ EvIsLoadedNext false ∉ evs.

(** A tenant in which the current user sees no application at all. *)
Definition no_apps_env : Env := Sample.env_of [] [] Sample.bundles.

Definition fresh_world : World := initial_world [100] [] [].

(** A warning was surfaced to the user: [alertService.danger] was called. *)
Definition warning_surfaced (evs : list Event) : Prop :=
  ∃ text detail, EvDanger text detail ∈ evs.

(** A bundle that exports a constant and an injectable service, but no
    module. *)
Definition plain_bundles (cp : string) : Exn + JsModule :=
  inr [("VERSION", ExpPlain);
       ("Service", ExpAnnotated [Some "Injectable"] (inr 9))].

(** The cockpit with the single identifier [a], whose bundle imports but
    holds no module. *)
Definition plain_env : Env :=
  Sample.env_of [Sample.cockpit (Some ["a"])] [] plain_bundles.

Definition plain_world : World := initial_world [100] [Sample.context ["a"]] [].

(** The cockpit with the identifiers [a] and [b], both bundles holding one
    module. *)
Definition two_bundles_env : Env :=
  Sample.env_of [Sample.cockpit (Some ["a"; "b"])] [] Sample.bundles.




(** The cockpit whose runtime context lists an empty identifier next to
    [a]. *)
Definition blank_env : Env :=
  Sample.env_of [Sample.cockpit None] [] Sample.bundles.

Definition blank_world : World :=
  initial_world [100] [Sample.context [blank; "a"]] [].

(** A dashboard slot showing the widget [w1]. *)
Definition w1_slot : DynamicComponentComponent :=
  {| componentId := "w1"; mode := "component"; config := 42; error := None;
     host := None; waiting := 0 |}.

(** The cockpit with the single identifier [a], whose bundle provides
    [w1]. *)
Definition one_bundle_env : Env :=
  Sample.env_of [Sample.cockpit (Some ["a"])] [] Sample.bundles.

(** The cockpit and its runtime context list [a] and [b]; the manifest of
    [b] cannot be imported and no application [b] exists. *)
Definition stale_bundle_env : Env :=
  Sample.env_of [Sample.cockpit (Some ["a"; "b"])] ["b"] Sample.bundles.

Definition stale_bundle_world : World :=
  initial_world [100] [Sample.context ["a"; "b"]] [].

Definition last_write_entry : WidgetComponentFactoriesAndInjector :=
  {| componentFactory := 801; configComponentFactory := Some 807;
     injector := ModuleInjector 8 |}.

Definition two_cockpits : list IApplication :=
  [Sample.app "1" "cockpit" "MARKET" (Some ["x"]);
   Sample.cockpit (Some ["a"; "b"])].

(** * Vocabulary of the further properties *)

(** A text without line terminator: what [.*?] can run over. *)
Fixpoint no_terminator (s : string) : bool :=
  match s with
  | EmptyString => true
  | String c s' => negb (is_line_terminator c) && no_terminator s'
  end.

(** A text without [/] and without line terminator. *)
Fixpoint plain_segment (s : string) : bool :=
  match s with
  | EmptyString => true
  | String c s' =>
      negb (bool_decide (c = slash)) && negb (is_line_terminator c)
      && plain_segment s'
  end.

(** The factories of a collected definition can be built. *)
Definition buildable (env : Env) (d : ModId * Ref) : bool :=
  match build_factories env d.1 d.2 with inr _ => true | inl _ => false end.

(** What a rendered instance shows: a component created from [factory] with
    [inj], its [config] set. *)
Definition rendered (factory : ComponentFactory) (inj : option Injector)
    (this : DynamicComponentComponent) : DynamicComponentComponent :=
  set_host
    (Some {| ref_factory := factory; ref_injector := inj;
             ref_config := Some (config this) |})
    (set_error None this).

(** A dashboard slot showing the configuration view of [w1]. *)
Definition w1_config_slot : DynamicComponentComponent :=
  {| componentId := "w1"; mode := "config"; config := 42; error := None;
     host := None; waiting := 0 |}.

(** A service that has registered definition 1 of module 7. *)
Definition registered_world : World :=
  (loadWidget (Sample.env_of [] [] Sample.bundles) 7 1
     (initial_world [100] [] [])).2.

(** A dashboard slot showing the host's own widget. *)
Definition builtin_slot : DynamicComponentComponent :=
  {| componentId := "builtin"; mode := "component"; config := 7;
     error := None; host := None; waiting := 0 |}.

(** An entry module that exports a module and a [null]. *)
Definition null_module : JsModule :=
  [("AModule", ExpAnnotated [Some "NgModule"] (inr 7));
   ("broken", ExpNullish)].

Definition null_bundles (cp : string) : Exn + JsModule := inr null_module.

Definition null_export_env : Env :=
  Sample.env_of [Sample.cockpit (Some ["a"])] [] null_bundles.

(** An exported module descriptor whose activation throws. *)
Definition is_failed_activation (exportedObj : ExportedObj) : bool :=
  match exportedObj with
  | ExpAnnotated annotations (inl _) => has_NgModule_annotation annotations
  | _ => false
  end.

(** The cockpit with the identifier [z], whose manifest imports but whose
    entry module does not. *)
Definition missing_module_env : Env :=
  Sample.env_of [Sample.cockpit (Some ["z"])] [] Sample.bundles.

(** An entry module with a module whose compilation fails, followed by one
    that activates. *)
Definition half_broken_module : JsModule :=
  [("Old", ExpAnnotated [Some "NgModule"] (inl (Error "compiled for 1006")));
   ("helper", ExpPlain);
   ("New", ExpAnnotated [Some "NgModule"] (inr 7))].

(** * The installer service and its dialog

    [RuntimeWidgetInstallerService] deploys a packaged widget as an
    application of the tenant and lists its context path in the runtime
    context of an application; [RuntimeWidgetInstallerModalComponent] is
    the dialog that drives it. The platform is modelled as in the loader:
    the runtime contexts are the state, every call is recorded, and what
    the application service, the zip reader and the browser answer is a
    parameter. *)

Module Installer.

(** What [JSON.parse] makes of the text of the widget's [cumulocity.json]:
    [null], on which reading [contextPath] throws, or any other value, of
    which only the [contextPath] property is read ([None] when the value
    has none; a context path that is there is a string). *)
Inductive ParsedJson :=
| JsonNull
| JsonValue (cp : option string).

(** A [Blob], by identity. *)
Definition Blob := nat.

(** An entry of a [FileList]: a [Blob] with a [name]. *)
Record File := { file_name : string; file_blob : Blob }.

(** An [Alert] object: [{text, type}]. *)
Record Alert := { alert_text : string; alert_type : string }.

Inductive Call :=
| CallApplicationList                       (** [appService.list] *)
| CallApplicationCreate (cp : string)       (** [appService.create] *)
| CallBinaryUpload (app : string) (file : Blob)
                                            (** [appService.binary(app).upload] *)
| CallApplicationUpdate (id activeVersionId : string)
                                            (** [appService.update] *)
| CallInventoryList                         (** [invService.list] *)
| CallInventoryUpdate (id : string) (paths : list string)
                                            (** [invService.update] *)
| CallInventoryCreate (app : string) (paths : list string)
                                            (** [invService.create] *)
| CallOnUpdate (msg : string)               (** entry into [onUpdate] *)
| CallConsoleLog (e : Exn)                  (** [console.log] *)
| CallConsoleError (e : Exn)                (** [console.error] *)
| CallAlertAdd (a : Alert)                  (** [alertService.add] *)
| CallAlertRemove (a : Alert)               (** [alertService.remove] *)
| CallAlertDanger (text : string) (detail : option string)
                                            (** [alertService.danger] *)
| CallAlertSuccess (text : string)          (** [alertService.success] *)
| CallSetTimeout (ms : nat)                 (** the awaited [setTimeout] *)
| CallLocationReload.                       (** [location.reload] *)

#[global] Instance Alert_eq_dec : EqDecision Alert.
Proof. solve_decision. Defined.
#[global] Instance Call_eq_dec : EqDecision Call.
Proof. solve_decision. Defined.

(** The page the dialog lives in: the runtime contexts the platform holds,
    the calls made so far, and the two variables of the dialog ([busy] and
    the [currentAlert] of the running [upload]). *)
Record Page := {
  managedObjects : list IAppRuntimeContext;
  calls : list Call;
  busy : bool;
  currentAlert : Alert;
}.

(** What the surroundings answer. *)
Record Env := {
  (** [isDevMode()] *)
  isDevMode : bool;
  (** [window.location.host] and [window.location.pathname] *)
  location_host : string;
  location_pathname : string;
  (** the [data] of [appService.list({pageSize: 2000})] *)
  applications : Exn + list IApplication;
  (** [JSZip.loadAsync(file)]: a rejection, or the archive, of which
      [file('cumulocity.json')] is [null] ([None]) or an entry whose text is
      read and parsed *)
  unzip : Blob -> Exn + option (Exn + ParsedJson);
  (** the [id] of the application [appService.create] answers with *)
  created : string -> Exn + string;
  (** the [id.toString()] of the binary [upload] answers with *)
  uploaded : string -> Blob -> Exn + string;
  (** failures of [appService.update] and of the inventory calls, if any *)
  applicationUpdateError : option Exn;
  inventoryListError : option Exn;
  inventoryUpdateError : option Exn;
  inventoryCreateError : option Exn;
  (** the [id] the platform gives to a managed object it creates *)
  createdId : string;
}.

(** ** The monad of the installer: state, exceptions, pending awaits *)

Definition I (A : Type) : Type := Page -> Result A * Page.

#[global] Instance I_ret : MRet I := fun A a p => (Ok a, p).

#[global] Instance I_bind : MBind I := fun A B f m p =>
  match m p with
  | (Ok a, p') => f a p'
  | (Threw e, p') => (Threw e, p')
  | (Pending, p') => (Pending, p')
  end.

Definition throw {A} (e : Exn) : I A := fun p => (Threw e, p).

Definition try_catch {A} (body : I A) (handler : Exn -> I A) : I A := fun p =>
  match body p with
  | (Threw e, p') => handler e p'
  | r => r
  end.

Definition lift_sum {A} (r : Exn + A) : I A :=
  match r with inl e => throw e | inr a => mret a end.

Definition lift_error (o : option Exn) : I unit :=
  match o with Some e => throw e | None => mret tt end.

Definition get_page : I Page := fun p => (Ok p, p).

Definition modify (f : Page -> Page) : I unit := fun p => (Ok tt, f p).

Definition set_managedObjects (l : list IAppRuntimeContext) (p : Page) : Page :=
  {| managedObjects := l; calls := calls p; busy := busy p;
     currentAlert := currentAlert p |}.

Definition set_calls (l : list Call) (p : Page) : Page :=
  {| managedObjects := managedObjects p; calls := l; busy := busy p;
     currentAlert := currentAlert p |}.

Definition set_busy (b : bool) (p : Page) : Page :=
  {| managedObjects := managedObjects p; calls := calls p; busy := b;
     currentAlert := currentAlert p |}.

Definition set_currentAlert (a : Alert) (p : Page) : Page :=
  {| managedObjects := managedObjects p; calls := calls p; busy := busy p;
     currentAlert := a |}.

Definition emit (c : Call) : I unit :=
  modify (fun p => set_calls (calls p ++ [c]) p).

(** ** The guard against development mode *)

(** [host.split(':')[0]] *)
Fixpoint before_colon (s : string) : string :=
  match s with
  | EmptyString => EmptyString
  | String c s' =>
      if bool_decide (c = ":"%char) then EmptyString
      else String c (before_colon s')
  end.

Definition development_text : string :=
  "Can't add a widget when running in Development Mode. Deploy the application first, or edit the package.json file.".

Definition refuse_development (env : Env) : I unit :=
  let currentHost := before_colon (location_host env) in
  if isDevMode env || String.eqb currentHost "localhost"
     || String.eqb currentHost "127.0.0.1"
  then throw (Error development_text)
  else mret tt.

(** ** Finding the application *)

Definition appService_list (env : Env) : I (list IApplication) :=
  emit CallApplicationList;;
  lift_sum (applications env).

Definition contextPathFromURL_call (env : Env) : I string :=
  match contextPathFromURL (location_pathname env) with
  | Some cp => mret cp
  | None => throw (TypeError "Cannot read property '1' of null")
  end.

(** [array.find(pred)] with a callback that may throw. *)
Fixpoint find_m {A} (pred : A -> I bool) (l : list A) : I (option A) :=
  match l with
  | [] => mret None
  | x :: l' =>
      b ← pred x;
      if b : bool then mret (Some x) else find_m pred l'
  end.

(** [String(x)] on an optional string. *)
Definition String_of (o : option string) : string := default "undefined" o.

(** [app.contextPath === cp && String(app.availability) === 'PRIVATE'] *)
Definition own_with (cp : string) (app : IApplication) : bool :=
  Js.opt_eqb (contextPath app) (Some cp)
  && String.eqb (String_of (availability app)) "PRIVATE".

(** [app.contextPath === cp] *)
Definition current_with (cp : string) (app : IApplication) : bool :=
  Js.opt_eqb (contextPath app) (Some cp).

Definition not_found_text : string := "Could not find current application.".

(** The two searches of [installWidget]; [contextPathFromURL()] is called
    by the callbacks, once for each application looked at. *)
Definition find_current_app (env : Env) (appList : list IApplication)
  : I IApplication :=
  own ← find_m (fun app => cp ← contextPathFromURL_call env;
                           mret (own_with cp app)) appList;
  match own with
  | Some app => mret app
  | None =>
      subscribed ← find_m (fun app => cp ← contextPathFromURL_call env;
                                      mret (current_with cp app)) appList;
      match subscribed with
      | Some app => mret app
      | None => throw (Error not_found_text)
      end
  end.

(** The two searches of [installWidgetWithContext]. *)
Definition find_app_with_context (contextPath : string)
    (appList : list IApplication) : I IApplication :=
  match find (own_with contextPath) appList with
  | Some app => mret app
  | None =>
      match find (current_with contextPath) appList with
      | Some app => mret app
      | None => throw (Error not_found_text)
      end
  end.

(** ** [widgetInstallaitonProcess] *)

(** The first [try]: read the context path out of the widget's
    [cumulocity.json]; whatever goes wrong is logged and replaced by 'Not a
    valid widget'. *)
Definition read_context_path (env : Env) (widgetFile : Blob) : I string :=
  try_catch
    (widgetFileZip ← lift_sum (unzip env widgetFile);
     match widgetFileZip with
     | None => throw (TypeError "Cannot read property 'async' of null")
     | Some text =>
         widgetC8yJson ← lift_sum text;
         match widgetC8yJson with
         | JsonNull =>
             throw (TypeError "Cannot read property 'contextPath' of null")
         | JsonValue None => throw (Error "Widget has no context path")
         | JsonValue (Some cp) => mret cp
         end
     end)
    (fun e => emit (CallConsoleLog e);; throw (Error "Not a valid widget")).

(** A call of the [onUpdate] callback. *)
Definition notify (onUpdate : string -> I unit) (msg : string) : I unit :=
  emit (CallOnUpdate msg);;
  onUpdate msg.

Definition already_deployed_text : string :=
  "Widget already deployed! Adding to Application..."
  +:+ String "010" " You can update a widget via the Apps Administration screen.".

Definition deployed_text : string :=
  "Widget deployed! Adding to application...".

(** Step 2: deploy the widget as an application unless one with its context
    path exists. *)
Definition deploy (env : Env) (appList : list IApplication)
    (widgetFile : Blob) (cp : string) (onUpdate : string -> I unit) : I unit :=
  if is_known_app appList cp then notify onUpdate already_deployed_text
  else
    emit (CallApplicationCreate cp);;
    widgetApp ← lift_sum (created env cp);
    emit (CallBinaryUpload widgetApp widgetFile);;
    appBinary ← lift_sum (uploaded env widgetApp widgetFile);
    emit (CallApplicationUpdate widgetApp appBinary);;
    lift_error (applicationUpdateError env);;
    notify onUpdate deployed_text.

Definition inventory_list (env : Env) : I (list IAppRuntimeContext) :=
  emit CallInventoryList;;
  lift_error (inventoryListError env);;
  p ← get_page;
  mret (take 2000 (managedObjects p)).

Definition inventory_update (env : Env) (id : string) (paths : list string)
  : I unit :=
  emit (CallInventoryUpdate id paths);;
  lift_error (inventoryUpdateError env);;
  modify (fun p =>
    set_managedObjects (update_paths id paths <$> managedObjects p) p).

(** [invService.create({type: 'app_runtimeContext', appId, widgetContextPaths})] *)
Definition inventory_create (env : Env) (app : string) (paths : list string)
  : I unit :=
  emit (CallInventoryCreate app paths);;
  lift_error (inventoryCreateError env);;
  modify (fun p =>
    set_managedObjects
      (managedObjects p
       ++ [ {| rc_id := createdId env; appId := Some app;
               widgetContextPaths := Some paths |} ]) p).

(** The path list written in step 3. *)
Definition with_widget (AppRuntimePath : option IAppRuntimeContext)
    (cp : string) : list string :=
  match AppRuntimePath ≫= widgetContextPaths with
  | Some paths => Js.array_from_set (paths ++ [cp])
  | None => Js.array_from_set [cp]
  end.

(** Step 3: list the widget in the runtime context of the application. *)
Definition add_to_context (env : Env) (app : IApplication) (cp : string)
  : I unit :=
  AppRuntimePathList ← inventory_list env;
  let AppRuntimePath := find_runtime_context app AppRuntimePathList in
  let widgetContextPaths := with_widget AppRuntimePath cp in
  match AppRuntimePath with
  | Some rc => inventory_update env (rc_id rc) widgetContextPaths
  | None => inventory_create env (app_id app) widgetContextPaths
  end.

Definition widgetInstallaitonProcess (env : Env) (appList : list IApplication)
    (app : IApplication) (widgetFile : Blob) (onUpdate : string -> I unit)
  : I unit :=
  cp ← read_context_path env widgetFile;
  deploy env appList widgetFile cp onUpdate;;
  add_to_context env app cp.

(** The default [onUpdate]: [()=>{}]. *)
Definition no_update (msg : string) : I unit := mret tt.

(** ** [installWidget] and [installWidgetWithContext] *)

(** [installWidget] calls [widgetInstallaitonProcess] without awaiting it:
    the process is left running and [installWidget] returns. The value
    returned here is that running process, which the caller of the method
    cannot get hold of; what it throws is an unhandled rejection. *)
Definition installWidget (env : Env) (widgetFile : Blob)
    (onUpdate : string -> I unit) : I (I unit) :=
  refuse_development env;;
  appList ← appService_list env;
  app ← find_current_app env appList;
  mret (widgetInstallaitonProcess env appList app widgetFile onUpdate).

Definition installWidgetWithContext (env : Env) (widgetFile : Blob)
    (contextPath : string) (onUpdate : string -> I unit) : I unit :=
  refuse_development env;;
  appList ← appService_list env;
  app ← find_app_with_context contextPath appList;
  widgetInstallaitonProcess env appList app widgetFile onUpdate.

(** ** The dialog: [upload] *)

(** [name.indexOf(' ') >= 0] *)
Fixpoint contains_space (s : string) : bool :=
  match s with
  | EmptyString => false
  | String c s' => bool_decide (c = " "%char) || contains_space s'
  end.

Definition uploading : Alert :=
  {| alert_text := "Uploading widget..."; alert_type := "info" |}.

(** The callback [upload] hands to [installWidget]; the installer calls it
    with a message only, so the type of the new alert is [info]. *)
Definition replace_alert (msg : string) : I unit :=
  p ← get_page;
  emit (CallAlertRemove (currentAlert p));;
  let a := {| alert_text := msg; alert_type := "info" |} in
  modify (set_currentAlert a);;
  emit (CallAlertAdd a).

(** The installation process that [installWidget] left running goes on
    while its caller waits: what it does reaches the page, what it returns
    or throws reaches nobody (a rejection is unhandled). The value kept
    here is that outcome. *)
Definition detached (running : I unit) : I (Result unit) := fun p =>
  (Ok (running p).1, (running p).2).

(** [upload], up to the reload of the page. [widgetFile] is the dialog's
    field of that name, [None] as long as nothing has set it.

    When [installWidget] returns, the installation process it started has
    made no call yet: it waits for the zip reader, which reads the file in
    a later task, whereas [upload] is resumed at once and goes on to the
    timer. The process runs while [upload] waits for the timer; the
    platform is taken to answer within the five seconds, so the process
    has settled when the page is reloaded. The result is the outcome of
    that process, which [upload] never looks at, if [upload] got that
    far. *)
Definition upload (env : Env) (widgetFile : option (list File))
  : I (option (Result unit)) :=
  try_catch
    (match widgetFile with
     | None => throw (TypeError "Cannot read property 'item' of undefined")
     | Some files =>
         match head files with
         | None =>
             emit (CallAlertDanger "No widget file selected" None);;
             mret None
         | Some file =>
             if negb (String.eqb (file_name file) blank)
                && contains_space (file_name file)
             then
               emit (CallAlertDanger "Widget File name cannot contain SPACE"
                       None);;
               mret None
             else
               modify (set_busy true);;
               modify (set_currentAlert uploading);;
               emit (CallAlertAdd uploading);;
               running ← installWidget env (file_blob file) replace_alert;
               p ← get_page;
               emit (CallAlertRemove (currentAlert p));;
               emit (CallAlertSuccess "Widget Added! Refreshing...");;
               emit (CallSetTimeout 5000);;
               outcome ← detached running;
               emit CallLocationReload;;
               mret (Some outcome)
         end
     end)
    (fun e =>
       emit (CallAlertDanger "Failed to add widget!" (Some (message e)));;
       emit (CallConsoleError e);;
       modify (set_busy false);;
       mret None).

(** ** Vocabulary *)

Definition add_calls (cs : list Call) (p : Page) : Page :=
  set_calls (calls p ++ cs) p.

(** A call of the alert service. *)
Definition is_alert_call (c : Call) : bool :=
  match c with
  | CallAlertAdd _ | CallAlertRemove _ | CallAlertDanger _ _
  | CallAlertSuccess _ => true
  | _ => false
  end.

(** The calls that are not calls of the alert service. *)
Definition service_calls (cs : list Call) : list Call :=
  filter (fun c => is_alert_call c = false) cs.

(** A callback that returns, leaves the runtime contexts alone and calls
    nothing but the alert service. *)
Definition quiet (onUpdate : string -> I unit) : Prop :=
  forall msg p,
    (onUpdate msg p).1 = Ok tt
    /\ managedObjects (onUpdate msg p).2 = managedObjects p
    /\ service_calls (calls (onUpdate msg p).2) = service_calls (calls p).

(** What reading the widget file comes to: the context path of its
    manifest, or the error that is logged. *)
Definition manifest_context_path (env : Env) (widgetFile : Blob)
  : Exn + string :=
  match unzip env widgetFile with
  | inl e => inl e
  | inr None => inl (TypeError "Cannot read property 'async' of null")
  | inr (Some (inl e)) => inl e
  | inr (Some (inr JsonNull)) =>
      inl (TypeError "Cannot read property 'contextPath' of null")
  | inr (Some (inr (JsonValue None))) => inl (Error "Widget has no context path")
  | inr (Some (inr (JsonValue (Some cp)))) => inr cp
  end.

(** The runtime context of an application, as the installer sees it. *)
Definition context_in (app : IApplication) (p : Page)
  : option IAppRuntimeContext :=
  find_runtime_context app (take 2000 (managedObjects p)).

(** The runtime contexts after the widget has been listed. *)
Definition listed (env : Env) (app : IApplication) (cp : string) (p : Page)
  : list IAppRuntimeContext :=
  match context_in app p with
  | Some rc =>
      update_paths (rc_id rc) (with_widget (Some rc) cp) <$> managedObjects p
  | None =>
      managedObjects p
      ++ [ {| rc_id := createdId env; appId := Some (app_id app);
              widgetContextPaths := Some (with_widget None cp) |} ]
  end.

(** The calls of step 2. *)
Definition deployment_calls (env : Env) (appList : list IApplication)
    (widgetFile : Blob) (cp : string) : list Call :=
  if is_known_app appList cp then [CallOnUpdate already_deployed_text]
  else
    match created env cp with
    | inl _ => [CallApplicationCreate cp]
    | inr widgetApp =>
        CallApplicationCreate cp
        :: CallBinaryUpload widgetApp widgetFile
        :: match uploaded env widgetApp widgetFile with
           | inl _ => []
           | inr appBinary =>
               CallApplicationUpdate widgetApp appBinary
               :: match applicationUpdateError env with
                  | Some _ => []
                  | None => [CallOnUpdate deployed_text]
                  end
           end
    end.

(** The error that stops step 2, if any. *)
Definition deployment_error (env : Env) (appList : list IApplication)
    (widgetFile : Blob) (cp : string) : option Exn :=
  if is_known_app appList cp then None
  else
    match created env cp with
    | inl e => Some e
    | inr widgetApp =>
        match uploaded env widgetApp widgetFile with
        | inl e => Some e
        | inr _ => applicationUpdateError env
        end
    end.

(** The inventory call that writes the new path list. *)
Definition context_write (app : IApplication) (cp : string) (p : Page) : Call :=
  match context_in app p with
  | Some rc => CallInventoryUpdate (rc_id rc) (with_widget (Some rc) cp)
  | None => CallInventoryCreate (app_id app) (with_widget None cp)
  end.

(** The page once [upload] has accepted the selection: [busy] is set and
    the 'Uploading widget...' alert is shown. *)
Definition started (p : Page) : Page :=
  add_calls [CallAlertAdd uploading]
    (set_currentAlert uploading (set_busy true p)).

(** The page once [upload] has announced success and started the timer:
    the application query of [installWidget] has been made, the 'Uploading
    widget...' alert is removed and 'Widget Added! Refreshing...' is
    shown. *)
Definition announced (p : Page) : Page :=
  add_calls [CallAlertRemove uploading;
             CallAlertSuccess "Widget Added! Refreshing...";
             CallSetTimeout 5000]
    (add_calls [CallApplicationList] (started p)).

(** The selected file passes the check of its name. *)
Definition name_accepted (file : File) : bool :=
  negb (negb (String.eqb (file_name file) blank)
        && contains_space (file_name file)).

(** ** Sample surroundings *)

Definition fresh_page : Page :=
  {| managedObjects := []; calls := []; busy := false;
     currentAlert := {| alert_text := blank; alert_type := blank |} |}.

(** A deployed cockpit on a tenant; widget file 1 is a widget with context
    path [w], file 2 is no zip archive. *)
Definition tenant : Env :=
  {| isDevMode := false;
     location_host := "tenant.example.com";
     location_pathname := "/apps/cockpit/index.html";
     applications := inr [Sample.cockpit None];
     unzip := fun file =>
       match file with
       | 1 => inr (Some (inr (JsonValue (Some "w"))))
       | _ => inl (Error "Corrupted zip")
       end;
     created := fun cp => inr "77";
     uploaded := fun app file => inr "9001";
     applicationUpdateError := None;
     inventoryListError := None;
     inventoryUpdateError := None;
     inventoryCreateError := None;
     createdId := "rc" |}.

(** The same application served by the development server. *)
Definition dev_server : Env :=
  {| isDevMode := false;
     location_host := "localhost:9000";
     location_pathname := location_pathname tenant;
     applications := applications tenant;
     unzip := unzip tenant;
     created := created tenant;
     uploaded := uploaded tenant;
     applicationUpdateError := None;
     inventoryListError := None;
     inventoryUpdateError := None;
     inventoryCreateError := None;
     createdId := "rc" |}.

(** A tenant on which the user may not create applications. *)
Definition read_only_tenant : Env :=
  {| isDevMode := false;
     location_host := "tenant.example.com";
     location_pathname := "/apps/cockpit/index.html";
     applications := inr [Sample.cockpit None];
     unzip := unzip tenant;
     created := fun cp => inl (Error "403");
     uploaded := uploaded tenant;
     applicationUpdateError := None;
     inventoryListError := None;
     inventoryUpdateError := None;
     inventoryCreateError := None;
     createdId := "rc" |}.

End Installer.

(** * Properties *)

Ltac unfold_monad :=
  repeat progress
    (unfold mbind, mret, M_bind, M_ret, try_catch, lift_sum, throw, never,
       get_world, modify, emit, console_error, alert_danger,
       set_trace, set_isLoaded, set_widgetFactories, set_runtimeLoaded,
       set_hostRegistry, set_inventory, set_instances;
     simpl).

(** ** JavaScript array helpers *)

Section js_facts.

Lemma set_insert_all_elem (seen l : list string) (x : string) :
  x ∈ Js.set_insert_all seen l ↔ x ∈ l ∧ x ∉ seen.
Proof.
  revert seen. induction l as [|y l IH]; intros seen; simpl.
  - split; [intros H; inversion H | intros [H _]; inversion H].
  - case_bool_decide as Hy.
    + rewrite IH, elem_of_cons. split.
      * intros [Hx Hn]. split; [by right | done].
      * intros [[->|Hx] Hn]; [done | done].
    + rewrite !elem_of_cons, IH, elem_of_cons. split.
      * intros [->|[Hx Hn]]; [by split; [left|] |].
        split; [by right |]. intros Hs. apply Hn. by right.
      * intros [[->|Hx] Hn]; [by left|].
        destruct (decide (x = y)) as [->|Hne]; [by left|].
        right. split; [done|]. intros [?|?]; done.
Qed.

Lemma set_insert_all_NoDup (seen l : list string) :
  NoDup (Js.set_insert_all seen l).
Proof.
  revert seen. induction l as [|y l IH]; intros seen; simpl.
  - constructor.
  - case_bool_decide as Hy; [apply IH|].
    constructor; [|apply IH].
    rewrite set_insert_all_elem. intros [_ Hn]. apply Hn. by left.
Qed.

Lemma array_from_set_elem (l : list string) (x : string) :
  x ∈ Js.array_from_set l ↔ x ∈ l.
Proof.
  unfold Js.array_from_set. rewrite set_insert_all_elem.
  split; [by intros [? _]|]. intros H; split; [done|]. by intros ?%elem_of_nil.
Qed.

Lemma array_from_set_NoDup (l : list string) : NoDup (Js.array_from_set l).
Proof. apply set_insert_all_NoDup. Qed.

Lemma eqb_decide (a b : string) : String.eqb a b = bool_decide (a = b).
Proof.
  destruct (String.eqb_spec a b) as [->|Hne].
  - by rewrite bool_decide_eq_true_2.
  - by rewrite bool_decide_eq_false_2.
Qed.

(** [indexOf] answers [-1] exactly on absent values. *)
Lemma indexOf_range (x : string) (l : list string) :
  (-1 ≤ Js.indexOf x l < Z.of_nat (length l))%Z.
Proof.
  induction l as [|y l IH]; simpl; [lia|].
  destruct (String.eqb y x); [lia|].
  destruct (Z.ltb_spec (Js.indexOf x l) 0); lia.
Qed.

Lemma indexOf_absent (x : string) (l : list string) :
  (Js.indexOf x l < 0)%Z ↔ x ∉ l.
Proof.
  induction l as [|y l IH]; simpl.
  - split; [intros _ ?%elem_of_nil; done | lia].
  - rewrite eqb_decide. case_bool_decide as Hy.
    + subst. split; [lia|]. intros H. exfalso. apply H. by left.
    + rewrite not_elem_of_cons. pose proof (indexOf_range x l).
      destruct (Z.ltb_spec (Js.indexOf x l) 0).
      * split; [|lia]. intros _. split; [congruence|]. by apply IH.
      * split; [lia|]. intros [_ Hn]. apply IH in Hn. lia.
Qed.

Lemma occurrences_cons (x y : string) (l : list string) :
  occurrences x (y :: l) = (if bool_decide (y = x) then 1 else 0) + occurrences x l.
Proof.
  unfold occurrences. rewrite filter_cons.
  case_bool_decide; case_decide; done.
Qed.

Lemma occurrences_zero (x : string) (l : list string) :
  occurrences x l = 0 ↔ x ∉ l.
Proof.
  induction l as [|y l IH].
  - split; [intros _ ?%elem_of_nil; done | done].
  - rewrite occurrences_cons, not_elem_of_cons. case_bool_decide; split.
    + lia.
    + intros [? _]; congruence.
    + intros Hz; split; [congruence|]. apply IH. lia.
    + intros [_ Hz]. apply IH in Hz. lia.
Qed.

Lemma splice_indexOf_occurrences (x y : string) (l : list string) :
  (0 ≤ Js.indexOf x l)%Z →
  occurrences y (Js.splice1 (Js.indexOf x l) l)
  = occurrences y l - (if bool_decide (x = y) then 1 else 0).
Proof.
  unfold Js.splice1.
  induction l as [|z l IH]; simpl; [lia|].
  destruct (String.eqb_spec z x) as [->|Hz].
  - intros _. simpl. rewrite drop_0, occurrences_cons. lia.
  - pose proof (indexOf_range x l).
    destruct (Z.ltb_spec (Js.indexOf x l) 0); [lia|]. intros _.
    replace (Z.to_nat (Js.indexOf x l + 1)) with (S (Z.to_nat (Js.indexOf x l))) by lia.
    simpl. rewrite !occurrences_cons, IH by lia.
    case_bool_decide as Hzy; [|lia].
    case_bool_decide as Hxy; [congruence|lia].
Qed.

End js_facts.

Section loadWidget_facts.
Context (env : Env).

Lemma loadWidget_registered ngModule widget entry w :
  build_factories env ngModule widget = inr entry →
  loadWidget env ngModule widget w = (Ok (), registered env ngModule widget entry w).
Proof.
  intros Hb. unfold loadWidget, mark_runtime_loaded, widgetFactories_set,
    dynamicComponentService_add. unfold_monad. rewrite Hb. unfold_monad.
  unfold registered. by rewrite <- !app_assoc.
Qed.

Lemma loadWidget_rejected ngModule widget ex w :
  build_factories env ngModule widget = inl ex →
  loadWidget env ngModule widget w = (Ok (), rejected ngModule widget ex w).
Proof.
  intros Hb. unfold loadWidget, mark_runtime_loaded. unfold_monad.
  rewrite Hb. unfold_monad. unfold rejected. by rewrite <- !app_assoc.
Qed.

Lemma loadWidget_returns ngModule widget w :
  (loadWidget env ngModule widget w).1 = Ok ().
Proof.
  destruct (build_factories env ngModule widget) as [ex|entry] eqn:Hb.
  - by rewrite (loadWidget_rejected _ _ _ _ Hb).
  - by rewrite (loadWidget_registered _ _ _ _ Hb).
Qed.

End loadWidget_facts.

Lemma entries_under_lookup {V} (k : string) (v : V) (m : gmap string V) :
  m !! k = Some v → entries_under k m = [(k, v)].
Proof.
  intros Hk. unfold entries_under.
  apply Permutation_singleton_r.
  rewrite <- (insert_delete_id m k v Hk) at 1.
  rewrite map_to_list_insert by apply lookup_delete_eq.
  rewrite filter_cons_True by done.
  apply Permutation_skip.
  destruct (filter _ (map_to_list (delete k m))) as [|[k' v'] l] eqn:Hf; [done|].
  assert (Hin : (k', v') ∈ filter (λ kv : string * V, kv.1 = k)
                              (map_to_list (delete k m)))
    by (rewrite Hf; left).
  apply list_elem_of_filter in Hin as [Heq Hin]. simpl in Heq. subst k'.
  apply elem_of_map_to_list in Hin. by rewrite lookup_delete_eq in Hin.
Qed.

(** ** Registration keeps what is there *)

Section registry_facts.
Context (env : Env).

Lemma grows_refl w : grows w w.
Proof. by split. Qed.

Lemma grows_trans w1 w2 w3 : grows w1 w2 → grows w2 w3 → grows w1 w3.
Proof.
  intros [] []. split; auto. congruence.
Qed.

Lemma loadWidget_grows ngModule widget w :
  grows w (loadWidget env ngModule widget w).2.
Proof.
  destruct (build_factories env ngModule widget) as [ex|entry] eqn:Hb.
  - rewrite (loadWidget_rejected _ _ _ _ _ Hb). split; simpl; auto.
    intros r Hr. apply elem_of_union. by right.
  - rewrite (loadWidget_registered _ _ _ _ _ Hb). split; simpl; auto.
    + intros r Hr. apply elem_of_app. by left.
    + intros k Hk. rewrite lookup_insert. by case_decide.
    + intros r Hr. apply elem_of_union. by right.
Qed.

Lemma loadWidget_each_cons ngModule widget rest w :
  loadWidget_each env ngModule (widget :: rest) w
  = loadWidget_each env ngModule rest (loadWidget env ngModule widget w).2.
Proof.
  simpl. unfold mbind, M_bind.
  pose proof (loadWidget_returns env ngModule widget w) as Hr.
  destruct (loadWidget env ngModule widget w) as [r w']. simpl in *.
  by rewrite Hr.
Qed.

Lemma loadWidget_each_returns ngModule ws w :
  (loadWidget_each env ngModule ws w).1 = Ok ().
Proof.
  revert w. induction ws as [|r ws IH]; intros w; [done|].
  rewrite loadWidget_each_cons. apply IH.
Qed.

Lemma loadWidget_each_grows ngModule ws w :
  grows w (loadWidget_each env ngModule ws w).2.
Proof.
  revert w. induction ws as [|r ws IH]; intros w; [apply grows_refl|].
  rewrite loadWidget_each_cons.
  eapply grows_trans; [apply loadWidget_grows | apply IH].
Qed.

(** Whatever happens to its neighbours, a definition whose factories can be
    built ends up in the registry and in the table. *)
Lemma loadWidget_each_registers ngModule ws w r entry :
  r ∈ ws →
  build_factories env ngModule r = inr entry →
  let w' := (loadWidget_each env ngModule ws w).2 in
  r ∈ hostRegistry w' ∧ is_Some (widgetFactories w' !! widget_id (defn env r)).
Proof.
  intros Hin Hb. revert w. induction ws as [|x ws IH]; intros w.
  - by apply elem_of_nil in Hin.
  - rewrite loadWidget_each_cons.
    apply elem_of_cons in Hin as [->|Hin]; [|by apply IH].
    rewrite (loadWidget_registered _ _ _ _ _ Hb). simpl.
    destruct (loadWidget_each_grows ngModule ws (registered env ngModule x entry w))
      as [Hreg Htab _ _].
    split.
    + apply Hreg. simpl. apply elem_of_app. right. by left.
    + apply Htab. simpl. rewrite lookup_insert_eq. by eexists.
Qed.

Lemma loadWidget_consistent ngModule widget w :
  registry_consistent env w →
  (widget ∈ hostRegistry w → widget ∈ runtimeLoaded w) →
  registry_consistent env (loadWidget env ngModule widget w).2.
Proof.
  intros Hinv Hfresh.
  destruct (build_factories env ngModule widget) as [ex|entry] eqn:Hb.
  - rewrite (loadWidget_rejected _ _ _ _ _ Hb). intros r. simpl.
    intros Hr [Hs|Hf]%elem_of_union; [|by auto].
    apply elem_of_singleton in Hs as ->. auto.
  - rewrite (loadWidget_registered _ _ _ _ _ Hb). intros r. simpl.
    intros [Hr|Hs]%elem_of_app Hf.
    + rewrite lookup_insert. case_decide; [by eexists|].
      apply elem_of_union in Hf as [Hs|Hf]; [|by auto].
      apply elem_of_singleton in Hs as ->. auto.
    + apply list_elem_of_singleton in Hs as ->.
      rewrite lookup_insert_eq. by eexists.
Qed.

End registry_facts.

(** ** The import loop *)

Lemma add_events_nil w : add_events [] w = w.
Proof. destruct w. unfold add_events, set_trace. simpl. by rewrite app_nil_r. Qed.

Lemma add_events_app evs1 evs2 w :
  add_events evs2 (add_events evs1 w) = add_events (evs1 ++ evs2) w.
Proof. unfold add_events, set_trace. simpl. by rewrite app_assoc. Qed.

Section import_facts.
Context (env : Env) (appList : list IApplication) (total : nat).

Lemma import_one_run cp st w :
  import_one env appList total cp st w
  = (Ok (import_state env appList cp st),
     add_events (import_events env appList total cp (widgetCounter st)) w).
Proof.
  unfold import_one, import_state, import_events.
  destruct (is_loadable cp); [|by rewrite add_events_nil].
  unfold add_events. unfold_monad.
  destruct (corsImport env cp) as [e|].
  - destruct (is_known_app appList cp); unfold_monad;
      by rewrite <- ?app_assoc.
  - destruct (interleaved env cp) as [e|jsModule]; unfold_monad;
      by rewrite <- ?app_assoc.
Qed.

Lemma import_loop_run cps st w :
  import_loop env appList total cps st w
  = (Ok (import_loop_state env appList cps st),
     add_events (import_loop_events env appList total cps st) w).
Proof.
  revert st w. induction cps as [|cp rest IH]; intros st w; simpl.
  - by rewrite add_events_nil.
  - unfold mbind, M_bind. rewrite import_one_run, IH.
    by rewrite add_events_app.
Qed.

Lemma import_state_cleanup cp st :
  cleanupWidgetContextPath (import_state env appList cp st)
  = cleanupWidgetContextPath st ++ (if is_stale env appList cp then [cp] else []).
Proof.
  unfold import_state, is_stale.
  destruct (is_loadable cp); simpl; [|by rewrite app_nil_r].
  destruct (corsImport env cp) as [e|]; simpl.
  - destruct (is_known_app appList cp); simpl; by rewrite ?app_nil_r.
  - by rewrite app_nil_r.
Qed.

Lemma import_loop_cleanup cps st :
  cleanupWidgetContextPath (import_loop_state env appList cps st)
  = cleanupWidgetContextPath st ++ filter (λ cp, is_stale env appList cp = true) cps.
Proof.
  unfold import_loop_state.
  revert st. induction cps as [|cp rest IH]; intros st; simpl.
  - by rewrite app_nil_r.
  - rewrite IH, import_state_cleanup, filter_cons, <- app_assoc.
    destruct (is_stale env appList cp); case_decide; try done.
Qed.

Lemma import_state_jsModules cp st :
  jsModules (import_state env appList cp st)
  = jsModules st ++ option_list (imported_module env cp).
Proof.
  unfold import_state, imported_module.
  destruct (is_loadable cp); simpl; [|by rewrite app_nil_r].
  destruct (corsImport env cp) as [e|]; simpl; [by rewrite app_nil_r|].
  destruct (interleaved env cp); simpl; by rewrite ?app_nil_r.
Qed.

Lemma import_loop_jsModules cps st :
  jsModules (import_loop_state env appList cps st)
  = jsModules st ++ omap (imported_module env) cps.
Proof.
  unfold import_loop_state.
  revert st. induction cps as [|cp rest IH]; intros st; simpl.
  - by rewrite app_nil_r.
  - rewrite IH, import_state_jsModules, <- app_assoc. f_equal.
    by destruct (imported_module env cp).
Qed.

End import_facts.

(** ** The activation loop *)

Section activate_facts.

Lemma activate_one_run cp key exportedObj ngModules w :
  activate_one cp key exportedObj ngModules w
  = (if is_nullish exportedObj then Threw nullish_error
     else Ok (ngModules ++ activated exportedObj),
     add_events (activation_events cp key exportedObj) w).
Proof.
  destruct exportedObj as [| |annotations activation]; simpl.
  - unfold throw. by rewrite add_events_nil.
  - unfold_monad. by rewrite add_events_nil, app_nil_r.
  - destruct (has_NgModule_annotation annotations).
    + destruct activation as [e|ngModule]; unfold add_events; unfold_monad;
        by rewrite <- ?app_assoc, ?app_nil_r.
    + destruct activation; unfold_monad; by rewrite add_events_nil, app_nil_r.
Qed.

Lemma activate_exports_run cp jsModule ngModules w :
  activate_exports cp jsModule ngModules w
  = (scan_result (exports_of cp jsModule) ngModules,
     add_events (scan_events (exports_of cp jsModule)) w).
Proof.
  revert ngModules w.
  induction jsModule as [|[key exportedObj] rest IH]; intros ngModules w.
  - simpl. unfold scan_result, scan_events. simpl.
    by rewrite add_events_nil, app_nil_r.
  - simpl. unfold mbind at 1, M_bind. rewrite activate_one_run.
    unfold scan_result, scan_events, scan_throws, scan_modules in *. simpl.
    destruct (is_nullish exportedObj) eqn:Hn.
    + simpl. f_equal. destruct exportedObj; done.
    + rewrite IH. simpl. rewrite add_events_app. f_equal.
      destruct (existsb _ _); [done|]. by rewrite <- app_assoc.
Qed.

Lemma scan_throws_app l1 l2 :
  scan_throws (l1 ++ l2) = scan_throws l1 || scan_throws l2.
Proof. apply existsb_app. Qed.

Lemma visited_app l1 l2 :
  visited (l1 ++ l2)
  = if scan_throws l1 then visited l1 else l1 ++ visited l2.
Proof.
  induction l1 as [|x l1 IH]; simpl; [done|].
  change (scan_throws (x :: l1)) with (is_nullish x.2 || scan_throws l1).
  destruct (is_nullish x.2); simpl; [done|].
  rewrite IH. by destruct (scan_throws l1).
Qed.

Lemma visited_id l : scan_throws l = false → visited l = l.
Proof.
  induction l as [|x l IH]; simpl; [done|].
  change (scan_throws (x :: l)) with (is_nullish x.2 || scan_throws l).
  destruct (is_nullish x.2); simpl; [done|]. intros H. by rewrite IH.
Qed.

Lemma activate_loop_run jsModules ngModules w :
  activate_loop jsModules ngModules w
  = (scan_result (all_exports jsModules) ngModules,
     add_events (scan_events (all_exports jsModules)) w).
Proof.
  revert ngModules w.
  induction jsModules as [|[cp jsModule] rest IH]; intros ngModules w.
  - simpl. unfold scan_result, scan_events. simpl.
    by rewrite add_events_nil, app_nil_r.
  - simpl. unfold mbind at 1, M_bind. rewrite activate_exports_run.
    unfold all_exports. simpl. fold (all_exports rest).
    unfold scan_result, scan_events, scan_modules in *.
    rewrite scan_throws_app, visited_app.
    destruct (scan_throws (exports_of cp jsModule)) eqn:Ht; simpl; [done|].
    rewrite IH, add_events_app, visited_id by done.
    rewrite !bind_app. f_equal.
    destruct (scan_throws (all_exports rest)); [done|].
    by rewrite <- app_assoc.
Qed.

End activate_facts.

(** ** The registration loop *)

Section register_facts.
Context (env : Env).

Lemma register_all_app defs1 defs2 w :
  register_all env (defs1 ++ defs2) w = register_all env defs2 (register_all env defs1 w).
Proof. apply fold_left_app. Qed.

Lemma loadWidget_each_run ngModule ws w :
  loadWidget_each env ngModule ws w
  = (Ok (), register_all env ((λ r, (ngModule, r)) <$> ws) w).
Proof.
  revert w. induction ws as [|r ws IH]; intros w; [done|].
  rewrite loadWidget_each_cons, IH. done.
Qed.

Lemma register_entry_run ngModule widget w :
  register_entry env ngModule widget w
  = (Ok (), register_all env ((λ r, (ngModule, r)) <$> entry_refs widget) w).
Proof.
  destruct widget as [r|ws]; simpl.
  - pose proof (loadWidget_returns env ngModule r w) as Hr.
    destruct (loadWidget env ngModule r w) as [res w']. simpl in *. by subst.
  - apply loadWidget_each_run.
Qed.

Lemma register_entries_run ngModule widgets w :
  register_entries env ngModule widgets w
  = (Ok (), register_all env
              (widgets ≫= (λ widget, (λ r, (ngModule, r)) <$> entry_refs widget))
              w).
Proof.
  revert w. induction widgets as [|widget rest IH]; intros w; [done|].
  simpl. unfold mbind at 1, M_bind. rewrite register_entry_run, IH.
  by rewrite register_all_app.
Qed.

Lemma register_loop_run ngModules w :
  register_loop env ngModules w = (Ok (), register_all env (collected env ngModules) w).
Proof.
  revert w. induction ngModules as [|m rest IH]; intros w; [done|].
  simpl. unfold mbind at 1, M_bind. rewrite register_entries_run, IH.
  unfold collected. simpl. by rewrite register_all_app.
Qed.

Lemma loadWidget_trace ngModule widget w :
  trace (loadWidget env ngModule widget w).2
  = trace w ++ loadWidget_events env (ngModule, widget).
Proof.
  unfold loadWidget_events. simpl.
  destruct (build_factories env ngModule widget) as [ex|entry] eqn:Hb.
  - by rewrite (loadWidget_rejected _ _ _ _ _ Hb).
  - by rewrite (loadWidget_registered _ _ _ _ _ Hb).
Qed.

Lemma loadWidget_inventory ngModule widget w :
  inventory (loadWidget env ngModule widget w).2 = inventory w
  ∧ instances (loadWidget env ngModule widget w).2 = instances w.
Proof.
  destruct (build_factories env ngModule widget) as [ex|entry] eqn:Hb.
  - by rewrite (loadWidget_rejected _ _ _ _ _ Hb).
  - by rewrite (loadWidget_registered _ _ _ _ _ Hb).
Qed.

Lemma register_all_trace defs w :
  trace (register_all env defs w) = trace w ++ (defs ≫= loadWidget_events env).
Proof.
  revert w. induction defs as [|[m r] defs IH]; intros w.
  - simpl. by rewrite app_nil_r.
  - simpl. rewrite IH, loadWidget_trace. by rewrite <- app_assoc.
Qed.

Lemma register_all_grows defs w : grows w (register_all env defs w).
Proof.
  revert w. induction defs as [|[m r] defs IH]; intros w; [apply grows_refl|].
  simpl. eapply grows_trans; [apply loadWidget_grows | apply IH].
Qed.

Lemma register_all_inventory defs w :
  inventory (register_all env defs w) = inventory w
  ∧ instances (register_all env defs w) = instances w.
Proof.
  revert w. induction defs as [|[m r] defs IH]; intros w; [done|].
  simpl. destruct (IH (loadWidget env m r w).2) as [-> ->].
  apply loadWidget_inventory.
Qed.

End register_facts.

(** ** The load signal and the clean-up *)

Section signal_facts.
Context (env : Env).

Lemma isLoaded_next_true_run w :
  isLoaded_next env true w = (Ok (), signal_loaded env w).
Proof. done. Qed.

Lemma isLoaded_next_false_run w :
  isLoaded_next env false w
  = (Ok (), set_isLoaded false (add_events [EvIsLoadedNext false] w)).
Proof. done. Qed.

Lemma inventory_update_run id paths w :
  inventory_update env id paths w
  = match inventoryUpdateError env with
    | Some e => (Threw e, add_events [EvInventoryUpdate id paths] w)
    | None => (Ok (), updated id paths w)
    end.
Proof.
  unfold inventory_update. unfold_monad.
  by destruct (inventoryUpdateError env).
Qed.

Lemma cleanup_paths_none cleanup : cleanup_paths None cleanup = (None, false).
Proof.
  unfold cleanup_paths. simpl. induction cleanup as [|cp rest IH]; [done|].
  simpl. apply IH.
Qed.

Lemma cleanup_paths_unset rc cleanup :
  widgetContextPaths rc = None →
  cleanup_paths (Some rc) cleanup = (None, false).
Proof.
  intros Hn. unfold cleanup_paths. simpl. rewrite Hn.
  induction cleanup as [|cp rest IH]; [done|]. simpl. apply IH.
Qed.

End signal_facts.

(** ** One batch, end to end *)

Section batch_facts.
Context (env : Env) (appList : list IApplication)
        (AppRuntimePath : option IAppRuntimeContext) (contextPaths : list string).

Lemma load_batch_run w :
  load_batch env appList AppRuntimePath contextPaths w
  = if scan_throws (batch_exports env appList contextPaths) then
      (Threw nullish_error, add_events (scan_trace env appList contextPaths) w)
    else if (0 <? length (hostRegistry w))%nat then
      auto_clean env AppRuntimePath
        (cleanupWidgetContextPath (batch_state env appList contextPaths))
        (loaded_world env appList contextPaths w)
    else (Pending, add_events (scan_trace env appList contextPaths) w).
Proof.
  unfold load_batch. unfold mbind at 1, M_bind. rewrite import_loop_run.
  fold (batch_state env appList contextPaths).
  fold (import_trace env appList contextPaths).
  unfold mbind at 1, M_bind. unfold emit at 1, modify.
  fold (add_events [EvProgress MsgStillWorking]
          (add_events (import_trace env appList contextPaths) w)).
  unfold mbind at 1, M_bind. rewrite activate_loop_run.
  fold (batch_exports env appList contextPaths). rewrite !add_events_app.
  fold (scan_trace env appList contextPaths).
  unfold scan_result. destruct (scan_throws (batch_exports env appList contextPaths)); [done|].
  simpl. fold (batch_modules env appList contextPaths).
  unfold mbind at 1, M_bind. unfold await_host_registry.
  unfold mbind at 1, M_bind. unfold get_world.
  change (hostRegistry (add_events (scan_trace env appList contextPaths) w)) with (hostRegistry w).
  destruct (0 <? length (hostRegistry w))%nat; [|done].
  unfold emit at 1, modify.
  unfold mbind at 1, M_bind. unfold emit at 1, modify.
  unfold mbind at 1, M_bind. rewrite register_loop_run.
  unfold mbind at 1, M_bind. unfold emit at 1, modify.
  unfold mbind at 1, M_bind. rewrite isLoaded_next_true_run.
  unfold loaded_world, batch_definitions.
  fold (add_events [EvHostRegistryReady] (add_events (scan_trace env appList contextPaths) w)).
  fold (add_events [EvProgress MsgAlmostReady]
          (add_events [EvHostRegistryReady] (add_events (scan_trace env appList contextPaths) w))).
  rewrite (add_events_app [EvHostRegistryReady]). simpl.
  done.
Qed.

End batch_facts.

(** ** Resolving the current application *)

Section resolve_facts.
Context (env : Env).

Lemma is_own_app_run cp app w :
  contextPathFromURL (pathname env) = Some cp →
  is_own_app env app w = (Ok (own_app cp app), w).
Proof.
  intros Hcp. unfold is_own_app, contextPathFromURL_call. by rewrite Hcp.
Qed.

Lemma is_current_app_run cp app w :
  contextPathFromURL (pathname env) = Some cp →
  is_current_app env app w = (Ok (current_app cp app), w).
Proof.
  intros Hcp. unfold is_current_app, contextPathFromURL_call. by rewrite Hcp.
Qed.

Lemma find_m_own cp appList w :
  contextPathFromURL (pathname env) = Some cp →
  find_m (is_own_app env) appList w = (Ok (find (own_app cp) appList), w).
Proof.
  intros Hcp. induction appList as [|app rest IH]; [done|].
  simpl. unfold mbind, M_bind. rewrite (is_own_app_run cp) by done.
  destruct (own_app cp app); [done|]. apply IH.
Qed.

Lemma find_m_current cp appList w :
  contextPathFromURL (pathname env) = Some cp →
  find_m (is_current_app env) appList w = (Ok (find (current_app cp) appList), w).
Proof.
  intros Hcp. induction appList as [|app rest IH]; [done|].
  simpl. unfold mbind, M_bind. rewrite (is_current_app_run cp) by done.
  destruct (current_app cp app); [done|]. apply IH.
Qed.

Lemma find_current_app_run appList w :
  find_current_app env appList w
  = (match appList with
     | [] => Threw not_found
     | _ :: _ =>
         match contextPathFromURL (pathname env) with
         | None => Threw url_error
         | Some cp =>
             match resolve_app cp appList with
             | Some app => Ok app
             | None => Threw not_found
             end
         end
     end, w).
Proof.
  destruct appList as [|app0 rest]; [done|].
  destruct (contextPathFromURL (pathname env)) as [cp|] eqn:Hcp.
  - unfold find_current_app, resolve_app. unfold mbind at 1, M_bind.
    rewrite (find_m_own cp) by done.
    destruct (find (own_app cp) (app0 :: rest)); [done|].
    unfold mbind at 1, M_bind. rewrite (find_m_current cp) by done.
    by destruct (find (current_app cp) (app0 :: rest)).
  - unfold find_current_app. simpl.
    unfold is_own_app, contextPathFromURL_call. rewrite Hcp. done.
Qed.

Lemma loadRuntimeWidgets_resolved user appList cp app w :
  resolved env user appList cp app →
  loadRuntimeWidgets env w
  = load_batch env appList (context_of app w)
      (resolve_contextPaths app (context_of app w))
      (add_events (preamble user) w).
Proof.
  intros [Hu Ha Hcp Happ Hl]. unfold loadRuntimeWidgets.
  rewrite Hu. unfold_monad. rewrite Ha. unfold_monad.
  rewrite find_current_app_run, Hcp, Happ.
  destruct appList as [|app0 rest]; [done|].
  unfold inventory_list. unfold_monad. rewrite Hl. unfold_monad.
  unfold context_of, add_events, preamble, set_trace. simpl.
  by rewrite <- !app_assoc.
Qed.

(** A run either reaches the batch or stops in the preamble. *)
Lemma loadRuntimeWidgets_cases w :
  (∃ user appList cp app, resolved env user appList cp app)
  ∨ (∃ r evs, loadRuntimeWidgets env w = (r, add_events evs w)
              ∧ r ≠ Ok () ∧ Forall is_preamble_event evs).
Proof.
  unfold loadRuntimeWidgets.
  destruct (currentUser env) as [user|] eqn:Hu.
  2:{ right. exists Pending, []. rewrite add_events_nil. by repeat split. }
  destruct (applicationsByUser env user) as [e|appList] eqn:Ha.
  { right. exists (Threw e), [EvProgress MsgLoading; EvFetchApplications user].
    unfold_monad. rewrite Ha. unfold add_events, set_trace. simpl.
    rewrite <- app_assoc. split; [done|]. split; [done|].
    repeat constructor. }
  assert (Hstop : ∀ ex,
    (find_current_app env appList
       (add_events [EvProgress MsgLoading; EvFetchApplications user] w)).1
      = Threw ex →
    ∃ r evs,
      (await_first (Some user) ≫= λ user0,
         emit (EvProgress MsgLoading);; emit (EvFetchApplications user0);;
         lift_sum (applicationsByUser env user0) ≫= λ appList0,
           find_current_app env appList0 ≫= λ app,
             inventory_list env ≫= λ AppRuntimePathList,
               load_batch env appList0
                 (find_runtime_context app AppRuntimePathList)
                 (resolve_contextPaths app
                    (find_runtime_context app AppRuntimePathList))) w
      = (r, add_events evs w) ∧ r ≠ Ok () ∧ Forall is_preamble_event evs).
  { intros ex Hex. exists (Threw ex), [EvProgress MsgLoading; EvFetchApplications user].
    unfold_monad. rewrite Ha. unfold_monad.
    rewrite find_current_app_run in *. simpl in Hex. rewrite Hex.
    unfold add_events, set_trace. simpl. rewrite <- app_assoc.
    split; [done|]. split; [done|]. repeat constructor. }
  pose proof (find_current_app_run appList
    (add_events [EvProgress MsgLoading; EvFetchApplications user] w)) as Hf.
  destruct appList as [|app0 rest].
  { right. apply (Hstop not_found). by rewrite Hf. }
  destruct (contextPathFromURL (pathname env)) as [cp|] eqn:Hcp.
  2:{ right. apply (Hstop url_error). by rewrite Hf. }
  destruct (resolve_app cp (app0 :: rest)) as [app|] eqn:Happ.
  2:{ right. apply (Hstop not_found). by rewrite Hf. }
  destruct (inventoryListError env) as [e|] eqn:Hl.
  { right. exists (Threw e), (preamble user).
    unfold_monad. rewrite Ha. unfold_monad. rewrite find_current_app_run, Hcp, Happ.
    unfold inventory_list. unfold_monad. rewrite Hl.
    unfold add_events, preamble, set_trace. simpl. rewrite <- !app_assoc.
    split; [done|]. split; [done|]. repeat constructor. }
  left. exists user, (app0 :: rest), cp, app. by split.
Qed.

End resolve_facts.

(** ** Kinds of calls made by each pass *)

Lemma kinds_in_app ks evs1 evs2 :
  kinds_in ks evs1 → kinds_in ks evs2 → kinds_in ks (evs1 ++ evs2).
Proof. apply Forall_app_2. Qed.

Lemma kinds_in_bind {A} ks (f : A → list Event) (l : list A) :
  (∀ x, x ∈ l → kinds_in ks (f x)) → kinds_in ks (l ≫= f).
Proof.
  induction l as [|x l IH]; intros Hf; [constructor|].
  simpl. apply kinds_in_app; [apply Hf; by left|].
  apply IH. intros y Hy. apply Hf. by right.
Qed.

Lemma kinds_in_weaken ks ks' evs :
  ks ⊆ ks' → kinds_in ks evs → kinds_in ks' evs.
Proof.
  intros Hs Hk. eapply Forall_impl; [exact Hk|]. intros e He. by apply Hs.
Qed.

Lemma of_kind_absent ks k evs :
  kinds_in ks evs → k ∉ ks → of_kind k evs = [].
Proof.
  intros Hk Hn. unfold of_kind. induction Hk as [|e evs He _ IH]; [done|].
  rewrite filter_cons_False; [done|]. intros <-. done.
Qed.

Lemma of_kind_app k evs1 evs2 :
  of_kind k (evs1 ++ evs2) = of_kind k evs1 ++ of_kind k evs2.
Proof. apply filter_app. Qed.

Ltac solve_elem := first [by left | right; solve_elem].

Ltac solve_kinds :=
  repeat (apply Forall_cons; split; [simpl; solve_elem|]); apply Forall_nil_2.

Ltac solve_incl :=
  let k := fresh "k" in
  let Hk := fresh "Hk" in
  intros k Hk;
  repeat (apply elem_of_cons in Hk as [->|Hk]; [solve_elem|]);
  by apply elem_of_nil in Hk.

Section kinds_facts.
Context (env : Env) (appList : list IApplication).

Lemma import_events_kinds total cp counter :
  kinds_in import_kinds (import_events env appList total cp counter).
Proof.
  unfold import_events, kinds_in, import_kinds.
  destruct (is_loadable cp); [|constructor].
  destruct (corsImport env cp) as [e|].
  - destruct (is_known_app appList cp); solve_kinds.
  - destruct (interleaved env cp); solve_kinds.
Qed.

Lemma import_loop_events_kinds total cps st :
  kinds_in import_kinds (import_loop_events env appList total cps st).
Proof.
  revert st. induction cps as [|cp rest IH]; intros st; [constructor|].
  simpl. apply kinds_in_app; [apply import_events_kinds | apply IH].
Qed.

Lemma activation_events_kinds cp key exportedObj :
  kinds_in activation_kinds (activation_events cp key exportedObj).
Proof.
  unfold kinds_in, activation_kinds.
  destruct exportedObj as [| |annotations activation]; simpl; try constructor.
  destruct (has_NgModule_annotation annotations); [|constructor].
  destruct activation; solve_kinds.
Qed.

Lemma scan_events_kinds exports :
  kinds_in activation_kinds (scan_events exports).
Proof.
  unfold scan_events. apply kinds_in_bind. intros x _.
  apply activation_events_kinds.
Qed.

Lemma loadWidget_events_kinds d :
  kinds_in registration_kinds (loadWidget_events env d).
Proof.
  unfold loadWidget_events, kinds_in, registration_kinds.
  destruct (build_factories env d.1 d.2); solve_kinds.
Qed.

Lemma registration_events_kinds defs :
  kinds_in registration_kinds (defs ≫= loadWidget_events env).
Proof. apply kinds_in_bind. intros d _. apply loadWidget_events_kinds. Qed.

Lemma scan_trace_kinds cps :
  kinds_in [KProgress; KManifest; KModule; KConsole; KDanger; KActivate]
    (scan_trace env appList cps).
Proof.
  unfold scan_trace, import_trace. repeat apply kinds_in_app.
  - eapply kinds_in_weaken; [|apply import_loop_events_kinds].
    unfold import_kinds. solve_incl.
  - solve_kinds.
  - eapply kinds_in_weaken; [|apply scan_events_kinds].
    unfold activation_kinds. solve_incl.
Qed.

End kinds_facts.

(** ** The world a completed registration leaves *)

Section loaded_facts.
Context (env : Env) (appList : list IApplication) (cps : list string).

Lemma loaded_world_trace w :
  trace (loaded_world env appList cps w)
  = trace w ++ scan_trace env appList cps
    ++ registration_trace env (batch_definitions env appList cps).
Proof.
  unfold loaded_world, signal_loaded, registration_trace. simpl.
  rewrite register_all_trace. simpl. by rewrite <- !app_assoc.
Qed.

Lemma loaded_world_isLoaded w :
  isLoaded (loaded_world env appList cps w) = true.
Proof. done. Qed.

Lemma loaded_world_inventory w :
  inventory (loaded_world env appList cps w) = inventory w.
Proof.
  unfold loaded_world, signal_loaded. simpl.
  by destruct (register_all_inventory env (batch_definitions env appList cps)
    (add_events [EvHostRegistryReady; EvProgress MsgAlmostReady]
       (add_events (scan_trace env appList cps) w))) as [-> _].
Qed.

Lemma loaded_world_grows w :
  (∀ r, r ∈ hostRegistry w → r ∈ hostRegistry (loaded_world env appList cps w))
  ∧ (∀ k, is_Some (widgetFactories w !! k) →
          is_Some (widgetFactories (loaded_world env appList cps w) !! k)).
Proof.
  unfold loaded_world, signal_loaded. simpl.
  destruct (register_all_grows env (batch_definitions env appList cps)
    (add_events [EvHostRegistryReady; EvProgress MsgAlmostReady]
       (add_events (scan_trace env appList cps) w))) as [Hr Ht _ _].
  split; [apply Hr | apply Ht].
Qed.

End loaded_facts.

(** ** The clean-up *)

Section cleanup_facts.

Lemma cleanup_fold_some paths changed cleanup :
  ∃ paths' changed',
    fold_left cleanup_step cleanup (Some paths, changed) = (Some paths', changed').
Proof.
  revert paths changed. induction cleanup as [|cp rest IH]; intros paths changed.
  - by eexists _, _.
  - simpl. unfold cleanup_step at 2. simpl.
    destruct (0 <=? Js.indexOf cp paths)%Z; apply IH.
Qed.

Lemma cleanup_fold_occurrences x paths changed cleanup paths' changed' :
  fold_left cleanup_step cleanup (Some paths, changed) = (Some paths', changed') →
  occurrences x paths' = occurrences x paths - occurrences x cleanup.
Proof.
  revert paths changed.
  induction cleanup as [|cp rest IH]; intros paths changed Hf.
  - simpl in Hf. simplify_eq. unfold occurrences at 3. simpl. lia.
  - simpl in Hf. unfold cleanup_step at 2 in Hf. simpl in Hf.
    rewrite occurrences_cons.
    destruct (Z.leb_spec 0 (Js.indexOf cp paths)) as [Hi|Hi].
    + apply IH in Hf. rewrite Hf, splice_indexOf_occurrences by done.
      lia.
    + apply IH in Hf. rewrite Hf.
      apply indexOf_absent in Hi. apply occurrences_zero in Hi.
      case_bool_decide; [subst; lia | lia].
Qed.

Lemma cleanup_fold_unchanged paths cleanup paths' :
  fold_left cleanup_step cleanup (Some paths, false) = (Some paths', false) →
  paths' = paths.
Proof.
  revert paths. induction cleanup as [|cp rest IH]; intros paths Hf.
  - simpl in Hf. by simplify_eq.
  - simpl in Hf. unfold cleanup_step at 2 in Hf. simpl in Hf.
    destruct (0 <=? Js.indexOf cp paths)%Z; [|by apply IH].
    exfalso. clear IH. revert Hf.
    generalize (Js.splice1 (Js.indexOf cp paths) paths). clear.
    induction rest as [|cp' rest IH]; intros l Hf; [simpl in Hf; by simplify_eq|].
    simpl in Hf. unfold cleanup_step at 2 in Hf. simpl in Hf.
    destruct (0 <=? Js.indexOf cp' l)%Z; by eapply IH.
Qed.

(** Each identifier of the clean-up list loses one occurrence; if nothing
    was removed the paths are as before. *)
Lemma cleaned_occurrences x paths cleanup :
  occurrences x (cleaned paths cleanup).1
  = occurrences x paths - occurrences x cleanup.
Proof.
  unfold cleaned.
  destruct (cleanup_fold_some paths false cleanup) as (paths' & changed' & Hf).
  rewrite Hf. simpl. by eapply cleanup_fold_occurrences.
Qed.

Lemma cleaned_unchanged paths cleanup :
  (cleaned paths cleanup).2 = false → (cleaned paths cleanup).1 = paths.
Proof.
  unfold cleaned.
  destruct (cleanup_fold_some paths false cleanup) as (paths' & changed' & Hf).
  rewrite Hf. simpl. intros ->. by eapply cleanup_fold_unchanged.
Qed.

Context (env : Env).

Lemma auto_clean_run rc cleanup w :
  auto_clean env rc cleanup w
  = match rc ≫= (λ r, pair r <$> widgetContextPaths r) with
    | Some (r, paths) =>
        if (cleaned paths cleanup).2
        then inventory_update env (rc_id r) (cleaned paths cleanup).1 w
        else (Ok (), w)
    | None => (Ok (), w)
    end.
Proof.
  unfold auto_clean. destruct rc as [r|]; simpl.
  2:{ by rewrite cleanup_paths_none. }
  destruct (widgetContextPaths r) as [paths|] eqn:Hp; simpl.
  2:{ by rewrite cleanup_paths_unset. }
  unfold cleanup_paths, cleaned. simpl. rewrite Hp.
  destruct (cleanup_fold_some paths false cleanup) as (paths' & changed' & Hf).
  rewrite Hf. simpl. by destruct changed'.
Qed.

Lemma auto_clean_some r paths cleanup w :
  widgetContextPaths r = Some paths →
  auto_clean env (Some r) cleanup w
  = if (cleaned paths cleanup).2
    then inventory_update env (rc_id r) (cleaned paths cleanup).1 w
    else (Ok (), w).
Proof. intros Hp. rewrite auto_clean_run. simpl. by rewrite Hp. Qed.

End cleanup_facts.

(** ** What a batch leaves behind *)

Section batch_outcome.
Context (env : Env) (appList : list IApplication)
        (rc : option IAppRuntimeContext) (cps : list string).

(** A batch either stops in the activation pass (a nullish export, or a
    host registry that stays empty) having made the calls of the first two
    passes only, or it goes through registration and signal and then makes
    at most one inventory update. *)
Lemma load_batch_trace w :
  let run := load_batch env appList rc cps w in
  (run.1 ≠ Ok () ∧ run.2 = add_events (scan_trace env appList cps) w)
  ∨ (∃ upd,
       trace run.2
       = trace w ++ scan_trace env appList cps
         ++ registration_trace env (batch_definitions env appList cps) ++ upd
       ∧ kinds_in [KUpdate] upd
       ∧ isLoaded run.2 = true
       ∧ scan_throws (batch_exports env appList cps) = false
       ∧ hostRegistry w ≠ []).
Proof.
  intros run. subst run. rewrite load_batch_run.
  destruct (scan_throws (batch_exports env appList cps)) eqn:Ht.
  { left. by split. }
  destruct (hostRegistry w) as [|r0 reg] eqn:Hreg; simpl.
  { left. by split. }
  right. rewrite auto_clean_run.
  assert (Hquiet : ∃ upd : list Event,
    trace (loaded_world env appList cps w)
    = trace w ++ scan_trace env appList cps
      ++ registration_trace env (batch_definitions env appList cps) ++ upd
    ∧ kinds_in [KUpdate] upd).
  { exists []. rewrite loaded_world_trace, app_nil_r.
    split; [done | constructor]. }
  destruct (rc ≫= _) as [[r paths]|].
  2:{ destruct Hquiet as (upd & Hq1 & Hq2). exists upd. simpl.
      split; [exact Hq1|]. split; [exact Hq2|]. done. }
  destruct (cleaned paths (cleanupWidgetContextPath (batch_state env appList cps))).2.
  2:{ destruct Hquiet as (upd & Hq1 & Hq2). exists upd. simpl.
      split; [exact Hq1|]. split; [exact Hq2|]. done. }
  rewrite inventory_update_run.
  exists [EvInventoryUpdate (rc_id r)
            (cleaned paths
               (cleanupWidgetContextPath (batch_state env appList cps))).1].
  destruct (inventoryUpdateError env); cbn [fst snd];
    unfold updated, add_events, set_inventory, set_trace;
    cbn [trace isLoaded];
    rewrite loaded_world_trace; unfold registration_trace;
    rewrite <- ?app_assoc; simpl; rewrite <- ?app_assoc;
    (split; [done|]); (split; [solve_kinds | done]).
Qed.

End batch_outcome.

(** ** The load signal *)

Lemma preamble_events_kinds evs :
  Forall is_preamble_event evs → kinds_in [KProgress; KFetch; KList] evs.
Proof.
  intros H. eapply Forall_impl; [exact H|]. intros e He.
  destruct e as [[]| | | | | | | | | | | | |]; simpl in *; try done; solve_elem.
Qed.

(** The signal is emitted at most once in a run, with [true], and a run that
    returns has emitted it. *)
Lemma loadRuntimeWidgets_signal env w :
  let run := loadRuntimeWidgets env w in
  ∃ evs, trace run.2 = trace w ++ evs
    ∧ ((of_kind KSignal evs = [] ∧ isLoaded run.2 = isLoaded w
        ∧ run.1 ≠ Ok ())
       ∨ (of_kind KSignal evs = [EvIsLoadedNext true]
          ∧ isLoaded run.2 = true)).
Proof.
  intros run. subst run.
  destruct (loadRuntimeWidgets_cases env w)
    as [(user & appList & cp & app & Hres)|(r & evs & -> & Hr & Hev)].
  2:{ exists evs. split; [done|]. left. split; [|done].
      eapply of_kind_absent; [by apply preamble_events_kinds|].
      intros Hin. repeat (apply elem_of_cons in Hin as [?|Hin]; [done|]).
      by apply elem_of_nil in Hin. }
  rewrite (loadRuntimeWidgets_resolved env user appList cp app w Hres).
  set (rc := context_of app w). set (cps := resolve_contextPaths app rc).
  assert (Hpre : of_kind KSignal (preamble user) = []) by done.
  assert (Hscan : of_kind KSignal (scan_trace env appList cps) = []).
  { eapply of_kind_absent; [apply scan_trace_kinds|].
    intros Hin. repeat (apply elem_of_cons in Hin as [?|Hin]; [done|]).
    by apply elem_of_nil in Hin. }
  destruct (load_batch_trace env appList rc cps (add_events (preamble user) w))
    as [[Hr ->]|(upd & Ht & Hupd & Hl & _)].
  - exists (preamble user ++ scan_trace env appList cps).
    split; [simpl; by rewrite <- app_assoc|]. left.
    rewrite of_kind_app, Hpre, Hscan. by repeat split.
  - exists (preamble user ++ scan_trace env appList cps
            ++ registration_trace env (batch_definitions env appList cps)
            ++ upd).
    split; [rewrite Ht; simpl; by rewrite <- !app_assoc|]. right.
    split; [|done].
    rewrite !of_kind_app, Hpre, Hscan. simpl.
    unfold registration_trace. rewrite !of_kind_app.
    rewrite (of_kind_absent registration_kinds KSignal
               (batch_definitions env appList cps ≫= loadWidget_events env)).
    + rewrite (of_kind_absent [KUpdate] KSignal upd); [done|done|].
      intros Hin. apply elem_of_cons in Hin as [?|Hin]; [done|].
      by apply elem_of_nil in Hin.
    + apply registration_events_kinds.
    + intros Hin. repeat (apply elem_of_cons in Hin as [?|Hin]; [done|]).
      by apply elem_of_nil in Hin.
Qed.

Lemma removeWidgetFromApp_signal env app cp w :
  let run := removeWidgetFromApp env app cp w in
  isLoaded run.2 = isLoaded w
  ∧ ∃ evs, trace run.2 = trace w ++ evs ∧ kinds_in [KList; KUpdate] evs.
Proof.
  unfold removeWidgetFromApp. unfold_monad.
  destruct (inventoryListError env).
  { split; [done|]. eexists. split; [done|]. solve_kinds. }
  destruct (take 2000 _) as [|appRuntimePath ?].
  { split; [done|]. eexists. split; [done|]. solve_kinds. }
  destruct (widgetContextPaths appRuntimePath) as [paths|].
  2:{ split; [done|]. eexists. split; [done|]. solve_kinds. }
  destruct (0 <=? Js.indexOf cp paths)%Z.
  2:{ split; [done|]. eexists. split; [done|]. solve_kinds. }
  rewrite inventory_update_run.
  destruct (inventoryUpdateError env); simpl.
  - split; [done|]. eexists. rewrite <- app_assoc. split; [done|]. solve_kinds.
  - split; [done|]. eexists. rewrite <- app_assoc. split; [done|]. solve_kinds.
Qed.

(** ** What a failed registration leaves behind *)

Section containment_facts.
Context (env : Env).

Lemma loadWidget_loader_consistent m d w :
  loader_consistent env w → loader_consistent env (loadWidget env m d w).2.
Proof.
  intros Hinv r.
  destruct (build_factories env m d) as [ex|entry] eqn:Hb.
  - rewrite (loadWidget_rejected env m d ex w Hb). cbn [snd rejected trace widgetFactories].
    intros [Hr|Hr]%elem_of_app; [by apply Hinv|].
    repeat (apply elem_of_cons in Hr as [Hr|Hr]; [discriminate Hr|]).
    by apply elem_of_nil in Hr.
  - rewrite (loadWidget_registered env m d entry w Hb).
    cbn [snd registered trace widgetFactories].
    intros [Hr|Hr]%elem_of_app.
    + apply lookup_insert_is_Some'. right. by apply Hinv.
    + apply elem_of_cons in Hr as [Hr|Hr]; [discriminate Hr|].
      apply list_elem_of_singleton in Hr. injection Hr as ->.
      apply lookup_insert_is_Some'. by left.
Qed.

Lemma register_all_loader_consistent defs w :
  loader_consistent env w → loader_consistent env (register_all env defs w).
Proof.
  revert w. induction defs as [|[m d] defs IH]; intros w Hinv; [done|].
  unfold register_all. cbn [fold_left fst snd].
  apply IH. by apply loadWidget_loader_consistent.
Qed.

Lemma register_all_registers defs w m d entry :
  (m, d) ∈ defs → build_factories env m d = inr entry →
  d ∈ hostRegistry (register_all env defs w)
  ∧ is_Some (widgetFactories (register_all env defs w) !! widget_id (defn env d)).
Proof.
  intros Hin Hb. revert w. induction defs as [|[m' d'] defs IH]; intros w.
  - by apply elem_of_nil in Hin.
  - unfold register_all. cbn [fold_left fst snd].
    apply elem_of_cons in Hin as [Heq|Hin]; [|by apply IH].
    injection Heq as <- <-.
    rewrite (loadWidget_registered env m d entry w Hb). cbn [snd].
    destruct (register_all_grows env defs (registered env m d entry w))
      as [Hreg Htab _ _].
    split.
    + apply Hreg. simpl. apply elem_of_app. right. by left.
    + apply Htab. simpl. rewrite lookup_insert_eq. by eexists.
Qed.

End containment_facts.


(** * The claims *)

(** ** Registration through [loadWidget] *)

(** C4. Two definitions with the same id are registered one after the
    other through [loadWidget], the factories of the second one being
    constructible. Then both calls return normally, the [widgetFactories]
    table holds exactly one entry under that id, that entry is the one built
    from the second definition (its factories come from the resolver of the
    second module and its injector is that module's), and the second call
    reports nothing: its only calls are the entry into [loadWidget] and the
    [add] on the host registry. *)
Theorem loadWidget_last_write_wins
    (env : Env) (m1 m2 : ModId) (d1 d2 : Ref)
    (entry2 : WidgetComponentFactoriesAndInjector) (w : World) :
  widget_id (defn env d1) = widget_id (defn env d2) →
  build_factories env m2 d2 = inr entry2 →
  let first := loadWidget env m1 d1 w in
  let second := loadWidget env m2 d2 first.2 in
  first.1 = Ok () ∧ second.1 = Ok ()
  ∧ entries_under (widget_id (defn env d1)) (widgetFactories second.2)
    = [(widget_id (defn env d1), entry2)]
  ∧ resolveComponentFactory env m2 (component (defn env d2))
    = inr (componentFactory entry2)
  ∧ injector entry2 = ModuleInjector m2
  ∧ trace second.2 = trace first.2 ++ [EvLoadWidget m2 d2; EvRegistryAdd d2].
Proof.
  intros Hid Hb first second. subst first second.
  rewrite (loadWidget_registered env m2 d2 entry2 _ Hb). simpl.
  split; [apply loadWidget_returns|]. split; [done|].
  split; [|split; [|split; [|done]]].
  - apply entries_under_lookup. rewrite Hid. apply lookup_insert_eq.
  - unfold build_factories in Hb.
    destruct (resolveComponentFactory env m2 (component (defn env d2)))
      as [e|cf]; [done|].
    destruct (configComponent (defn env d2)) as [c|].
    + destruct (resolveComponentFactory env m2 c); [done|]. by simplify_eq.
    + by simplify_eq.
  - unfold build_factories in Hb.
    destruct (resolveComponentFactory env m2 (component (defn env d2)))
      as [e|cf]; [done|].
    destruct (configComponent (defn env d2)) as [c|].
    + destruct (resolveComponentFactory env m2 c); [done|]. by simplify_eq.
    + by simplify_eq.
Qed.

Lemma loadWidget_last_write_wins_witness :
  let env := Sample.env_of [] [] Sample.bundles in
  let first := loadWidget env 7 1 (initial_world [100] [] []) in
  let second := loadWidget env 8 2 first.2 in
  first.1 = Ok () ∧ second.1 = Ok ()
  ∧ entries_under "w1" (widgetFactories second.2) = [("w1", last_write_entry)]
  ∧ resolveComponentFactory env 8 "B" = inr 801
  ∧ injector last_write_entry = ModuleInjector 8
  ∧ trace second.2 = trace first.2 ++ [EvLoadWidget 8 2; EvRegistryAdd 2].
Proof.
  exact (loadWidget_last_write_wins (Sample.env_of [] [] Sample.bundles)
           7 8 1 2 last_write_entry (initial_world [100] [] [])
           eq_refl eq_refl).
Defined.

(** C9, as amended. When the factories of a definition cannot be built,
    [loadWidget] still returns normally; it leaves the [widgetFactories]
    table and the host registry as they were and reports the failure on
    the console and as an alert; the definition carries the runtime flag
    all the same, since the flag is written before the [try]. Every
    definition that [loadWidget] has added to the host registry keeps its
    table entry; and a registry in which every runtime-flagged definition
    has a table entry stays so, provided the failing definition is not an
    unflagged member of the host registry already. The rest of the batch
    is processed as if the failing definition had not been there: the
    rest of its array, the following entries of its module, and, over the
    whole registration pass, the definitions before and after it in all
    modules. The pass returns normally, and every definition of the batch
    whose factories can be built ends up in the host registry with a table
    entry under its id. *)
Theorem loadWidget_failure_is_contained
    (env : Env) (m : ModId) (d : Ref) (ex : Exn) (w : World) :
  build_factories env m d = inl ex →
  let after := loadWidget env m d w in
  after.1 = Ok ()
  ∧ widgetFactories after.2 = widgetFactories w
  ∧ hostRegistry after.2 = hostRegistry w
  ∧ runtimeLoaded after.2 = {[d]} ∪ runtimeLoaded w
  ∧ trace after.2
    = trace w ++ [EvLoadWidget m d;
                  EvConsoleError (LogWidgetFailed d ex);
                  EvDanger widget_failed_text (message ex)]
  ∧ (loader_consistent env w → loader_consistent env after.2)
  ∧ (registry_consistent env w →
     (d ∈ hostRegistry w → d ∈ runtimeLoaded w) →
     registry_consistent env after.2)
  ∧ (∀ rest,
       let batch := loadWidget_each env m (d :: rest) w in
       batch = loadWidget_each env m rest after.2
       ∧ batch.1 = Ok ()
       ∧ (∀ d' entry, d' ∈ rest → build_factories env m d' = inr entry →
            d' ∈ hostRegistry batch.2
            ∧ is_Some (widgetFactories batch.2 !! widget_id (defn env d'))))
  ∧ (∀ widgets,
       register_entries env m (Single d :: widgets) w
       = register_entries env m widgets after.2)
  ∧ (∀ rest widgets,
       register_entries env m (Many (d :: rest) :: widgets) w
       = (loadWidget_each env m rest;; register_entries env m widgets) after.2)
  ∧ (∀ ngModules before rest w0,
       collected env ngModules = before ++ (m, d) :: rest →
       let pass := register_loop env ngModules w0 in
       pass
       = (Ok (),
          register_all env rest
            (loadWidget env m d (register_all env before w0)).2)
       ∧ (loader_consistent env w0 → loader_consistent env pass.2)
       ∧ ∀ m' d' entry,
           (m', d') ∈ collected env ngModules →
           build_factories env m' d' = inr entry →
           d' ∈ hostRegistry pass.2
           ∧ is_Some (widgetFactories pass.2 !! widget_id (defn env d'))).
Proof.
  intros Hb after. subst after.
  split; [apply loadWidget_returns|].
  assert (Hbind : ∀ (k : M ()) w1,
    (loadWidget env m d;; k) w1 = k (loadWidget env m d w1).2).
  { intros k w1. unfold mbind, M_bind.
    pose proof (loadWidget_returns env m d w1) as Hr.
    destruct (loadWidget env m d w1) as [r w2]. simpl in Hr. by subst r. }
  split; [|split; [|split; [|split; [|split; [|split]]]]].
  - by rewrite (loadWidget_rejected env m d ex w Hb).
  - by rewrite (loadWidget_rejected env m d ex w Hb).
  - by rewrite (loadWidget_rejected env m d ex w Hb).
  - by rewrite (loadWidget_rejected env m d ex w Hb).
  - apply loadWidget_loader_consistent.
  - apply loadWidget_consistent.
  - split; [|split; [|split]].
    + intros rest. cbn zeta. rewrite loadWidget_each_cons.
      split; [done|]. split; [apply loadWidget_each_returns|].
      intros d' entry Hin Hb'.
      by apply (loadWidget_each_registers env m rest _ d' entry).
    + intros widgets. cbn [register_entries register_entry]. apply Hbind.
    + intros rest widgets. cbn [register_entries register_entry loadWidget_each].
      unfold mbind at 1, M_bind at 1.
      rewrite Hbind.
      unfold mbind, M_bind.
      by destruct (loadWidget_each env m rest (loadWidget env m d w).2)
        as [[[]| |] w2].
    + intros ngModules before rest w0 Hc. cbn zeta.
      rewrite register_loop_run. cbn [fst snd].
      split; [by rewrite Hc, register_all_app|]. split.
      * apply register_all_loader_consistent.
      * intros m' d' entry Hin Hb'.
        by apply (register_all_registers env _ w0 m' d' entry).
Qed.

Lemma loadWidget_failure_is_contained_witness :
  let env := Sample.env_of [] [] Sample.bundles in
  let w := initial_world [100] [] [] in
  build_factories env 8 3 = inl (Error "No component factory found for Broken")
  ∧ (loadWidget env 8 3 w).1 = Ok ()
  ∧ widgetFactories (loadWidget env 8 3 w).2 = ∅
  ∧ hostRegistry (loadWidget env 8 3 w).2 = [100]
  ∧ registry_consistent env (loadWidget env 8 3 w).2
  ∧ 2 ∈ hostRegistry (loadWidget_each env 8 [3; 2] w).2
  ∧ collected env [7; 8] = [(7, 1); (8, 3); (8, 2)]
  ∧ 2 ∈ hostRegistry (register_loop env [7; 8] w).2.
Proof.
  intros env w.
  pose proof (loadWidget_failure_is_contained env 8 3
                (Error "No component factory found for Broken") w eq_refl)
    as (H1 & H2 & H3 & _ & _ & _ & H7 & H8 & _ & _ & H11).
  split; [reflexivity|]. split; [exact H1|]. split; [exact H2|].
  split; [exact H3|]. split; [|split; [|split]].
  - apply H7.
    + intros r _ Hr. by apply not_elem_of_empty in Hr.
    + intros Hd. apply list_elem_of_singleton in Hd. discriminate Hd.
  - destruct (H8 [2]) as (_ & _ & Hrest).
    apply (Hrest 2 last_write_entry); [by left | reflexivity].
  - reflexivity.
  - destruct (H11 [7; 8] [(7, 1)] [(8, 2)] w eq_refl) as (_ & _ & Hall).
    apply (Hall 8 2 last_write_entry); [|reflexivity].
    apply (bool_decide_unpack _). vm_compute. exact I.
Defined.

(** C9, as stated, fails. The host registry holds definition 3 as one of
    its own, without the runtime flag, and every flagged definition of the
    registry has a table entry. A module then provides the same definition
    and its factories cannot be built: table and registry are not modified,
    but the flag was written before the [try], so the registry now holds a
    runtime-flagged definition without a table entry. *)
Lemma failed_registration_breaks_registry_invariant :
  let env := Sample.env_of [] [] Sample.bundles in
  let after := loadWidget env 8 3 (initial_world [3] [] []) in
  registry_consistent env (initial_world [3] [] [])
  ∧ build_factories env 8 3 = inl (Error "No component factory found for Broken")
  ∧ after.1 = Ok ()
  ∧ widgetFactories after.2 = widgetFactories (initial_world [3] [] [])
  ∧ hostRegistry after.2 = hostRegistry (initial_world [3] [] [])
  ∧ 3 ∈ hostRegistry after.2 ∧ 3 ∈ runtimeLoaded after.2
  ∧ widgetFactories after.2 !! widget_id (defn env 3) = None
  ∧ ¬ registry_consistent env after.2.
Proof.
  cbn zeta.
  assert (Hreg : 3 ∈ hostRegistry
                       (loadWidget (Sample.env_of [] [] Sample.bundles) 8 3
                          (initial_world [3] [] [])).2).
  { apply (bool_decide_unpack _). vm_compute. exact I. }
  assert (Hflag : 3 ∈ runtimeLoaded
                        (loadWidget (Sample.env_of [] [] Sample.bundles) 8 3
                           (initial_world [3] [] [])).2).
  { apply (bool_decide_unpack _). vm_compute. exact I. }
  split.
  { intros r _ Hr. by apply not_elem_of_empty in Hr. }
  split; [reflexivity|]. split; [reflexivity|]. split; [reflexivity|].
  split; [reflexivity|]. split; [exact Hreg|]. split; [exact Hflag|].
  split; [reflexivity|].
  intros Hinv. destruct (Hinv 3 Hreg Hflag) as [x Hx]. discriminate Hx.
Qed.

(** ** The patched component methods *)

Section dispatch_facts.
Context (env : Env).

(** [loadComponent] reads the flags and the factory table only. *)
Lemma loadComponent_reads w w' this dc :
  runtimeLoaded w' = runtimeLoaded w →
  widgetFactories w' = widgetFactories w →
  loadComponent env w' this dc = loadComponent env w this dc.
Proof. intros Hf Ht. unfold loadComponent. by rewrite Hf, Ht. Qed.

(** It neither reads nor writes the subscription count, and it keeps the
    id. *)
Lemma loadComponent_waiting w this dc n :
  loadComponent env w (set_waiting n this) dc
  = set_waiting n (loadComponent env w this dc).
Proof.
  unfold loadComponent, by_mode, createComponent. simpl.
  repeat (case_match; simpl in *; simplify_eq; try done).
Qed.

Lemma loadComponent_componentId w this dc :
  componentId (loadComponent env w this dc) = componentId this.
Proof.
  unfold loadComponent, by_mode, createComponent.
  repeat (case_match; simpl in *; simplify_eq; try done).
Qed.

(** Loading the same definition again changes nothing. *)
Lemma loadComponent_idem w this dc :
  loadComponent env w (loadComponent env w this dc) dc
  = loadComponent env w this dc.
Proof.
  destruct this as [cid md cfg er hs wt].
  unfold loadComponent, by_mode, createComponent, set_error, set_host. simpl.
  destruct dc as [r|]; [|done].
  destruct (bool_decide (r ∈ runtimeLoaded w)).
  - destruct (widgetFactories w !! cid) as [f|] eqn:Hf; simpl;
      [|by rewrite ?Hf].
    destruct (String.eqb md "component") eqn:Hm; simpl.
    + by rewrite ?Hf, ?Hm.
    + destruct (configComponentFactory f) eqn:Hc; simpl;
        by rewrite ?Hf, ?Hm, ?Hc.
  - destruct (String.eqb md "component") eqn:Hm; simpl.
    + destruct (hostResolveComponentFactory env (component (defn env r)))
        eqn:Hr; simpl; by rewrite ?Hm, ?Hr.
    + destruct (configComponent (defn env r)) as [c|] eqn:Hc; simpl.
      * destruct (hostResolveComponentFactory env c) eqn:Hr; simpl;
          by rewrite ?Hm, ?Hc, ?Hr.
      * by rewrite ?Hm, ?Hc.
Qed.

Lemma resolve_and_load_iter w this n :
  Nat.iter (S n) (resolve_and_load env w) this = resolve_and_load env w this.
Proof.
  induction n as [|n IH]; [done|].
  change (Nat.iter (S (S n)) (resolve_and_load env w) this)
    with (resolve_and_load env w (Nat.iter (S n) (resolve_and_load env w) this)).
  rewrite IH. unfold resolve_and_load.
  rewrite loadComponent_componentId. apply loadComponent_idem.
Qed.

(** An instance without subscriptions is not touched by the signal. *)
Lemma deliver_loaded_idle w this :
  waiting this = 0 → deliver_loaded env w this = this.
Proof.
  intros H0. unfold deliver_loaded. rewrite H0. simpl.
  destruct this. simpl in *. by subst.
Qed.

Lemma deliver_loaded_waiting w this n :
  deliver_loaded env w (set_waiting (S n) this)
  = set_waiting 0 (resolve_and_load env w this).
Proof.
  unfold deliver_loaded.
  change (waiting (set_waiting (S n) this)) with (S n).
  rewrite resolve_and_load_iter. unfold resolve_and_load.
  change (componentId (set_waiting (S n) this)) with (componentId this).
  by rewrite loadComponent_waiting.
Qed.

End dispatch_facts.

(** C2. A render request ([ngOnChanges]) for an id that the host registry
    does not know, or knows as runtime-sourced, made while the load signal
    is [false], is suspended: nothing is rendered, no error is written, the
    instance only holds one more subscription. Neither an emission of
    [false] nor the registration of definitions touches the instances, so
    only [isLoaded$.next(true)] ends the wait. That call sets the signal to
    [true] and hands every instance to [deliver_loaded]; for the suspended
    instance this is [loadComponent] on what the id resolves to at that
    moment. If the id then still resolves to nothing, the instance ends with
    its [error] set and its view as it was, and instances that were not
    waiting are left exactly as they were. A request made when the signal
    is already [true] for an id that resolves to nothing ends in the same
    error state at once. *)
Theorem render_request_waits_for_load
    (env : Env) (w : World) (this : DynamicComponentComponent) :
  isLoaded w = false →
  unresolved_or_runtime w (getById env (hostRegistry w) (componentId this))
    = true →
  let pending := ngOnChanges env w this in
  pending = set_waiting (S (waiting this)) this
  ∧ error pending = error this ∧ host pending = host this
  ∧ (∀ w1, instances (isLoaded_next env false w1).2 = instances w1)
  ∧ (∀ defs w1, instances (register_all env defs w1) = instances w1)
  ∧ (∀ w1,
       let w2 := (isLoaded_next env true w1).2 in
       let resolved_now :=
         loadComponent env w2 this
           (getById env (hostRegistry w2) (componentId this)) in
       isLoaded w2 = true
       ∧ instances w2 = deliver_loaded env w2 <$> instances w1
       ∧ deliver_loaded env w2 pending = set_waiting 0 resolved_now
       ∧ (getById env (hostRegistry w2) (componentId this) = None →
          is_Some (error resolved_now) ∧ host resolved_now = host this)
       ∧ (∀ other, waiting other = 0 → deliver_loaded env w2 other = other))
  ∧ (∀ w1,
       isLoaded w1 = true →
       getById env (hostRegistry w1) (componentId this) = None →
       is_Some (error (ngOnChanges env w1 this))
       ∧ host (ngOnChanges env w1 this) = host this
       ∧ waiting (ngOnChanges env w1 this) = waiting this).
Proof.
  intros Hl Hu pending. subst pending.
  assert (Hpending : ngOnChanges env w this = set_waiting (S (waiting this)) this)
    by (unfold ngOnChanges; by rewrite Hu, Hl).
  rewrite Hpending.
  split; [done|]. split; [done|]. split; [done|]. split; [done|].
  split; [intros defs w1; apply register_all_inventory|].
  split.
  - intros w1. rewrite isLoaded_next_true_run. simpl.
    split; [done|]. split.
    { unfold signal_loaded. simpl. apply list_fmap_ext. by intros i x _. }
    split; [by rewrite deliver_loaded_waiting|]. split.
    + intros Hnone. rewrite Hnone. simpl. split; [by eexists | done].
    + intros other H0. by apply deliver_loaded_idle.
  - intros w1 Hl1 Hnone. unfold ngOnChanges, resolve_and_load.
    rewrite Hnone, Hl1. simpl. split; [by eexists | done].
Qed.

Lemma render_request_waits_for_load_witness :
  let w := initial_world [100] [] [] in
  let pending := ngOnChanges one_bundle_env w w1_slot in
  isLoaded w = false
  ∧ unresolved_or_runtime w
      (getById one_bundle_env (hostRegistry w) (componentId w1_slot)) = true
  ∧ pending = set_waiting 1 w1_slot
  ∧ is_Some (error (loadComponent one_bundle_env
                      (isLoaded_next one_bundle_env true w).2 w1_slot None)).
Proof.
  intros w pending.
  destruct (render_request_waits_for_load one_bundle_env w w1_slot
              eq_refl eq_refl) as (H1 & _ & _ & _ & _ & H6 & _).
  destruct (H6 w) as (_ & _ & _ & H9 & _).
  split; [reflexivity|]. split; [reflexivity|]. split; [exact H1|].
  exact (proj1 (H9 eq_refl)).
Defined.

(** A request for [w1] made before the load: the slot waits, the run
    registers [w1], and the signal renders the slot with the factory and the
    injector of the module that provided the definition. *)
Example pending_request_is_rendered_by_the_load :
  let w := initial_world [100] [] [] in
  let pending := ngOnChanges one_bundle_env w w1_slot in
  let run := loadRuntimeWidgets one_bundle_env (set_instances [pending] w) in
  host pending = None ∧ waiting pending = 1
  ∧ run.1 = Ok ()
  ∧ instances run.2
    = [ {| componentId := "w1"; mode := "component"; config := 42;
           error := None;
           host := Some {| ref_factory := 701;
                           ref_injector := Some (ModuleInjector 7);
                           ref_config := Some 42 |};
           waiting := 0 |} ].
Proof. repeat split; reflexivity. Qed.

Lemma of_kind_not_elem k e evs :
  kind e = k → of_kind k evs = [] → e ∉ evs.
Proof.
  intros Hk Hf Hin. unfold of_kind in Hf.
  by apply (filter_nil_not_elem_of _ _ e Hf).
Qed.

Lemma kinds_in_not_elem ks e evs :
  kinds_in ks evs → kind e ∉ ks → e ∉ evs.
Proof.
  intros Hk Hn Hin. unfold kinds_in in Hk.
  rewrite Forall_forall in Hk. by apply Hn, Hk.
Qed.

(** C3, as amended. A fresh service holds [false]. A run of
    [loadRuntimeWidgets] that starts with the signal [false] and returns
    has switched it to [true] through exactly one emission; whatever the
    outcome, the run either did that or left the signal [false] without
    emitting anything (a run that throws or stalls before the end of
    registration). No method of the service turns a [true] signal back:
    [loadRuntimeWidgets], [loadWidget] and [removeWidgetFromApp] keep it
    [true] and never emit [false]. *)
Theorem load_signal_set_at_most_once
    (env : Env) (w : World) :
  isLoaded w = false →
  let run := loadRuntimeWidgets env w in
  (∀ builtins inv insts, isLoaded (initial_world builtins inv insts) = false)
  ∧ (run.1 = Ok () → transitions_once w run.2)
  ∧ (transitions_once w run.2 ∨ stays_unloaded w run.2)
  ∧ (∀ w', keeps_loaded w' (loadRuntimeWidgets env w').2)
  ∧ (∀ m d w', keeps_loaded w' (loadWidget env m d w').2)
  ∧ (∀ app cp w', keeps_loaded w' (removeWidgetFromApp env app cp w').2).
Proof.
  intros Hw run. subst run. split; [done|].
  assert (Hrun : ∀ w', 
    let run := loadRuntimeWidgets env w' in
    ∃ evs, trace run.2 = trace w' ++ evs
    ∧ ((of_kind KSignal evs = [] ∧ isLoaded run.2 = isLoaded w'
        ∧ run.1 ≠ Ok ())
       ∨ (of_kind KSignal evs = [EvIsLoadedNext true]
          ∧ isLoaded run.2 = true))) by apply loadRuntimeWidgets_signal.
  split; [|split; [|split; [|split]]].
  - intros Hok. destruct (Hrun w) as (evs & Ht & [(_ & _ & Hn)|[Hs Hl]]); [done|].
    split; [done|]. split; [done|]. by exists evs.
  - destruct (Hrun w) as (evs & Ht & [(Hs & Hl & _)|[Hs Hl]]).
    + right. split; [done|]. split; [congruence|]. by exists evs.
    + left. split; [done|]. split; [done|]. by exists evs.
  - intros w'. destruct (Hrun w') as (evs & Ht & [(Hs & Hl & _)|[Hs Hl]]).
    + split; [congruence|]. exists evs. split; [done|].
      by apply (of_kind_not_elem KSignal).
    + split; [done|]. exists evs. split; [done|].
      intros Hin.
      assert (Hf : EvIsLoadedNext false ∈ of_kind KSignal evs)
        by (apply list_elem_of_filter; by split).
      rewrite Hs in Hf. apply list_elem_of_singleton in Hf. discriminate Hf.
  - intros m d w'. split.
    + intros Hl. destruct (loadWidget_grows env m d w') as [_ _ _ Hk]. congruence.
    + exists (loadWidget_events env (m, d)). split; [apply loadWidget_trace|].
      apply (kinds_in_not_elem registration_kinds);
        [apply loadWidget_events_kinds|].
      intros Hin. repeat (apply elem_of_cons in Hin as [?|Hin]; [done|]).
      by apply elem_of_nil in Hin.
  - intros app cp w'.
    destruct (removeWidgetFromApp_signal env app cp w') as (Hl & evs & Ht & Hk).
    split; [congruence|]. exists evs. split; [done|].
    apply (kinds_in_not_elem [KList; KUpdate]); [done|].
    intros Hin. repeat (apply elem_of_cons in Hin as [?|Hin]; [done|]).
    by apply elem_of_nil in Hin.
Qed.

Lemma load_signal_set_at_most_once_witness :
  isLoaded fresh_world = false
  ∧ (transitions_once fresh_world (loadRuntimeWidgets no_apps_env fresh_world).2
     ∨ stays_unloaded fresh_world
         (loadRuntimeWidgets no_apps_env fresh_world).2).
Proof.
  split; [reflexivity|].
  exact (proj1 (proj2 (proj2
           (load_signal_set_at_most_once no_apps_env fresh_world eq_refl)))).
Defined.

(** C3, as stated, fails: when the user sees no application the run throws
    'Could not find current application.' and the signal never leaves
    [false]. *)
Lemma load_signal_not_set_when_run_aborts :
  (loadRuntimeWidgets no_apps_env fresh_world).1 = Threw not_found
  ∧ isLoaded (loadRuntimeWidgets no_apps_env fresh_world).2 = false
  ∧ ¬ transitions_once fresh_world
        (loadRuntimeWidgets no_apps_env fresh_world).2.
Proof.
  split; [reflexivity|]. split; [reflexivity|].
  intros (_ & Hl & _). discriminate Hl.
Qed.

(** ** Ordering of registration *)

Lemma of_kind_loadWidget_events env defs :
  of_kind KLoadWidget (defs ≫= loadWidget_events env)
  = (λ d, EvLoadWidget d.1 d.2) <$> defs.
Proof.
  induction defs as [|d defs IH]; [done|].
  rewrite bind_cons, of_kind_app, IH, fmap_cons. unfold loadWidget_events.
  by destruct (build_factories env d.1 d.2).
Qed.

Ltac solve_not_in :=
  let Hin := fresh "Hin" in
  intros Hin;
  repeat (apply elem_of_cons in Hin as [?|Hin]; [done|]);
  by apply elem_of_nil in Hin.

(** The shape of the calls of a run with respect to registration and
    signal. *)
Lemma run_trace_shape (env : Env) (w : World) :
  let run := loadRuntimeWidgets env w in
  ∃ evs, trace run.2 = trace w ++ evs
  ∧ ((of_kind KLoadWidget evs = [] ∧ of_kind KSignal evs = [])
     ∨ ∃ user appList cp app pre post,
         resolved env user appList cp app
         ∧ let defs :=
             batch_definitions env appList
               (resolve_contextPaths app (context_of app w)) in
           let feeding := defs ≫= loadWidget_events env in
           evs = pre ++ [EvHostRegistryReady; EvProgress MsgAlmostReady]
                 ++ feeding ++ [EvProgressClose; EvIsLoadedNext true] ++ post
           ∧ hostRegistry w ≠ []
           ∧ of_kind KLoadWidget pre = [] ∧ of_kind KSignal pre = []
           ∧ of_kind KReady pre = []
           ∧ of_kind KLoadWidget feeding = (λ d, EvLoadWidget d.1 d.2) <$> defs
           ∧ of_kind KSignal feeding = []
           ∧ of_kind KLoadWidget post = [] ∧ of_kind KSignal post = []).
Proof.
  intros run. subst run.
  destruct (loadRuntimeWidgets_cases env w)
    as [(user & appList & cp & app & Hres)|(r & evs & -> & Hr & Hev)].
  2:{ exists evs. split; [done|]. left.
      split; (eapply of_kind_absent; [by apply preamble_events_kinds|]);
        solve_not_in. }
  rewrite (loadRuntimeWidgets_resolved env user appList cp app w Hres).
  set (rc := context_of app w). set (cps := resolve_contextPaths app rc).
  pose proof (scan_trace_kinds env appList cps) as Hscan.
  destruct (load_batch_trace env appList rc cps (add_events (preamble user) w))
    as [[Hr ->]|(upd & Ht & Hupd & Hl & _ & Hreg)].
  - exists (preamble user ++ scan_trace env appList cps).
    split; [simpl; by rewrite <- app_assoc|]. left.
    rewrite !of_kind_app.
    split;
      (rewrite (of_kind_absent _ _ (scan_trace env appList cps) Hscan);
       [done | solve_not_in]).
  - exists (preamble user ++ scan_trace env appList cps
            ++ registration_trace env (batch_definitions env appList cps)
            ++ upd).
    split; [rewrite Ht; simpl; by rewrite <- !app_assoc|]. right.
    exists user, appList, cp, app,
      (preamble user ++ scan_trace env appList cps), upd.
    split; [done|]. fold rc. fold cps. cbn zeta.
    split; [unfold registration_trace; by rewrite <- !app_assoc|].
    split; [done|].
    rewrite !of_kind_app.
    rewrite (of_kind_absent _ KLoadWidget (scan_trace env appList cps) Hscan)
      by solve_not_in.
    rewrite (of_kind_absent _ KSignal (scan_trace env appList cps) Hscan)
      by solve_not_in.
    rewrite (of_kind_absent _ KReady (scan_trace env appList cps) Hscan)
      by solve_not_in.
    split; [done|]. split; [done|]. split; [done|].
    split; [apply of_kind_loadWidget_events|].
    split.
    { eapply of_kind_absent; [apply registration_events_kinds | solve_not_in]. }
    split; (eapply of_kind_absent; [exact Hupd | solve_not_in]).
Qed.

Lemma split_after {A} (a b c d : list A) (x y : A) :
  a ++ x :: b = c ++ y :: d → y ∉ a → x ≠ y → ∃ c', c = a ++ x :: c'.
Proof.
  revert c. induction a as [|h a IH]; intros c Heq Hy Hxy.
  - destruct c as [|z c]; simpl in Heq; [by simplify_eq|].
    simplify_eq. by exists c.
  - destruct c as [|z c]; simpl in Heq; simplify_eq.
    + exfalso. apply Hy. by left.
    + destruct (IH c) as [c' ->]; [done| |done|by exists c'].
      intros Hin. apply Hy. by right.
Qed.

Lemma split_unique {A} (a b c d : list A) (x : A) :
  a ++ x :: b = c ++ x :: d → x ∉ a → x ∉ b → c = a ∧ d = b.
Proof.
  revert c. induction a as [|h a IH]; intros c Heq Ha Hb.
  - destruct c as [|z c]; simpl in Heq; simplify_eq; [done|].
    exfalso. apply Hb. apply elem_of_app. right. by left.
  - destruct c as [|z c]; simpl in Heq; simplify_eq.
    + exfalso. apply Ha. by left.
    + destruct (IH c) as [-> ->]; [done| |done|done].
      intros Hin. apply Ha. by right.
Qed.

Lemma of_kind_nil_not_elem k evs e :
  of_kind k evs = [] → kind e = k → e ∉ evs.
Proof. intros Hf Hk. by apply (of_kind_not_elem k). Qed.

(** C5. In the calls of a run of [loadRuntimeWidgets], every entry into
    [loadWidget] comes after the report that the host registry is not
    empty, which it then indeed is; and when [isLoaded$.next(true)] is
    called, the entries into [loadWidget] before it are exactly those of
    the collected definitions, in order, and none follows it. *)
Theorem registration_after_host_ready_before_signal
    (env : Env) (w : World) :
  let run := loadRuntimeWidgets env w in
  ∃ evs, trace run.2 = trace w ++ evs
  ∧ (∀ l1 l2 m d,
       evs = l1 ++ EvLoadWidget m d :: l2 →
       EvHostRegistryReady ∈ l1 ∧ hostRegistry w ≠ [])
  ∧ (∀ l1 l2,
       evs = l1 ++ EvIsLoadedNext true :: l2 →
       of_kind KLoadWidget l2 = []
       ∧ ∃ user appList cp app,
           resolved env user appList cp app
           ∧ of_kind KLoadWidget l1
             = (λ d, EvLoadWidget d.1 d.2)
               <$> batch_definitions env appList
                     (resolve_contextPaths app (context_of app w))).
Proof.
  intros run. subst run.
  destruct (run_trace_shape env w) as (evs & Ht & Hshape).
  exists evs. split; [exact Ht|].
  destruct Hshape as [[Hlw Hsig]|
    (user & appList & cp & app & pre & post & Hres & Hevs & Hreg
     & Hpre_lw & Hpre_sig & Hpre_ready & Hfeed_lw & Hfeed_sig
     & Hpost_lw & Hpost_sig)].
  - split.
    + intros l1 l2 m d Heq. exfalso.
      apply (of_kind_nil_not_elem KLoadWidget evs (EvLoadWidget m d) Hlw eq_refl).
      rewrite Heq. apply elem_of_app. right. by left.
    + intros l1 l2 Heq. exfalso.
      apply (of_kind_nil_not_elem KSignal evs (EvIsLoadedNext true) Hsig eq_refl).
      rewrite Heq. apply elem_of_app. right. by left.
  - cbn zeta in *.
    set (defs := batch_definitions env appList
                   (resolve_contextPaths app (context_of app w))) in *.
    set (feeding := defs ≫= loadWidget_events env) in *.
    split.
    + intros l1 l2 m d Heq. split; [|exact Hreg].
      rewrite Hevs in Heq. simpl in Heq.
      destruct (split_after pre _ l1 l2 EvHostRegistryReady (EvLoadWidget m d)
                  Heq) as [c' ->]; [|done|].
      * by apply (of_kind_nil_not_elem KLoadWidget).
      * apply elem_of_app. right. by left.
    + intros l1 l2 Heq.
      assert (Hfront :
        evs = (pre ++ [EvHostRegistryReady; EvProgress MsgAlmostReady]
               ++ feeding ++ [EvProgressClose])
              ++ EvIsLoadedNext true :: post).
      { rewrite Hevs. by rewrite <- !app_assoc. }
      rewrite Hfront in Heq.
      destruct (split_unique _ post l1 l2 (EvIsLoadedNext true) Heq)
        as [-> ->].
      * apply (of_kind_nil_not_elem KSignal); [|done].
        rewrite !of_kind_app, Hpre_sig, Hfeed_sig. done.
      * by apply (of_kind_nil_not_elem KSignal).
      * split; [exact Hpost_lw|].
        exists user, appList, cp, app. split; [exact Hres|].
        rewrite !of_kind_app, Hpre_lw, Hfeed_lw. simpl.
        by rewrite app_nil_r.
Qed.

(** ** Resolution of the application and of the identifier set *)

Lemma resolve_contextPaths_NoDup app rc : NoDup (resolve_contextPaths app rc).
Proof. apply array_from_set_NoDup. Qed.

Lemma resolve_contextPaths_elem app rc x :
  x ∈ resolve_contextPaths app rc
  ↔ x ∈ Js.or_empty (app_widgetContextPaths app)
    ∨ x ∈ Js.or_empty (rc ≫= widgetContextPaths).
Proof.
  unfold resolve_contextPaths. by rewrite array_from_set_elem, elem_of_app.
Qed.

(** C8. With a user logged in, the application list fetched and a context
    path in the URL, [loadRuntimeWidgets] looks first for an application
    with that context path and availability [PRIVATE], then for any
    application with that context path. If both searches come back empty
    the run throws 'Could not find current application.' right after the
    fetch. Otherwise (the inventory answering) it carries on as the batch
    over the identifier set of the application found, and that set has no
    duplicates and holds exactly the identifiers of the application's
    [widgetContextPaths] and of the [widgetContextPaths] of the runtime
    context whose [appId] is the application's id. *)
Theorem current_application_and_identifier_set
    (env : Env) (w : World) (user : string) (appList : list IApplication)
    (cp : string) :
  currentUser env = Some user →
  applicationsByUser env user = inr appList →
  contextPathFromURL (pathname env) = Some cp →
  let own :=
    find (λ app, Js.opt_eqb (contextPath app) (Some cp)
                 && Js.opt_eqb (availability app) (Some "PRIVATE")) appList in
  let any := find (λ app, Js.opt_eqb (contextPath app) (Some cp)) appList in
  let run := loadRuntimeWidgets env w in
  match (if own is Some app then Some app else any) with
  | None =>
      run = (Threw (Error "Could not find current application."),
             add_events [EvProgress MsgLoading; EvFetchApplications user] w)
  | Some app =>
      let rc :=
        find (λ path, Js.opt_eqb (appId path) (Some (app_id app)))
             (take 2000 (inventory w)) in
      let ids := resolve_contextPaths app rc in
      NoDup ids
      ∧ (∀ x, x ∈ ids ↔ x ∈ default [] (app_widgetContextPaths app)
                        ∨ x ∈ default [] (rc ≫= widgetContextPaths))
      ∧ (inventoryListError env = None →
         run = load_batch env appList rc ids (add_events (preamble user) w))
  end.
Proof.
  intros Hu Ha Hcp own any run. subst own any run.
  fold (own_app cp). fold (current_app cp).
  change (if find (own_app cp) appList is Some app then Some app
          else find (current_app cp) appList) with (resolve_app cp appList).
  destruct (resolve_app cp appList) as [app|] eqn:Happ.
  - split; [apply resolve_contextPaths_NoDup|].
    split; [apply resolve_contextPaths_elem|].
    intros Hl.
    by rewrite (loadRuntimeWidgets_resolved env user appList cp app w).
  - unfold loadRuntimeWidgets. rewrite Hu. unfold_monad. rewrite Ha.
    unfold_monad. rewrite find_current_app_run, Hcp, Happ.
    destruct appList; unfold add_events, set_trace; simpl;
      by rewrite <- app_assoc.
Qed.

Lemma current_application_and_identifier_set_witness :
  let env := Sample.env_of two_cockpits [] Sample.bundles in
  let w := initial_world [100] [Sample.context ["b"; "c"; "b"]] [] in
  contextPathFromURL (pathname env) = Some "cockpit"
  ∧ resolve_contextPaths (Sample.cockpit (Some ["a"; "b"]))
      (Some (Sample.context ["b"; "c"; "b"])) = ["a"; "b"; "c"]
  ∧ loadRuntimeWidgets env w
    = load_batch env two_cockpits (Some (Sample.context ["b"; "c"; "b"]))
        ["a"; "b"; "c"] (add_events (preamble "alice") w).
Proof.
  intros env w.
  pose proof (current_application_and_identifier_set env w "alice"
                two_cockpits "cockpit" eq_refl eq_refl eq_refl) as H.
  simpl in H. destruct H as (_ & _ & H).
  split; [reflexivity|]. split; [reflexivity|]. exact (H eq_refl).
Defined.

(** ** A bundle without modules *)

Lemma scan_without_modules cp (jsModule : JsModule) :
  Forall (λ kv, is_module_descriptor kv.2 = false ∧ is_nullish kv.2 = false)
         jsModule →
  scan_throws (exports_of cp jsModule) = false
  ∧ scan_events (exports_of cp jsModule) = []
  ∧ scan_modules (exports_of cp jsModule) = [].
Proof.
  induction 1 as [|[key obj] rest [Hd Hn] _ (IH1 & IH2 & IH3)]; [done|].
  simpl in Hd, Hn. unfold exports_of. rewrite fmap_cons. fold (exports_of cp rest).
  assert (Hact : activated obj = [] ∧ activation_events cp key obj = []).
  { destruct obj as [| |annotations activation]; [done|done|].
    simpl in *. rewrite Hd. by destruct activation. }
  destruct Hact as [Ha He].
  split; [|split].
  - unfold scan_throws in *. simpl. by rewrite Hn, IH1.
  - unfold scan_events in *. simpl. rewrite Hn, bind_cons. simpl.
    by rewrite He, IH2.
  - unfold scan_modules in *. rewrite bind_cons. simpl. by rewrite Ha, IH3.
Qed.

Lemma auto_clean_nothing env rc w : auto_clean env rc [] w = (Ok (), w).
Proof.
  rewrite auto_clean_run. by destruct (rc ≫= _) as [[r paths]|].
Qed.

(** C7, as amended. The identifier set is one loadable identifier whose
    manifest and entry module import, none of the exported values is a
    module descriptor (and none is [null] or [undefined]), and the host
    registry has an entry. Then [loadRuntimeWidgets] returns, the signal is
    [true], the [widgetFactories] table and the host registry are as they
    were (empty table for a fresh service), the inventory is untouched, and
    the calls of the run are the progress messages, the two imports and the
    signal: no alert is raised and nothing is written to the console. *)
Theorem bundle_without_descriptors_loads_silently
    (env : Env) (w : World) (user : string) (appList : list IApplication)
    (cp : string) (app : IApplication) (a : string) (jsModule : JsModule) :
  resolved env user appList cp app →
  resolve_contextPaths app (context_of app w) = [a] →
  is_loadable a = true →
  corsImport env a = None →
  interleaved env a = inr jsModule →
  Forall (λ kv, is_module_descriptor kv.2 = false ∧ is_nullish kv.2 = false)
         jsModule →
  hostRegistry w ≠ [] →
  let run := loadRuntimeWidgets env w in
  let evs :=
    preamble user
    ++ [EvProgress (MsgLoadingWidgets 1 1); EvManifestImport a;
        EvModuleImport a; EvProgress MsgStillWorking; EvHostRegistryReady;
        EvProgress MsgAlmostReady; EvProgressClose; EvIsLoadedNext true] in
  run.1 = Ok () ∧ isLoaded run.2 = true
  ∧ widgetFactories run.2 = widgetFactories w
  ∧ hostRegistry run.2 = hostRegistry w
  ∧ inventory run.2 = inventory w
  ∧ trace run.2 = trace w ++ evs
  ∧ ¬ warning_surfaced evs
  ∧ of_kind KConsole evs = [].
Proof.
  intros Hres Hids Hload Hcors Hint Hplain Hreg run evs. subst run evs.
  rewrite (loadRuntimeWidgets_resolved env user appList cp app w Hres), Hids.
  rewrite load_batch_run.
  assert (Hst : batch_state env appList [a]
                = {| jsModules := [(a, jsModule)];
                     cleanupWidgetContextPath := [];
                     widgetCounter := 1 |}).
  { unfold batch_state, import_loop_state, import_state. simpl.
    by rewrite Hload, Hcors, Hint. }
  assert (Hex : batch_exports env appList [a] = exports_of a jsModule).
  { unfold batch_exports, all_exports. rewrite Hst. simpl.
    by rewrite app_nil_r. }
  destruct (scan_without_modules a jsModule Hplain) as (Ht & He & Hm).
  rewrite Hex, Ht.
  change (hostRegistry (add_events (preamble user) w)) with (hostRegistry w).
  destruct (hostRegistry w) as [|r0 reg] eqn:Hr; [done|].
  cbn [length Nat.ltb Nat.leb].
  rewrite Hst. cbn [cleanupWidgetContextPath]. rewrite auto_clean_nothing.
  assert (Hw : loaded_world env appList [a] (add_events (preamble user) w)
    = signal_loaded env (add_events
        (preamble user
         ++ [EvProgress (MsgLoadingWidgets 1 1); EvManifestImport a;
             EvModuleImport a; EvProgress MsgStillWorking; EvHostRegistryReady;
             EvProgress MsgAlmostReady; EvProgressClose]) w)).
  { unfold loaded_world, batch_definitions, batch_modules, scan_trace,
      import_trace. rewrite Hex, Hm, He. simpl.
    unfold import_events. rewrite Hload, Hcors, Hint. simpl.
    rewrite !add_events_app. simpl. done. }
  rewrite Hw. simpl. rewrite Hr.
  split; [done|]. split; [done|]. split; [done|]. split; [done|].
  split; [done|]. split; [by rewrite <- !app_assoc|].
  split; [|done].
  intros (text & detail & Hin).
  repeat (apply elem_of_cons in Hin as [?|Hin]; [done|]).
  by apply elem_of_nil in Hin.
Qed.

Lemma bundle_without_descriptors_loads_silently_witness :
  let run := loadRuntimeWidgets plain_env plain_world in
  is_loadable "a" = true
  ∧ run.1 = Ok () ∧ isLoaded run.2 = true
  ∧ widgetFactories run.2 = ∅
  ∧ inventory run.2 = [Sample.context ["a"]].
Proof.
  intros run.
  assert (Hres : resolved plain_env "alice" [Sample.cockpit (Some ["a"])]
                   "cockpit" (Sample.cockpit (Some ["a"])))
    by (split; reflexivity).
  pose proof (bundle_without_descriptors_loads_silently plain_env plain_world
                "alice" [Sample.cockpit (Some ["a"])] "cockpit"
                (Sample.cockpit (Some ["a"])) "a"
                [("VERSION", ExpPlain);
                 ("Service", ExpAnnotated [Some "Injectable"] (inr 9))]
                Hres eq_refl eq_refl eq_refl eq_refl) as H.
  destruct H as (H1 & H2 & H3 & _ & H5 & _).
  - repeat constructor.
  - discriminate.
  - split; [reflexivity|]. split; [exact H1|]. split; [exact H2|].
    split; [exact H3 | exact H5].
Defined.

(** C7, as stated, fails: in this very scenario the run surfaces no
    warning. *)
Lemma no_warning_for_bundle_without_descriptors :
  let run := loadRuntimeWidgets plain_env plain_world in
  run.1 = Ok () ∧ isLoaded run.2 = true ∧ widgetFactories run.2 = ∅
  ∧ inventory run.2 = inventory plain_world
  ∧ ¬ warning_surfaced (trace run.2).
Proof.
  split; [reflexivity|]. split; [reflexivity|]. split; [reflexivity|].
  split; [reflexivity|].
  intros (text & detail & Hin). vm_compute in Hin.
  repeat (apply elem_of_cons in Hin as [?|Hin]; [done|]).
  by apply elem_of_nil in Hin.
Qed.

(** ** Order of the work on the identifiers *)

Section blocks_facts.

Lemma drop_run_all cp blk l :
  Forall (λ x, x = cp) blk → drop_run cp (blk ++ l) = drop_run cp l.
Proof.
  induction 1 as [|x blk -> _ IH]; [done|].
  simpl. by rewrite String.eqb_refl.
Qed.

Lemma drop_run_suffix cp l : ∃ l1, l = l1 ++ drop_run cp l.
Proof.
  induction l as [|x l [l1 IH]]; [by exists []|].
  simpl. destruct (String.eqb x cp).
  - exists (x :: l1). simpl. by f_equal.
  - by exists [].
Qed.

Lemma drop_run_app cp l1 l2 :
  drop_run cp (l1 ++ l2)
  = match drop_run cp l1 with
    | [] => drop_run cp l2
    | x :: l => (x :: l) ++ l2
    end.
Proof.
  induction l1 as [|x l1 IH]; simpl; [by destruct (drop_run cp l2)|].
  destruct (String.eqb x cp); [apply IH | done].
Qed.

Lemma in_blocks_nil cps : in_blocks cps [] = true.
Proof. induction cps as [|cp cps IH]; [done|]. apply IH. Qed.

Lemma in_blocks_suffix cps l1 l2 :
  in_blocks cps (l1 ++ l2) = true → in_blocks cps l2 = true.
Proof.
  revert l1 l2. induction cps as [|cp cps IH]; intros l1 l2.
  - destruct l1; [done|]. simpl. discriminate.
  - simpl. rewrite drop_run_app.
    destruct (drop_run cp l1) as [|x l] eqn:Hd; [done|].
    intros H. apply IH in H.
    destruct (drop_run_suffix cp l2) as [l3 Hl3]. rewrite Hl3 in H.
    by apply IH in H.
Qed.

Lemma in_blocks_prefix cps l1 l2 :
  in_blocks cps (l1 ++ l2) = true → in_blocks cps l1 = true.
Proof.
  revert l1 l2. induction cps as [|cp cps IH]; intros l1 l2.
  - destruct l1; [done|]. simpl. discriminate.
  - simpl. rewrite drop_run_app.
    destruct (drop_run cp l1) as [|x l] eqn:Hd.
    + intros _. apply in_blocks_nil.
    + apply IH.
Qed.

Lemma in_blocks_cons cp cps blk l :
  Forall (λ x, x = cp) blk → in_blocks cps l = true →
  in_blocks (cp :: cps) (blk ++ l) = true.
Proof.
  intros Hb Hl. simpl. rewrite drop_run_all by done.
  destruct (drop_run_suffix cp l) as [l1 Hl1]. rewrite Hl1 in Hl.
  by apply in_blocks_suffix in Hl.
Qed.

Lemma in_blocks_bind cps (f : string → list string) :
  (∀ cp, Forall (λ x, x = cp) (f cp)) → in_blocks cps (cps ≫= f) = true.
Proof.
  intros Hf. induction cps as [|cp cps IH]; [done|].
  rewrite bind_cons. by apply in_blocks_cons.
Qed.

End blocks_facts.

Section subject_facts.
Context (env : Env) (appList : list IApplication).

Lemma subjects_app evs1 evs2 :
  subjects (evs1 ++ evs2) = subjects evs1 ++ subjects evs2.
Proof. apply omap_app. Qed.

Lemma subjects_bind {A} (f : A → list Event) (l : list A) :
  subjects (l ≫= f) = l ≫= (λ x, subjects (f x)).
Proof.
  induction l as [|x l IH]; [done|].
  by rewrite !bind_cons, subjects_app, IH.
Qed.

Lemma subjects_none evs :
  Forall (λ e, event_subject e = None) evs → subjects evs = [].
Proof.
  induction 1 as [|e evs He _ IH]; [done|].
  unfold subjects in *. simpl. by rewrite He.
Qed.

Lemma import_events_subjects total cp counter :
  subjects (import_events env appList total cp counter)
  = subjects (import_events env appList 0 cp 0)
  ∧ Forall (λ x, x = cp) (subjects (import_events env appList total cp counter)).
Proof.
  unfold import_events.
  destruct (is_loadable cp); [|by split].
  destruct (corsImport env cp) as [e|].
  - destruct (is_known_app appList cp); split; try done; by repeat constructor.
  - destruct (interleaved env cp); split; try done; by repeat constructor.
Qed.

Lemma import_loop_events_subjects total cps st :
  subjects (import_loop_events env appList total cps st)
  = cps ≫= (λ cp, subjects (import_events env appList 0 cp 0)).
Proof.
  revert st. induction cps as [|cp rest IH]; intros st; [done|].
  simpl. rewrite subjects_app, IH.
  by destruct (import_events_subjects total cp (widgetCounter st)) as [-> _].
Qed.

Lemma import_trace_in_blocks cps :
  in_blocks cps (subjects (import_trace env appList cps)) = true.
Proof.
  unfold import_trace. rewrite import_loop_events_subjects.
  apply in_blocks_bind. intros cp.
  by destruct (import_events_subjects 0 cp 0) as [_ ?].
Qed.

Lemma activation_events_subjects cp key exportedObj :
  Forall (λ x, x = cp) (subjects (activation_events cp key exportedObj)).
Proof.
  destruct exportedObj as [| |annotations activation]; simpl; try constructor.
  destruct (has_NgModule_annotation annotations); [|constructor].
  destruct activation; by repeat constructor.
Qed.

Lemma exports_subjects cp (jsModule : JsModule) :
  Forall (λ x, x = cp)
    (exports_of cp jsModule ≫= (λ x, subjects (activation_events x.1.1 x.1.2 x.2))).
Proof.
  induction jsModule as [|[key obj] rest IH]; [constructor|].
  unfold exports_of. rewrite fmap_cons, bind_cons. simpl.
  apply Forall_app_2; [apply activation_events_subjects | apply IH].
Qed.

Lemma visited_prefix {A} (f : Export → list A) exports :
  ∃ rest, exports ≫= f = (visited exports ≫= f) ++ rest.
Proof.
  induction exports as [|x exports [rest IH]]; [by exists []|].
  cbn [visited]. destruct (is_nullish x.2).
  - by exists ((x :: exports) ≫= f).
  - exists rest. by rewrite !bind_cons, IH, app_assoc.
Qed.

Lemma omap_bind {A B C} (f : A → option B) (g : B → list C) (l : list A) :
  omap f l ≫= g = l ≫= (λ x, from_option g [] (f x)).
Proof.
  induction l as [|x l IH]; [done|].
  rewrite bind_cons.
  change (omap f (x :: l))
    with (match f x with Some y => y :: omap f l | None => omap f l end).
  destruct (f x); [by rewrite bind_cons, IH | by rewrite IH].
Qed.

Lemma list_bind_assoc {A B C} (f : A → list B) (g : B → list C) (l : list A) :
  (l ≫= f) ≫= g = l ≫= (λ x, f x ≫= g).
Proof.
  induction l as [|x l IH]; [done|].
  by rewrite !bind_cons, bind_app, IH.
Qed.

Lemma imported_module_name cp m :
  imported_module env cp = Some m → m.1 = cp.
Proof.
  unfold imported_module. destruct (is_loadable cp); [|done].
  destruct (corsImport env cp); [done|].
  destruct (interleaved env cp); [done|]. by intros [= <-].
Qed.

Lemma batch_jsModules cps :
  jsModules (batch_state env appList cps) = omap (imported_module env) cps.
Proof. unfold batch_state. by rewrite import_loop_jsModules. Qed.

Lemma activation_pass_in_blocks cps :
  in_blocks cps (subjects (scan_events (batch_exports env appList cps))) = true.
Proof.
  set (f := λ x : Export, activation_events x.1.1 x.1.2 x.2).
  assert (Hfull :
    in_blocks cps (subjects (batch_exports env appList cps ≫= f)) = true).
  { unfold batch_exports, all_exports. rewrite batch_jsModules.
    rewrite subjects_bind, omap_bind, list_bind_assoc.
    apply in_blocks_bind. intros cp.
    destruct (imported_module env cp) as [m|] eqn:Hm; simpl; [|constructor].
    rewrite <- (imported_module_name cp m Hm). apply exports_subjects. }
  destruct (visited_prefix f (batch_exports env appList cps)) as [rest Hrest].
  rewrite Hrest, subjects_app in Hfull.
  by apply in_blocks_prefix in Hfull.
Qed.

End subject_facts.

Section pass_facts.
Context (env : Env) (appList : list IApplication).

Lemma import_events_manifest total cp counter :
  of_kind KManifest (import_events env appList total cp counter)
  = if is_loadable cp then [EvManifestImport cp] else [].
Proof.
  unfold import_events. destruct (is_loadable cp); [|done].
  destruct (corsImport env cp).
  - by destruct (is_known_app appList cp).
  - by destruct (interleaved env cp).
Qed.

Lemma import_loop_events_manifest total cps st :
  of_kind KManifest (import_loop_events env appList total cps st)
  = EvManifestImport <$> filter (λ cp, is_loadable cp = true) cps.
Proof.
  revert st. induction cps as [|cp rest IH]; intros st; [done|].
  simpl. rewrite of_kind_app, IH, import_events_manifest, filter_cons.
  destruct (is_loadable cp); by case_decide.
Qed.

Lemma loadWidget_events_subjects d : subjects (loadWidget_events env d) = [].
Proof.
  unfold loadWidget_events. by destruct (build_factories env d.1 d.2).
Qed.

Lemma registration_trace_subjects defs :
  subjects (registration_trace env defs) = [].
Proof.
  assert (Hd : subjects (defs ≫= loadWidget_events env) = []).
  { induction defs as [|d defs IH]; [done|].
    by rewrite bind_cons, subjects_app, loadWidget_events_subjects, IH. }
  unfold registration_trace. by rewrite !subjects_app, Hd.
Qed.

Lemma update_events_subjects upd : kinds_in [KUpdate] upd → subjects upd = [].
Proof.
  intros H. apply subjects_none. eapply Forall_impl; [exact H|].
  intros e He. apply list_elem_of_singleton in He. by destruct e as [| | | | | |[]| | | | | | |].
Qed.

End pass_facts.

(** C6, as amended. Once the application is resolved, the calls of a run
    are: the preamble; the import pass; the 'Still Working' message; the
    activation pass; then calls that concern no identifier. The import pass
    works on the identifiers one after the other, in the order of the set:
    manifest and entry-module import of one identifier are over before the
    next identifier begins, each loadable identifier has its manifest
    requested, and no module is activated in this pass. Extraction and
    activation come in a second pass, again identifier by identifier in the
    same order, in which nothing is imported. *)
Theorem import_pass_then_activation_pass
    (env : Env) (w : World) (user : string) (appList : list IApplication)
    (cp : string) (app : IApplication) :
  resolved env user appList cp app →
  let ids := resolve_contextPaths app (context_of app w) in
  let import_pass := import_trace env appList ids in
  let activation_pass := scan_events (batch_exports env appList ids) in
  ∃ rest,
    trace (loadRuntimeWidgets env w).2
    = trace w ++ preamble user ++ import_pass
      ++ [EvProgress MsgStillWorking] ++ activation_pass ++ rest
    ∧ in_blocks ids (subjects import_pass) = true
    ∧ of_kind KManifest import_pass
      = EvManifestImport <$> filter (λ id, is_loadable id = true) ids
    ∧ of_kind KActivate import_pass = []
    ∧ in_blocks ids (subjects activation_pass) = true
    ∧ of_kind KManifest activation_pass = []
    ∧ of_kind KModule activation_pass = []
    ∧ subjects rest = [].
Proof.
  intros Hres ids import_pass activation_pass.
  subst ids import_pass activation_pass.
  rewrite (loadRuntimeWidgets_resolved env user appList cp app w Hres).
  set (rc := context_of app w). set (ids := resolve_contextPaths app rc).
  assert (Hparts :
    in_blocks ids (subjects (import_trace env appList ids)) = true
    ∧ of_kind KManifest (import_trace env appList ids)
      = EvManifestImport <$> filter (λ id, is_loadable id = true) ids
    ∧ of_kind KActivate (import_trace env appList ids) = []
    ∧ in_blocks ids (subjects (scan_events (batch_exports env appList ids)))
      = true
    ∧ of_kind KManifest (scan_events (batch_exports env appList ids)) = []
    ∧ of_kind KModule (scan_events (batch_exports env appList ids)) = []).
  { split; [apply import_trace_in_blocks|].
    split; [apply import_loop_events_manifest|].
    split.
    { eapply of_kind_absent; [apply import_loop_events_kinds | solve_not_in]. }
    split; [apply activation_pass_in_blocks|].
    split; (eapply of_kind_absent; [apply scan_events_kinds | solve_not_in]). }
  destruct Hparts as (H1 & H2 & H3 & H4 & H5 & H6).
  destruct (load_batch_trace env appList rc ids (add_events (preamble user) w))
    as [[Hr ->]|(upd & Ht & Hupd & _)].
  - exists []. split; [|done].
    unfold scan_trace. simpl. by rewrite <- !app_assoc, app_nil_r.
  - exists (registration_trace env (batch_definitions env appList ids) ++ upd).
    split.
    + rewrite Ht. unfold scan_trace. simpl. by rewrite <- !app_assoc.
    + repeat (split; [done|]).
      by rewrite subjects_app, registration_trace_subjects,
        (update_events_subjects upd Hupd).
Qed.

Lemma import_pass_then_activation_pass_witness :
  let w := initial_world [100] [] [] in
  let ids := ["a"; "b"] in
  ∃ rest,
    trace (loadRuntimeWidgets two_bundles_env w).2
    = preamble "alice" ++ import_trace two_bundles_env
                            [Sample.cockpit (Some ["a"; "b"])] ids
      ++ [EvProgress MsgStillWorking]
      ++ scan_events (batch_exports two_bundles_env
                        [Sample.cockpit (Some ["a"; "b"])] ids)
      ++ rest
    ∧ subjects rest = [].
Proof.
  intros w ids.
  assert (Hres : resolved two_bundles_env "alice"
                   [Sample.cockpit (Some ["a"; "b"])] "cockpit"
                   (Sample.cockpit (Some ["a"; "b"])))
    by (split; reflexivity).
  destruct (import_pass_then_activation_pass two_bundles_env w "alice"
              [Sample.cockpit (Some ["a"; "b"])] "cockpit"
              (Sample.cockpit (Some ["a"; "b"])) Hres)
    as (rest & Ht & _ & _ & _ & _ & _ & _ & Hs).
  exists rest. split; [exact Ht | exact Hs].
Defined.

(** C6, as stated, fails: with the identifiers [a] and [b], the manifest and
    the entry module of [b] are imported before the module of [a] is
    activated, so the work on [a] is not over when the work on [b]
    begins. *)
Lemma activation_of_first_follows_import_of_second :
  let run := loadRuntimeWidgets two_bundles_env (initial_world [100] [] []) in
  subjects (trace run.2) = ["a"; "a"; "b"; "b"; "a"; "b"]
  ∧ in_blocks ["a"; "b"] (subjects (trace run.2)) = false
  ∧ ∃ before between after,
      trace run.2
      = before ++ [EvManifestImport "b"] ++ between
        ++ [EvActivate "a" "AModule"] ++ after.
Proof.
  split; [reflexivity|]. split; [reflexivity|].
  exists [EvProgress MsgLoading; EvFetchApplications "alice"; EvInventoryList;
          EvProgress (MsgLoadingWidgets 1 2); EvManifestImport "a";
          EvModuleImport "a"; EvProgress (MsgLoadingWidgets 2 2)],
         [EvModuleImport "b"; EvProgress MsgStillWorking],
         [EvActivate "b" "BModule"; EvHostRegistryReady;
          EvProgress MsgAlmostReady; EvLoadWidget 7 1; EvRegistryAdd 1;
          EvLoadWidget 8 3;
          EvConsoleError
            (LogWidgetFailed 3 (Error "No component factory found for Broken"));
          EvDanger widget_failed_text "No component factory found for Broken";
          EvLoadWidget 8 2; EvRegistryAdd 2; EvProgressClose;
          EvIsLoadedNext true].
  reflexivity.
Qed.

(** ** A resolved run, pass by pass *)

Section resolved_run.
Context (env : Env) (w : World) (user : string) (appList : list IApplication)
        (cp : string) (app : IApplication).
Context (Hres : resolved env user appList cp app).

Lemma resolved_run_trace :
  let ids := resolve_contextPaths app (context_of app w) in
  ∃ rest,
    trace (loadRuntimeWidgets env w).2
    = trace w ++ preamble user ++ import_trace env appList ids
      ++ [EvProgress MsgStillWorking]
      ++ scan_events (batch_exports env appList ids) ++ rest
    ∧ (rest = []
       ∨ ∃ upd, rest = registration_trace env
                         (batch_definitions env appList ids) ++ upd
                ∧ kinds_in [KUpdate] upd).
Proof.
  intros ids. subst ids.
  rewrite (loadRuntimeWidgets_resolved env user appList cp app w Hres).
  set (rc := context_of app w). set (ids := resolve_contextPaths app rc).
  destruct (load_batch_trace env appList rc ids (add_events (preamble user) w))
    as [[Hr ->]|(upd & Ht & Hupd & _)].
  - exists []. split; [|by left].
    unfold scan_trace. simpl. by rewrite <- !app_assoc, app_nil_r.
  - exists (registration_trace env (batch_definitions env appList ids) ++ upd).
    split; [|right; by exists upd].
    rewrite Ht. unfold scan_trace. simpl. by rewrite <- !app_assoc.
Qed.

(** The runtime context record after a run that returned. *)
Lemma resolved_run_inventory r paths :
  context_of app w = Some r →
  widgetContextPaths r = Some paths →
  (loadRuntimeWidgets env w).1 = Ok () →
  let ids := resolve_contextPaths app (context_of app w) in
  let stale := filter (λ id, is_stale env appList id = true) ids in
  let paths' := (cleaned paths stale).1 in
  inventory (loadRuntimeWidgets env w).2
  = (if (cleaned paths stale).2
     then update_paths (rc_id r) paths' <$> inventory w
     else inventory w)
  ∧ {| rc_id := rc_id r; appId := appId r; widgetContextPaths := Some paths' |}
    ∈ inventory (loadRuntimeWidgets env w).2.
Proof.
  intros Hrc Hp Hok. cbn zeta. revert Hok.
  rewrite (loadRuntimeWidgets_resolved env user appList cp app w Hres).
  rewrite load_batch_run, Hrc.
  set (ids := resolve_contextPaths app (Some r)).
  destruct (scan_throws (batch_exports env appList ids));
    [intros Hok; simpl in Hok; discriminate Hok|].
  destruct (0 <? length (hostRegistry (add_events (preamble user) w)))%nat.
  2:{ intros Hok; simpl in Hok; discriminate Hok. }
  rewrite (auto_clean_some env r paths) by done.
  assert (Hstale : cleanupWidgetContextPath (batch_state env appList ids)
                   = filter (λ id, is_stale env appList id = true) ids).
  { unfold batch_state. by rewrite import_loop_cleanup. }
  rewrite Hstale.
  set (stale := filter (λ id, is_stale env appList id = true) ids).
  assert (Hin : r ∈ inventory w).
  { unfold context_of, find_runtime_context in Hrc.
    apply find_some in Hrc as [Hin _]. apply list_elem_of_In in Hin.
    by apply (subseteq_take 2000). }
  destruct (cleaned paths stale).2 eqn:Hch.
  - rewrite inventory_update_run.
    destruct (inventoryUpdateError env);
      [intros Hok; simpl in Hok; discriminate Hok|].
    intros _. cbn [fst snd].
    unfold updated, set_inventory, add_events, set_trace. cbn [inventory].
    rewrite !loaded_world_inventory. cbn [inventory].
    split; [done|].
    apply list_elem_of_fmap. exists r. split; [|exact Hin].
    unfold update_paths. by rewrite String.eqb_refl.
  - intros _. cbn [fst snd]. rewrite !loaded_world_inventory.
    change (inventory (add_events (preamble user) w)) with (inventory w).
    split; [done|].
    rewrite (cleaned_unchanged paths stale Hch), <- Hp. by destruct r.
Qed.

End resolved_run.

Lemma occurrences_filter_NoDup (P : string → Prop) `{∀ x, Decision (P x)}
    (x : string) (l : list string) :
  NoDup l → x ∈ l →
  occurrences x (filter P l) = if decide (P x) then 1 else 0.
Proof.
  intros Hnd Hin. induction Hnd as [|y l Hy Hnd IH]; [by apply elem_of_nil in Hin|].
  rewrite filter_cons.
  apply elem_of_cons in Hin as [->|Hin].
  - assert (H0 : occurrences y (filter P l) = 0).
    { apply occurrences_zero. intros Hf. apply list_elem_of_filter in Hf as [_ ?].
      done. }
    destruct (decide (P y)); [|done].
    rewrite occurrences_cons, H0. by rewrite bool_decide_eq_true_2.
  - destruct (decide (P y)); [|by apply IH].
    rewrite occurrences_cons, IH by done.
    rewrite bool_decide_eq_false_2; [done|]. by intros ->.
Qed.

(** ** Identifiers whose manifest cannot be imported *)




(** A bundle deleted behind the loader's back: [a] loads and provides [w1],
    the manifest of [b] is gone and so is its application. After the run
    the table holds [w1] only and the stored identifier list is [a]. *)
Example deleted_bundle_is_cleaned_up :
  let run := loadRuntimeWidgets stale_bundle_env stale_bundle_world in
  run.1 = Ok () ∧ isLoaded run.2 = true
  ∧ map_to_list (widgetFactories run.2)
    = [("w1", {| componentFactory := 701; configComponentFactory := None;
                 injector := ModuleInjector 7 |})]
  ∧ inventory run.2 = [Sample.context ["a"]]
  ∧ of_kind KUpdate (trace run.2) = [EvInventoryUpdate "rc" ["a"]].
Proof. repeat split; reflexivity. Qed.

(** ** The empty identifier *)

Section blank_facts.
Context (env : Env) (appList : list IApplication).

Lemma is_loadable_nonempty id : is_loadable id = true → id ≠ blank.
Proof. by intros H ->. Qed.

Lemma import_one_blank total st w :
  import_one env appList total blank st w = (Ok st, w).
Proof. done. Qed.

Lemma import_loop_skips_blank total cps st w :
  import_loop env appList total cps st w
  = import_loop env appList total (filter (λ id, id ≠ blank) cps) st w.
Proof.
  revert st w. induction cps as [|id cps IH]; intros st w; [done|].
  rewrite filter_cons. destruct (decide (id ≠ blank)) as [Hne|Heq].
  - simpl. unfold mbind, M_bind. rewrite import_one_run. apply IH.
  - apply dec_stable in Heq. subst id. simpl. unfold mbind, M_bind.
    rewrite import_one_blank. apply IH.
Qed.

Lemma import_state_counter id st :
  widgetCounter (import_state env appList id st)
  = if is_loadable id then S (widgetCounter st) else widgetCounter st.
Proof.
  unfold import_state. destruct (is_loadable id); [|done].
  by destruct (corsImport env id).
Qed.

(** The progress messages of the import pass show the length of the whole
    identifier set as total, and a counter that only the loadable
    identifiers advance. *)
Lemma import_loop_events_progress total cps st k n :
  EvProgress (MsgLoadingWidgets k n)
    ∈ import_loop_events env appList total cps st →
  n = total
  ∧ widgetCounter st < k
      ≤ widgetCounter st + length (filter (λ id, is_loadable id = true) cps).
Proof.
  revert st. induction cps as [|id cps IH]; intros st Hin.
  - by apply elem_of_nil in Hin.
  - simpl in Hin. apply elem_of_app in Hin as [Hin|Hin].
    + unfold import_events in Hin. rewrite filter_cons.
      destruct (is_loadable id) eqn:Hl; [|by apply elem_of_nil in Hin].
      rewrite decide_True by done. simpl.
      apply elem_of_cons in Hin as [[= -> ->]|Hin]; [lia|].
      apply elem_of_cons in Hin as [?|Hin]; [done|].
      destruct (corsImport env id).
      * destruct (is_known_app appList id);
          repeat (apply elem_of_cons in Hin as [?|Hin]; [done|]);
          by apply elem_of_nil in Hin.
      * apply elem_of_cons in Hin as [?|Hin]; [done|].
        destruct (interleaved env id);
          repeat (apply elem_of_cons in Hin as [?|Hin]; [done|]);
          by apply elem_of_nil in Hin.
    + apply IH in Hin as [-> Hk]. split; [done|].
      rewrite import_state_counter in Hk. rewrite filter_cons.
      destruct (is_loadable id); [rewrite decide_True by done; simpl; lia|].
      rewrite decide_False by done. lia.
Qed.

Lemma import_events_loadable total id counter :
  Forall (λ x, is_loadable x = true)
    (subjects (import_events env appList total id counter)).
Proof.
  destruct (import_events_subjects env appList total id counter) as [_ Hs].
  unfold import_events in *. destruct (is_loadable id) eqn:Hl; [|constructor].
  eapply Forall_impl; [exact Hs|]. by intros x ->.
Qed.

Lemma import_trace_loadable cps :
  Forall (λ x, is_loadable x = true) (subjects (import_trace env appList cps)).
Proof.
  unfold import_trace. generalize empty_import_state. generalize (length cps).
  induction cps as [|id cps IH]; intros total st; [constructor|].
  simpl. rewrite subjects_app.
  apply Forall_app_2; [apply import_events_loadable | apply IH].
Qed.

Lemma imported_module_loadable id m :
  imported_module env id = Some m → is_loadable m.1 = true.
Proof.
  intros Hm. rewrite (imported_module_name env id m Hm).
  unfold imported_module in Hm. by destruct (is_loadable id).
Qed.

Lemma activation_pass_loadable cps :
  Forall (λ x, is_loadable x = true)
    (subjects (scan_events (batch_exports env appList cps))).
Proof.
  unfold scan_events. rewrite subjects_bind.
  apply Forall_forall. intros x Hx.
  apply list_elem_of_bind in Hx as ([[id key] obj] & Hx & Hv). simpl in Hx.
  assert (Hid : x = id).
  { pose proof (activation_events_subjects id key obj) as Hs.
    rewrite Forall_forall in Hs. by apply Hs. }
  subst x.
  assert (Hin : (id, key, obj) ∈ batch_exports env appList cps).
  { clear Hx. revert Hv. generalize (batch_exports env appList cps).
    intros l. induction l as [|y l IH]; simpl; [by intros ?%elem_of_nil|].
    destruct (is_nullish y.2); [by intros ?%elem_of_nil|].
    intros [->|Hv]%elem_of_cons; [by left | right; by apply IH]. }
  unfold batch_exports, all_exports in Hin. rewrite batch_jsModules in Hin.
  apply list_elem_of_bind in Hin as (m & Hin & Hm).
  apply list_elem_of_omap in Hm as (id' & _ & Hm).
  unfold exports_of in Hin. apply list_elem_of_fmap in Hin as (kv & [= -> _ _] & _).
  by apply (imported_module_loadable id').
Qed.

Lemma blank_not_stale : is_stale env appList blank = false.
Proof. done. Qed.

End blank_facts.

(** C10. Let the resolved identifier set contain the empty string. The loop
    body does nothing at all for it (no call, no change of the local
    variables), so the import loop behaves as on the set without it. In the
    calls of the whole run no manifest request, import, console entry or
    activation concerns the empty identifier, and it is not on the clean-up
    list; when the run returns and the runtime context has a path list, the
    empty identifier occurs in it as often as before. Yet every progress
    message of the import pass shows the length of the whole set as total,
    and a counter that stays below it. *)
Theorem empty_identifier_is_skipped
    (env : Env) (w : World) (user : string) (appList : list IApplication)
    (cp : string) (app : IApplication) :
  resolved env user appList cp app →
  let ids := resolve_contextPaths app (context_of app w) in
  let run := loadRuntimeWidgets env w in
  blank ∈ ids →
  (∀ total st w1, import_one env appList total blank st w1 = (Ok st, w1))
  ∧ (∀ total cps st w1,
       import_loop env appList total cps st w1
       = import_loop env appList total (filter (λ id, id ≠ blank) cps) st w1)
  ∧ (∃ evs rest,
       trace run.2 = trace w ++ evs
       ∧ evs = preamble user ++ import_trace env appList ids ++ rest
       ∧ blank ∉ subjects evs)
  ∧ (∀ k n, EvProgress (MsgLoadingWidgets k n) ∈ import_trace env appList ids →
            n = length ids ∧ 0 < k < n)
  ∧ (blank ∉ cleanupWidgetContextPath (batch_state env appList ids))
  ∧ (∀ r paths,
       context_of app w = Some r → widgetContextPaths r = Some paths →
       run.1 = Ok () →
       ∃ paths',
         {| rc_id := rc_id r; appId := appId r;
            widgetContextPaths := Some paths' |} ∈ inventory run.2
         ∧ occurrences blank paths' = occurrences blank paths).
Proof.
  intros Hres ids run Hin. subst run.
  assert (Hstale : cleanupWidgetContextPath (batch_state env appList ids)
                   = filter (λ id, is_stale env appList id = true) ids).
  { unfold batch_state. by rewrite import_loop_cleanup. }
  split; [intros; apply import_one_blank|].
  split; [intros; apply import_loop_skips_blank|].
  split; [|split; [|split]].
  - destruct (resolved_run_trace env w user appList cp app Hres)
      as (rest & Ht & Hrest).
    eexists _, _. split; [exact Ht|]. split; [reflexivity|].
    fold ids.
    assert (Hsub : Forall (λ x, is_loadable x = true)
      (subjects (preamble user ++ import_trace env appList ids
                 ++ [EvProgress MsgStillWorking]
                 ++ scan_events (batch_exports env appList ids) ++ rest))).
    { rewrite !subjects_app. repeat apply Forall_app_2.
      - constructor.
      - apply import_trace_loadable.
      - constructor.
      - apply activation_pass_loadable.
      - destruct Hrest as [->|(upd & -> & Hupd)]; [constructor|].
        rewrite subjects_app, registration_trace_subjects,
          (update_events_subjects upd Hupd). constructor. }
    intros Hblank. rewrite Forall_forall in Hsub. by apply Hsub in Hblank.
  - intros k n Hk. unfold import_trace in Hk.
    apply import_loop_events_progress in Hk as [-> Hk]. split; [done|].
    simpl in Hk.
    assert (Hlt : length (filter (λ id, is_loadable id = true) ids) < length ids)
      by (by apply (length_filter_lt _ _ blank)).
    lia.
  - rewrite Hstale. intros Hs. by apply list_elem_of_filter in Hs as [? _].
  - intros r paths Hrc Hp Hok.
    destruct (resolved_run_inventory env w user appList cp app Hres r paths
                Hrc Hp Hok) as [_ Hrec].
    eexists. split; [exact Hrec|].
    rewrite cleaned_occurrences.
    rewrite (occurrences_filter_NoDup _ blank (resolve_contextPaths app (context_of app w)));
      [|apply resolve_contextPaths_NoDup|exact Hin].
    rewrite decide_False by done. lia.
Qed.

Lemma empty_identifier_is_skipped_witness :
  let run := loadRuntimeWidgets blank_env blank_world in
  blank ∈ [blank; "a"]
  ∧ run.1 = Ok ()
  ∧ (∀ k n, EvProgress (MsgLoadingWidgets k n)
              ∈ import_trace blank_env [Sample.cockpit None] [blank; "a"] →
            n = 2 ∧ 0 < k < n)
  ∧ ∃ paths',
      {| rc_id := "rc"; appId := Some "2"; widgetContextPaths := Some paths' |}
        ∈ inventory run.2
      ∧ occurrences blank paths' = 1.
Proof.
  intros run.
  assert (Hres : resolved blank_env "alice" [Sample.cockpit None] "cockpit"
                   (Sample.cockpit None))
    by (split; reflexivity).
  assert (Hin : blank ∈ [blank; "a"]) by (by left).
  destruct (empty_identifier_is_skipped blank_env blank_world "alice"
              [Sample.cockpit None] "cockpit" (Sample.cockpit None) Hres Hin)
    as (_ & _ & _ & Hp & _ & Hinv).
  split; [exact Hin|]. split; [reflexivity|]. split; [exact Hp|].
  exact (Hinv (Sample.context [blank; "a"]) [blank; "a"] eq_refl eq_refl eq_refl).
Defined.

(** * Further properties *)

(** ** [contextPathFromURL] *)

Section url_facts.

Lemma append_cons c s t : String c s +:+ t = String c (s +:+ t).
Proof. reflexivity. Qed.

Lemma append_nil_l s : EmptyString +:+ s = s.
Proof. reflexivity. Qed.

Lemma append_assoc s t u : (s +:+ t) +:+ u = s +:+ (t +:+ u).
Proof. induction s as [|c s IH]; [done|]. by rewrite !append_cons, IH. Qed.

Lemma strip_prefix_app p s : strip_prefix p (p +:+ s) = Some s.
Proof.
  induction p as [|c p IH]; [done|].
  rewrite ?append_cons; simpl. by rewrite bool_decide_eq_true_2.
Qed.

Lemma strip_prefix_Some p s t : strip_prefix p s = Some t → s = p +:+ t.
Proof.
  revert s. induction p as [|c p IH]; intros s H; simpl in H.
  - by simplify_eq.
  - destruct s as [|b s]; [done|].
    case_bool_decide; [|done]. subst. rewrite append_cons. f_equal. by apply IH.
Qed.

Lemma plain_segment_no_terminator s : plain_segment s = true → no_terminator s = true.
Proof.
  induction s as [|c s IH]; [done|]. simpl.
  intros [[_ H1]%andb_prop H2]%andb_prop. rewrite H1. simpl. by apply IH.
Qed.

(** The lazy group stops at the first [/]. *)
Lemma lazy_until_slash_plain cp rest :
  plain_segment cp = true →
  lazy_until_slash (cp +:+ String slash rest) = Some cp.
Proof.
  induction cp as [|c cp IH];
    [intros _; rewrite ?append_nil_l; simpl; by rewrite ?bool_decide_eq_true_2|].
  simpl. intros [[H0 H1]%andb_prop H2]%andb_prop.
  rewrite ?append_cons; simpl.
  apply negb_true_iff in H0, H1. rewrite H0, H1, IH by done. done.
Qed.

Lemma lazy_until_slash_Some s cp :
  lazy_until_slash s = Some cp →
  plain_segment cp = true ∧ ∃ rest, s = cp +:+ String slash rest.
Proof.
  revert cp. induction s as [|c s IH]; intros cp H; simpl in H; [done|].
  case_bool_decide as Hc.
  - simplify_eq. split; [done|]. by exists s.
  - destruct (is_line_terminator c) eqn:Ht; [done|].
    destruct (lazy_until_slash s) as [cp'|] eqn:Hs; [|done].
    simpl in H. simplify_eq.
    destruct (IH cp' eq_refl) as [Hp [rest ->]].
    split.
    + simpl. rewrite Ht, Hp. by rewrite bool_decide_eq_false_2.
    + by exists rest.
Qed.

Lemma lazy_until_slash_is_Some cp rest :
  no_terminator cp = true →
  is_Some (lazy_until_slash (cp +:+ String slash rest)).
Proof.
  induction cp as [|c cp IH];
    [intros _; rewrite ?append_nil_l; simpl; by rewrite ?bool_decide_eq_true_2|].
  simpl. intros [H1 H2]%andb_prop. apply negb_true_iff in H1.
  rewrite ?append_cons; simpl.
  case_bool_decide; [done|]. rewrite H1.
  destruct (IH H2) as [x ->]. done.
Qed.

Lemma contextPathFromURL_unfold p :
  contextPathFromURL p
  = match strip_prefix "/apps/" p ≫= lazy_until_slash with
    | Some cp => Some cp
    | None => match p with
              | EmptyString => None
              | String _ rest => contextPathFromURL rest
              end
    end.
Proof. by destruct p. Qed.

Lemma contextPathFromURL_Some p cp :
  contextPathFromURL p = Some cp →
  plain_segment cp = true
  ∧ ∃ before after, p = before +:+ "/apps/" +:+ cp +:+ "/" +:+ after.
Proof.
  revert cp. induction p as [|c p IH]; intros cp.
  - simpl. done.
  - rewrite contextPathFromURL_unfold.
    destruct (strip_prefix "/apps/" (String c p) ≫= lazy_until_slash)
      as [cp'|] eqn:Hm.
    + intros ?; simplify_eq.
      apply bind_Some in Hm as (t & Hs & Hl).
      apply strip_prefix_Some in Hs.
      apply lazy_until_slash_Some in Hl as [Hp [after ->]].
      split; [done|]. exists EmptyString, after. by rewrite Hs.
    + intros H. destruct (IH cp H) as [Hp (before & after & ->)].
      split; [done|]. by exists (String c before), after.
Qed.

End url_facts.

(** X1. A pathname that begins with [/apps/<cp>/], where [<cp>] holds no
    [/] and no line terminator, has the context path [<cp>], whatever
    follows. *)
Theorem contextPathFromURL_of_app_url (cp rest : string) :
  plain_segment cp = true →
  contextPathFromURL ("/apps/" +:+ cp +:+ "/" +:+ rest) = Some cp.
Proof.
  intros Hp. rewrite contextPathFromURL_unfold.
  rewrite strip_prefix_app. simpl.
  change ("/" +:+ rest) with (String slash rest).
  by rewrite lazy_until_slash_plain.
Qed.

Lemma contextPathFromURL_of_app_url_witness :
  plain_segment "cockpit" = true
  ∧ contextPathFromURL "/apps/cockpit/index.html" = Some "cockpit".
Proof.
  split; [reflexivity|].
  apply (contextPathFromURL_of_app_url "cockpit" "index.html"). reflexivity.
Defined.

(** X2. What [contextPathFromURL] returns holds no [/] and no line
    terminator and stands in the pathname between [/apps/] and a [/]. The
    call throws (there is no match to index) exactly for the pathnames
    that do not hold [/apps/] followed, with no line terminator in
    between, by a [/]. *)
Theorem contextPathFromURL_finds_a_segment_or_throws (pathname : string) :
  match contextPathFromURL pathname with
  | Some cp =>
      plain_segment cp = true
      ∧ ∃ before after,
          pathname = before +:+ "/apps/" +:+ cp +:+ "/" +:+ after
  | None =>
      ¬ ∃ before cp after,
          pathname = before +:+ "/apps/" +:+ cp +:+ "/" +:+ after
          ∧ no_terminator cp = true
  end.
Proof.
  destruct (contextPathFromURL pathname) as [cp|] eqn:Hp.
  { by apply contextPathFromURL_Some. }
  intros (before & cp & after & -> & Hcp).
  revert Hp. induction before as [|c before IH].
  - change (EmptyString +:+ ?s) with s.
    rewrite contextPathFromURL_unfold, strip_prefix_app. simpl.
    change ("/" +:+ after) with (String slash after).
    by destruct (lazy_until_slash_is_Some cp after Hcp) as [x ->].
  - rewrite append_cons, contextPathFromURL_unfold.
    destruct (strip_prefix "/apps/" _ ≫= lazy_until_slash); [done|].
    exact IH.
Qed.

(** ** The patched [loadComponent] *)

Section render_facts.
Context (env : Env).

Lemma by_mode_component {A} this (a b : A) :
  mode this = "component" → by_mode this a b = a.
Proof. unfold by_mode. by intros ->. Qed.

Lemma by_mode_other {A} this (a b : A) :
  mode this ≠ "component" → by_mode this a b = b.
Proof.
  unfold by_mode. intros H.
  destruct (String.eqb_spec (mode this) "component"); done.
Qed.

Lemma loadComponent_flagged w this dc :
  dc ∈ runtimeLoaded w →
  loadComponent env w this (Some dc)
  = match widgetFactories w !! componentId this with
    | None =>
        set_error (Some (TypeError "Cannot destructure property of undefined"))
          (set_error None this)
    | Some f =>
        match by_mode this (Some (componentFactory f)) (configComponentFactory f) with
        | Some cf => rendered cf (Some (injector f)) this
        | None =>
            set_error (Some (TypeError "Cannot read property 'create' of undefined"))
              (set_host None (set_error None this))
        end
    end.
Proof.
  intros Hin. unfold loadComponent. rewrite bool_decide_eq_true_2 by done.
  destruct this as [cid md cfg er hs wt]. simpl.
  destruct (widgetFactories w !! cid) as [f|]; [|done].
  unfold by_mode. simpl. by destruct (String.eqb md "component"), (configComponentFactory f).
Qed.

Lemma loadComponent_static w this dc :
  dc ∉ runtimeLoaded w →
  loadComponent env w this (Some dc)
  = match by_mode this (Some (component (defn env dc)))
                       (configComponent (defn env dc)) with
    | None =>
        set_error (Some (Error "No component factory found for undefined"))
          (set_error None this)
    | Some c =>
        match hostResolveComponentFactory env c with
        | inl ex => set_error (Some ex) (set_error None this)
        | inr cf => rendered cf None this
        end
    end.
Proof.
  intros Hin. unfold loadComponent. rewrite bool_decide_eq_false_2 by done.
  destruct this as [cid md cfg er hs wt]. simpl.
  unfold by_mode. simpl.
  destruct (if String.eqb md "component" then _ else _) as [c|]; [|done].
  by destruct (hostResolveComponentFactory env c).
Qed.

End render_facts.

(** X3. Whatever it is given, the patched [loadComponent] leaves the
    instance in one of two states: no error and a view that shows a
    component carrying the instance's [config], or an error and a view that
    is as before or empty. An error left by an earlier attempt plays no
    part, and the id, mode, config and pending subscriptions of the instance
    are not touched. *)
Theorem loadComponent_renders_or_records_error
    (env : Env) (w : World) (this : DynamicComponentComponent)
    (dynamicComponent : option Ref) :
  let after := loadComponent env w this dynamicComponent in
  ((error after = None
    ∧ ∃ c, host after = Some c ∧ ref_config c = Some (config this))
   ∨ (is_Some (error after) ∧ (host after = host this ∨ host after = None)))
  ∧ (∀ e, loadComponent env w (set_error e this) dynamicComponent = after)
  ∧ componentId after = componentId this ∧ mode after = mode this
  ∧ config after = config this ∧ waiting after = waiting this.
Proof.
  intros after. subst after.
  destruct dynamicComponent as [dc|].
  2:{ simpl. split; [right; split; [by eexists|by left]|]. done. }
  destruct (decide (dc ∈ runtimeLoaded w)) as [Hin|Hin].
  - split; [|split].
    + rewrite loadComponent_flagged by done.
      destruct (widgetFactories w !! componentId this) as [f|];
        [|right; split; [by eexists|by left]].
      destruct (by_mode this _ _) as [cf|].
      * left. split; [done|]. by eexists.
      * right. split; [by eexists|by right].
    + intros e. by rewrite !loadComponent_flagged.
    + rewrite loadComponent_flagged by done.
      destruct (widgetFactories w !! componentId this) as [f|]; [|done].
      by destruct (by_mode this _ _).
  - split; [|split].
    + rewrite loadComponent_static by done.
      destruct (by_mode this _ _) as [c|];
        [|right; split; [by eexists|by left]].
      destruct (hostResolveComponentFactory env c).
      * right. split; [by eexists|by left].
      * left. split; [done|]. by eexists.
    + intros e. by rewrite !loadComponent_static.
    + rewrite loadComponent_static by done.
      destruct (by_mode this _ _) as [c|]; [|done].
      by destruct (hostResolveComponentFactory env c).
Qed.

(** X4. A definition that carries the runtime flag is rendered from the
    loader's table: in mode [component] with the component factory stored
    under the instance's id and the injector stored with it; in any other
    mode with the stored configuration factory, and when the entry has none
    the view is emptied and an error recorded. When the table has no entry
    under the id, the error is recorded before the view is touched. The
    definition's own classes and the host's resolver play no part. *)
Theorem runtime_definition_is_rendered_from_table
    (env : Env) (w : World) (this : DynamicComponentComponent) (dc : Ref) :
  dc ∈ runtimeLoaded w →
  let after := loadComponent env w this (Some dc) in
  match widgetFactories w !! componentId this with
  | Some f =>
      (mode this = "component" →
       after = rendered (componentFactory f) (Some (injector f)) this)
      ∧ (mode this ≠ "component" →
         match configComponentFactory f with
         | Some ccf => after = rendered ccf (Some (injector f)) this
         | None => host after = None ∧ is_Some (error after)
         end)
  | None => host after = host this ∧ is_Some (error after)
  end
  ∧ (∀ env', loadComponent env' w this (Some dc) = after).
Proof.
  intros Hin after. subst after.
  rewrite loadComponent_flagged by done. split.
  - destruct (widgetFactories w !! componentId this) as [f|];
      [|split; [done|by eexists]].
    split; intros Hm.
    + by rewrite by_mode_component.
    + rewrite by_mode_other by done.
      destruct (configComponentFactory f); [done|]. split; [done|by eexists].
  - intros env'. by rewrite loadComponent_flagged.
Qed.

Lemma runtime_definition_is_rendered_from_table_witness :
  let env := Sample.env_of [] [] Sample.bundles in
  loadComponent env registered_world w1_slot (Some 1)
  = rendered 701 (Some (ModuleInjector 7)) w1_slot
  ∧ host (loadComponent env registered_world w1_config_slot (Some 1)) = None
  ∧ is_Some (error (loadComponent env registered_world builtin_slot (Some 1))).
Proof.
  assert (Hin : 1 ∈ runtimeLoaded registered_world).
  { apply (bool_decide_unpack _). vm_compute. exact I. }
  destruct (runtime_definition_is_rendered_from_table
              (Sample.env_of [] [] Sample.bundles) registered_world w1_slot 1
              Hin) as [[H1 _] _].
  destruct (runtime_definition_is_rendered_from_table
              (Sample.env_of [] [] Sample.bundles) registered_world
              w1_config_slot 1 Hin) as [[_ H2] _].
  destruct (runtime_definition_is_rendered_from_table
              (Sample.env_of [] [] Sample.bundles) registered_world
              builtin_slot 1 Hin) as [[_ H3] _].
  split; [by apply H1|]. split; [by apply H2|exact H3].
Defined.

(** X5. A definition without the runtime flag is rendered as the host
    would: the class named for the instance's mode is resolved by the
    host's own resolver and the component is created without an injector;
    when the resolver throws, the error is recorded and the view stays as
    it was. The loader's table plays no part. A request ([ngOnChanges])
    for an id that the host registry resolves to such a definition is not
    deferred: it is this [loadComponent] at once, whether the load signal
    is [true] or [false], and no subscription is added. *)
Theorem static_definition_is_rendered_by_host
    (env : Env) (w : World) (this : DynamicComponentComponent) (dc : Ref)
    (c : Component) :
  dc ∉ runtimeLoaded w →
  by_mode this (Some (component (defn env dc))) (configComponent (defn env dc))
  = Some c →
  let after := loadComponent env w this (Some dc) in
  match hostResolveComponentFactory env c with
  | inr cf => after = rendered cf None this
  | inl ex => error after = Some ex ∧ host after = host this
  end
  ∧ (∀ w', runtimeLoaded w' = runtimeLoaded w →
           loadComponent env w' this (Some dc) = after)
  ∧ (∀ w', runtimeLoaded w' = runtimeLoaded w →
           getById env (hostRegistry w') (componentId this) = Some dc →
           ngOnChanges env w' this = after ∧ waiting after = waiting this).
Proof.
  intros Hin Hc after. subst after.
  rewrite loadComponent_static, Hc by done.
  split; [|split].
  - by destruct (hostResolveComponentFactory env c).
  - intros w' Hfl. rewrite loadComponent_static, Hc; [done|by rewrite Hfl].
  - intros w' Hfl Hget. split.
    + unfold ngOnChanges. rewrite Hget. unfold unresolved_or_runtime.
      rewrite Hfl, bool_decide_eq_false_2 by done.
      rewrite loadComponent_static, Hc; [done|by rewrite Hfl].
    + by destruct (hostResolveComponentFactory env c).
Qed.

Lemma static_definition_is_rendered_by_host_witness :
  let env := Sample.env_of [] [] Sample.bundles in
  let w := initial_world [100] [] [] in
  isLoaded w = false
  ∧ loadComponent env w builtin_slot (Some 100) = rendered 1 None builtin_slot
  ∧ ngOnChanges env w builtin_slot = rendered 1 None builtin_slot.
Proof.
  assert (Hout : 100 ∉ runtimeLoaded (initial_world [100] [] [])).
  { apply (bool_decide_unpack _). vm_compute. exact I. }
  destruct (static_definition_is_rendered_by_host
              (Sample.env_of [] [] Sample.bundles) (initial_world [100] [] [])
              builtin_slot 100 "Host" Hout eq_refl) as (H1 & _ & H3).
  split; [reflexivity|]. split; [exact H1|].
  exact (proj1 (H3 (initial_world [100] [] []) eq_refl eq_refl)).
Defined.

(** X6. Registration and rendering fit together: once [loadWidget] has
    registered a definition of a module, an instance with the definition's
    id in mode [component] is rendered with the factory that the module's
    resolver gave for the definition's component class and with the
    module's injector. *)
Theorem registered_widget_is_rendered_with_its_module
    (env : Env) (ngModule : ModId) (widget : Ref)
    (entry : WidgetComponentFactoriesAndInjector) (w : World)
    (this : DynamicComponentComponent) :
  build_factories env ngModule widget = inr entry →
  componentId this = widget_id (defn env widget) →
  mode this = "component" →
  let w' := (loadWidget env ngModule widget w).2 in
  resolveComponentFactory env ngModule (component (defn env widget))
  = inr (componentFactory entry)
  ∧ loadComponent env w' this (Some widget)
    = rendered (componentFactory entry) (Some (ModuleInjector ngModule)) this.
Proof.
  intros Hb Hid Hm w'. subst w'.
  rewrite (loadWidget_registered env ngModule widget entry w Hb).
  cbn [snd].
  assert (Hentry :
    resolveComponentFactory env ngModule (component (defn env widget))
    = inr (componentFactory entry) ∧ injector entry = ModuleInjector ngModule).
  { unfold build_factories in Hb.
    destruct (resolveComponentFactory env ngModule (component (defn env widget)))
      as [e|cf]; [done|].
    destruct (configComponent (defn env widget)) as [c|].
    - destruct (resolveComponentFactory env ngModule c); [done|].
      by simplify_eq.
    - by simplify_eq. }
  destruct Hentry as [Hcf Hinj]. split; [exact Hcf|].
  rewrite loadComponent_flagged.
  2:{ unfold registered. cbn [runtimeLoaded].
      apply elem_of_union_l. by apply elem_of_singleton. }
  unfold registered. cbn [widgetFactories].
  rewrite Hid, lookup_insert_eq, by_mode_component by done.
  by rewrite Hinj.
Qed.

Lemma registered_widget_is_rendered_with_its_module_witness :
  let env := Sample.env_of [] [] Sample.bundles in
  loadComponent env (loadWidget env 8 2 registered_world).2 w1_slot (Some 2)
  = rendered 801 (Some (ModuleInjector 8)) w1_slot.
Proof.
  exact (proj2 (registered_widget_is_rendered_with_its_module
                  (Sample.env_of [] [] Sample.bundles) 8 2 last_write_entry
                  registered_world w1_slot eq_refl eq_refl eq_refl)).
Defined.

(** ** The patched [ngOnChanges] *)

Section pending_facts.
Context (env : Env).

Lemma ngOnChanges_pending w this :
  isLoaded w = false →
  unresolved_or_runtime w (getById env (hostRegistry w) (componentId this)) = true →
  ngOnChanges env w this = set_waiting (S (waiting this)) this.
Proof. intros Hl Hu. unfold ngOnChanges. by rewrite Hu, Hl. Qed.

Lemma ngOnChanges_pending_iter w this n :
  isLoaded w = false →
  unresolved_or_runtime w (getById env (hostRegistry w) (componentId this)) = true →
  Nat.iter n (ngOnChanges env w) this = set_waiting (n + waiting this) this.
Proof.
  intros Hl Hu. induction n as [|n IH]; [by destruct this|].
  simpl. rewrite IH, ngOnChanges_pending by done. done.
Qed.

Lemma resolve_and_load_waiting w this n :
  resolve_and_load env w (set_waiting n this)
  = set_waiting n (resolve_and_load env w this).
Proof. unfold resolve_and_load. by rewrite loadComponent_waiting. Qed.

End pending_facts.

(** X7. Requests made on one instance while the load signal is [false],
    for an id the registry does not know or knows as runtime-sourced, only
    pile up subscriptions: view and error stay as they were. When the
    signal arrives, the instance ends exactly as after a single request:
    rendered once from what its id then resolves to, with no subscription
    left. *)
Theorem repeated_requests_render_once
    (env : Env) (w w' : World) (this : DynamicComponentComponent) (n : nat) :
  isLoaded w = false →
  unresolved_or_runtime w (getById env (hostRegistry w) (componentId this))
  = true →
  let pending := Nat.iter (S n) (ngOnChanges env w) this in
  pending = set_waiting (S n + waiting this) this
  ∧ deliver_loaded env w' pending
    = set_waiting 0 (resolve_and_load env w' this)
  ∧ deliver_loaded env w' pending
    = deliver_loaded env w' (ngOnChanges env w this).
Proof.
  intros Hl Hu pending. subst pending.
  rewrite (ngOnChanges_pending_iter env w this (S n) Hl Hu).
  rewrite (ngOnChanges_pending env w this Hl Hu).
  split; [done|].
  assert (Hd : ∀ k, deliver_loaded env w' (set_waiting (S k) this)
                    = set_waiting 0 (resolve_and_load env w' this)).
  { intros k. apply deliver_loaded_waiting. }
  split; [exact (Hd (n + waiting this))|].
  etransitivity; [exact (Hd (n + waiting this))|]. symmetry. apply Hd.
Qed.

Lemma repeated_requests_render_once_witness :
  let w := initial_world [100] [] [] in
  deliver_loaded one_bundle_env registered_world
    (Nat.iter 3 (ngOnChanges one_bundle_env w) w1_slot)
  = deliver_loaded one_bundle_env registered_world
      (ngOnChanges one_bundle_env w w1_slot).
Proof.
  exact (proj2 (proj2 (repeated_requests_render_once one_bundle_env
                         (initial_world [100] [] []) registered_world
                         w1_slot 2 eq_refl eq_refl))).
Defined.

(** ** The registration pass *)

Lemma union_swap `{Countable K} (A B C : gset K) : B ∪ (A ∪ C) = (A ∪ B) ∪ C.
Proof. by rewrite (assoc_L (∪)), (comm_L (∪) B A). Qed.

Section registration_pass.
Context (env : Env).

Lemma loadWidget_effect m d w :
  let w' := (loadWidget env m d w).2 in
  hostRegistry w' = hostRegistry w ++ (if buildable env (m, d) then [d] else [])
  ∧ dom (widgetFactories w')
    = (if buildable env (m, d) then {[widget_id (defn env d)]} else ∅)
      ∪ dom (widgetFactories w)
  ∧ runtimeLoaded w' = {[d]} ∪ runtimeLoaded w
  ∧ isLoaded w' = isLoaded w.
Proof.
  unfold buildable. cbn [fst snd].
  destruct (build_factories env m d) as [ex|entry] eqn:Hb.
  - rewrite (loadWidget_rejected env m d ex w Hb). cbn.
    rewrite app_nil_r. by rewrite (left_id_L ∅ (∪)).
  - rewrite (loadWidget_registered env m d entry w Hb). cbn.
    by rewrite dom_insert_L.
Qed.

Lemma register_all_effect defs w :
  let w' := register_all env defs w in
  let built := filter (λ d, buildable env d = true) defs in
  hostRegistry w' = hostRegistry w ++ built.*2
  ∧ dom (widgetFactories w')
    = list_to_set ((λ d, widget_id (defn env d.2)) <$> built)
      ∪ dom (widgetFactories w)
  ∧ runtimeLoaded w' = list_to_set defs.*2 ∪ runtimeLoaded w
  ∧ isLoaded w' = isLoaded w.
Proof.
  revert w. induction defs as [|[m d] defs IH]; intros w.
  - cbn. rewrite app_nil_r, !(left_id_L ∅ (∪)). done.
  - cbn zeta. unfold register_all. cbn [fold_left fst snd].
    fold (register_all env defs (loadWidget env m d w).2).
    destruct (IH (loadWidget env m d w).2) as (H1 & H2 & H3 & H4).
    destruct (loadWidget_effect m d w) as (E1 & E2 & E3 & E4).
    rewrite H1, H2, H3, H4, E1, E2, E3, E4.
    rewrite filter_cons.
    destruct (decide (buildable env (m, d) = true)) as [Hb|Hb].
    + rewrite Hb. cbn [fmap list_fmap snd list_to_set].
      rewrite <- app_assoc. cbn [app].
      split; [done|]. split; [apply union_swap|]. split; [apply union_swap|done].
    + apply not_true_is_false in Hb. rewrite Hb.
      rewrite app_nil_r, (left_id_L ∅ (∪)). cbn [fmap list_fmap snd list_to_set].
      split; [done|]. split; [done|]. split; [apply union_swap|done].
Qed.

Lemma of_kind_add_events defs :
  of_kind KAdd (defs ≫= loadWidget_events env)
  = EvRegistryAdd <$> (filter (λ d, buildable env d = true) defs).*2.
Proof.
  induction defs as [|d defs IH]; [done|].
  rewrite bind_cons, of_kind_app, IH, filter_cons.
  unfold loadWidget_events, buildable.
  destruct (build_factories env d.1 d.2); by case_decide.
Qed.

End registration_pass.

(** X8. The registration pass never fails. It enters [loadWidget] once for
    every collected definition, in the order in which the modules provide
    them, and calls [add] on the host registry for exactly those whose
    factories can be built, in that order; the table gains exactly their
    ids; every collected definition, buildable or not, ends up carrying
    the runtime flag; the load signal, the inventory and the instances on
    screen are not touched. *)
Theorem registration_adds_buildable_definitions_in_order
    (env : Env) (ngModules : list ModId) (w : World) :
  let run := register_loop env ngModules w in
  let defs := collected env ngModules in
  let built := filter (λ d, buildable env d = true) defs in
  run.1 = Ok ()
  ∧ (∃ evs, trace run.2 = trace w ++ evs
            ∧ of_kind KLoadWidget evs = (λ d, EvLoadWidget d.1 d.2) <$> defs
            ∧ of_kind KAdd evs = EvRegistryAdd <$> built.*2)
  ∧ hostRegistry run.2 = hostRegistry w ++ built.*2
  ∧ dom (widgetFactories run.2)
    = list_to_set ((λ d, widget_id (defn env d.2)) <$> built)
      ∪ dom (widgetFactories w)
  ∧ runtimeLoaded run.2 = list_to_set defs.*2 ∪ runtimeLoaded w
  ∧ isLoaded run.2 = isLoaded w
  ∧ inventory run.2 = inventory w
  ∧ instances run.2 = instances w.
Proof.
  cbn zeta. rewrite register_loop_run. cbn [fst snd].
  destruct (register_all_effect env (collected env ngModules) w)
    as (H1 & H2 & H3 & H4).
  destruct (register_all_inventory env (collected env ngModules) w) as [H5 H6].
  split; [done|]. split; [|done].
  exists (collected env ngModules ≫= loadWidget_events env).
  split; [apply register_all_trace|].
  split; [apply of_kind_loadWidget_events|apply of_kind_add_events].
Qed.

(** ** Runs of [loadRuntimeWidgets] that stop early *)

(** X9. Before the batch a run can stop in five ways, and in each of them
    nothing but the trace has changed. Nobody logs in: the run waits for
    ever and calls nothing. The application fetch fails: the run throws
    that error. The fetched list is empty: the run throws 'Could not find
    current application.', whatever the URL. The list is not empty and the
    URL holds no context path: the run throws the [TypeError] of
    [contextPathFromURL]. No application has the context path of the URL:
    'Could not find current application.'. The inventory query fails: the
    run throws that error. *)
Theorem run_stops_before_the_batch (env : Env) (w : World) :
  let run := loadRuntimeWidgets env w in
  (currentUser env = None → run = (Pending, w))
  ∧ (∀ user,
       currentUser env = Some user →
       let fetched :=
         add_events [EvProgress MsgLoading; EvFetchApplications user] w in
       (∀ e, applicationsByUser env user = inl e → run = (Threw e, fetched))
       ∧ (applicationsByUser env user = inr [] →
          run = (Threw (Error "Could not find current application."), fetched))
       ∧ (∀ appList,
            applicationsByUser env user = inr appList → appList ≠ [] →
            contextPathFromURL (pathname env) = None →
            run = (Threw (TypeError "Cannot read property '1' of null"),
                   fetched))
       ∧ (∀ appList cp,
            applicationsByUser env user = inr appList →
            contextPathFromURL (pathname env) = Some cp →
            resolve_app cp appList = None →
            run = (Threw (Error "Could not find current application."),
                   fetched))
       ∧ (∀ appList cp app e,
            applicationsByUser env user = inr appList →
            contextPathFromURL (pathname env) = Some cp →
            resolve_app cp appList = Some app →
            inventoryListError env = Some e →
            run = (Threw e, add_events (preamble user) w))).
Proof.
  cbn zeta. split.
  { intros Hu. unfold loadRuntimeWidgets. by rewrite Hu. }
  intros user Hu.
  assert (Hfind : ∀ appList ex,
    applicationsByUser env user = inr appList →
    (find_current_app env appList
       (add_events [EvProgress MsgLoading; EvFetchApplications user] w)).1
    = Threw ex →
    loadRuntimeWidgets env w
    = (Threw ex,
       add_events [EvProgress MsgLoading; EvFetchApplications user] w)).
  { intros appList ex Ha Hex. unfold loadRuntimeWidgets. rewrite Hu.
    unfold_monad. rewrite Ha. unfold_monad.
    rewrite find_current_app_run in *. simpl in Hex. rewrite Hex.
    unfold add_events, set_trace. simpl. by rewrite <- app_assoc. }
  split; [|split; [|split; [|split]]].
  - intros e Ha. unfold loadRuntimeWidgets. rewrite Hu.
    unfold_monad. rewrite Ha. unfold add_events, set_trace. simpl.
    by rewrite <- app_assoc.
  - intros Ha. apply (Hfind [] _ Ha). by rewrite find_current_app_run.
  - intros appList Ha Hne Hcp. apply (Hfind appList _ Ha).
    rewrite find_current_app_run, Hcp. by destruct appList.
  - intros appList cp Ha Hcp Happ. apply (Hfind appList _ Ha).
    rewrite find_current_app_run, Hcp, Happ. by destruct appList.
  - intros appList cp app e Ha Hcp Happ Hl. unfold loadRuntimeWidgets.
    rewrite Hu. unfold_monad. rewrite Ha. unfold_monad.
    rewrite find_current_app_run, Hcp, Happ.
    destruct appList as [|app0 rest]; [done|].
    unfold inventory_list. unfold_monad. rewrite Hl.
    unfold add_events, preamble, set_trace. simpl. by rewrite <- !app_assoc.
Qed.

(** ** Runs that stop in the activation pass *)

Section batch_stops.
Context (env : Env) (appList : list IApplication).

Lemma scan_throws_true exports x :
  x ∈ exports → is_nullish x.2 = true → scan_throws exports = true.
Proof.
  intros Hin Hn. unfold scan_throws. apply existsb_exists.
  exists x. split; [by apply list_elem_of_In|done].
Qed.

Lemma batch_exports_elem cps id jsModule key exportedObj :
  id ∈ cps → imported_module env id = Some (id, jsModule) →
  (key, exportedObj) ∈ jsModule →
  (id, key, exportedObj) ∈ batch_exports env appList cps.
Proof.
  intros Hin Him Hk. unfold batch_exports, all_exports.
  rewrite batch_jsModules.
  apply list_elem_of_bind. exists (id, jsModule). split.
  - unfold exports_of. cbn [fst snd]. apply list_elem_of_fmap.
    by exists (key, exportedObj).
  - apply list_elem_of_omap. by exists id.
Qed.

End batch_stops.

(** X10. With the application resolved and the host registry empty, the
    run goes through the import pass and the activation pass and then
    never resumes (or throws on a nullish export): it does not return, no
    definition is registered and the signal is not emitted; nothing but the
    trace has changed. *)
Theorem run_waits_for_host_registry
    (env : Env) (w : World) (user : string) (appList : list IApplication)
    (cp : string) (app : IApplication) :
  resolved env user appList cp app →
  hostRegistry w = [] →
  let ids := resolve_contextPaths app (context_of app w) in
  let run := loadRuntimeWidgets env w in
  run.1 = (if scan_throws (batch_exports env appList ids)
           then Threw nullish_error else Pending)
  ∧ run.1 ≠ Ok ()
  ∧ run.2 = add_events (preamble user ++ scan_trace env appList ids) w
  ∧ of_kind KLoadWidget (scan_trace env appList ids) = []
  ∧ of_kind KSignal (scan_trace env appList ids) = [].
Proof.
  intros Hres Hreg. cbn zeta.
  rewrite (loadRuntimeWidgets_resolved env user appList cp app w Hres).
  rewrite load_batch_run.
  change (hostRegistry (add_events (preamble user) w)) with (hostRegistry w).
  rewrite Hreg. cbn [length Nat.ltb Nat.leb].
  assert (Hk : of_kind KLoadWidget
                 (scan_trace env appList
                    (resolve_contextPaths app (context_of app w))) = []
             ∧ of_kind KSignal
                 (scan_trace env appList
                    (resolve_contextPaths app (context_of app w))) = []).
  { split; (eapply of_kind_absent; [apply scan_trace_kinds|solve_not_in]). }
  destruct (scan_throws _); cbn [fst snd]; rewrite add_events_app;
    (split; [done|]); (split; [done|]); (split; [done|]); exact Hk.
Qed.

Lemma run_waits_for_host_registry_witness :
  let run := loadRuntimeWidgets one_bundle_env (initial_world [] [] []) in
  run.1 = Pending ∧ hostRegistry run.2 = [] ∧ isLoaded run.2 = false.
Proof.
  assert (Hres : resolved one_bundle_env "alice" [Sample.cockpit (Some ["a"])]
                   "cockpit" (Sample.cockpit (Some ["a"]))) by (by split).
  destruct (run_waits_for_host_registry one_bundle_env (initial_world [] [] [])
              "alice" _ "cockpit" _ Hres eq_refl) as (H1 & _ & H2 & _).
  cbn zeta. rewrite H1, H2. by repeat split.
Defined.

(** X11. One [null] or [undefined] export in any imported bundle makes the
    whole run throw a [TypeError] in the activation pass: the test on the
    exported value lies outside the [try]. No definition of any bundle is
    registered, the signal is not emitted, and nothing but the trace has
    changed. *)
Theorem null_export_aborts_run
    (env : Env) (w : World) (user : string) (appList : list IApplication)
    (cp : string) (app : IApplication)
    (id key : string) (jsModule : JsModule) :
  resolved env user appList cp app →
  let ids := resolve_contextPaths app (context_of app w) in
  let run := loadRuntimeWidgets env w in
  id ∈ ids → is_loadable id = true → corsImport env id = None →
  interleaved env id = inr jsModule →
  (key, ExpNullish) ∈ jsModule →
  run.1 = Threw (TypeError "Cannot read property 'hasOwnProperty' of undefined")
  ∧ run.2 = add_events (preamble user ++ scan_trace env appList ids) w
  ∧ of_kind KLoadWidget (scan_trace env appList ids) = []
  ∧ of_kind KSignal (scan_trace env appList ids) = [].
Proof.
  intros Hres ids run Hin Hload Hcors Hint Hkey. subst ids run.
  rewrite (loadRuntimeWidgets_resolved env user appList cp app w Hres).
  rewrite load_batch_run.
  assert (Hthrow : scan_throws
                     (batch_exports env appList
                        (resolve_contextPaths app (context_of app w))) = true).
  { apply (scan_throws_true _ (id, key, ExpNullish)); [|done].
    apply (batch_exports_elem env appList _ id jsModule); [done| |done].
    unfold imported_module. by rewrite Hload, Hcors, Hint. }
  rewrite Hthrow. cbn [fst snd]. rewrite add_events_app.
  split; [done|]. split; [done|].
  split; (eapply of_kind_absent; [apply scan_trace_kinds|solve_not_in]).
Qed.

Lemma null_export_aborts_run_witness :
  let run := loadRuntimeWidgets null_export_env fresh_world in
  run.1 = Threw (TypeError "Cannot read property 'hasOwnProperty' of undefined")
  ∧ widgetFactories run.2 = ∅ ∧ isLoaded run.2 = false.
Proof.
  assert (Hres : resolved null_export_env "alice" [Sample.cockpit (Some ["a"])]
                   "cockpit" (Sample.cockpit (Some ["a"]))) by (by split).
  destruct (null_export_aborts_run null_export_env fresh_world
              "alice" _ "cockpit" _ "a" "broken" null_module Hres) as (H1 & H2 & _).
  - apply (bool_decide_unpack _). vm_compute. exact I.
  - reflexivity.
  - reflexivity.
  - reflexivity.
  - unfold null_module. repeat constructor.
  - cbn zeta. rewrite H1, H2. by repeat split.
Defined.

(** ** Failures inside the import and activation passes *)

Lemma occurrences_filter_out (P : string → Prop) `{∀ x, Decision (P x)}
    (x : string) (l : list string) :
  ¬ P x → occurrences x (filter P l) = 0.
Proof.
  intros Hx. apply occurrences_zero. intros Hin.
  apply list_elem_of_filter in Hin as [? _]. done.
Qed.

(** X12. When the manifest of a loadable identifier imports but its entry
    module does not, the failure is written to the console and raised as an
    alert that carries the error's message; the identifier contributes no
    module and is not marked for removal, and the loop carries on with the
    identifiers after it. When the run returns, the runtime context lists
    the identifier as often as before. *)
Theorem failed_module_import_is_reported_and_kept
    (env : Env) (appList : list IApplication) (id : string) (e : Exn) :
  is_loadable id = true →
  corsImport env id = None →
  interleaved env id = inl e →
  (∀ total rest st w,
     let st' :=
       {| jsModules := jsModules st;
          cleanupWidgetContextPath := cleanupWidgetContextPath st;
          widgetCounter := S (widgetCounter st) |} in
     let w' :=
       add_events
         [EvProgress (MsgLoadingWidgets (S (widgetCounter st)) total);
          EvManifestImport id; EvModuleImport id;
          EvConsoleError (LogNoCustomWidget id e);
          EvDanger import_failed_text (message e)] w in
     import_one env appList total id st w = (Ok st', w')
     ∧ import_loop env appList total (id :: rest) st w
       = import_loop env appList total rest st' w')
  ∧ (∀ w user cp app r paths,
       resolved env user appList cp app →
       context_of app w = Some r → widgetContextPaths r = Some paths →
       (loadRuntimeWidgets env w).1 = Ok () →
       ∃ paths',
         {| rc_id := rc_id r; appId := appId r;
            widgetContextPaths := Some paths' |}
         ∈ inventory (loadRuntimeWidgets env w).2
         ∧ occurrences id paths' = occurrences id paths).
Proof.
  intros Hload Hcors Hint. split.
  - intros total rest st w st' w'. subst st' w'.
    assert (Hone : import_one env appList total id st w
      = (Ok {| jsModules := jsModules st;
               cleanupWidgetContextPath := cleanupWidgetContextPath st;
               widgetCounter := S (widgetCounter st) |},
         add_events
           [EvProgress (MsgLoadingWidgets (S (widgetCounter st)) total);
            EvManifestImport id; EvModuleImport id;
            EvConsoleError (LogNoCustomWidget id e);
            EvDanger import_failed_text (message e)] w)).
    { rewrite import_one_run. unfold import_state, import_events.
      by rewrite Hload, Hcors, Hint. }
    split; [exact Hone|].
    simpl. unfold mbind, M_bind. by rewrite Hone.
  - intros w user cp app r paths Hres Hrc Hp Hok.
    destruct (resolved_run_inventory env w user appList cp app Hres r paths
                Hrc Hp Hok) as [_ Hrec].
    eexists. split; [exact Hrec|].
    rewrite cleaned_occurrences, occurrences_filter_out; [lia|].
    unfold is_stale. rewrite Hload, Hcors.
    rewrite bool_decide_eq_false_2; [done|]. by intros [? ?].
Qed.

Lemma failed_module_import_is_reported_and_kept_witness :
  let run := loadRuntimeWidgets missing_module_env
               (initial_world [100] [Sample.context ["z"]] []) in
  interleaved missing_module_env "z" = inl (Error "Cannot find module")
  ∧ ∃ paths',
      {| rc_id := "rc"; appId := Some "2"; widgetContextPaths := Some paths' |}
      ∈ inventory run.2
      ∧ occurrences "z" paths' = 1.
Proof.
  split; [reflexivity|].
  assert (Hres : resolved missing_module_env "alice"
                   [Sample.cockpit (Some ["z"])] "cockpit"
                   (Sample.cockpit (Some ["z"]))) by (by split).
  exact (proj2 (failed_module_import_is_reported_and_kept missing_module_env
                  [Sample.cockpit (Some ["z"])] "z" (Error "Cannot find module")
                  eq_refl eq_refl eq_refl)
           (initial_world [100] [Sample.context ["z"]] []) "alice" "cockpit"
           (Sample.cockpit (Some ["z"])) (Sample.context ["z"]) ["z"]
           Hres eq_refl eq_refl eq_refl).
Defined.

Section activation_pass.

Lemma of_kind_bind {A} k (f : A → list Event) (l : list A) :
  of_kind k (l ≫= f) = l ≫= (λ x, of_kind k (f x)).
Proof.
  induction l as [|x l IH]; [done|].
  rewrite !bind_cons, of_kind_app. by rewrite IH.
Qed.

Lemma activation_events_activate cp key exportedObj :
  of_kind KActivate (activation_events cp key exportedObj)
  = if is_module_descriptor exportedObj then [EvActivate cp key] else [].
Proof.
  destruct exportedObj as [| |annotations activation]; try done.
  simpl. destruct (has_NgModule_annotation annotations); [|done].
  by destruct activation.
Qed.

Lemma activation_events_danger cp key exportedObj :
  length (of_kind KDanger (activation_events cp key exportedObj))
  = if is_failed_activation exportedObj then 1 else 0.
Proof.
  destruct exportedObj as [| |annotations activation]; try done.
  simpl. destruct (has_NgModule_annotation annotations);
    by destruct activation.
Qed.

Lemma scan_events_activate (exports : list Export) :
  of_kind KActivate (exports ≫= (λ x, activation_events x.1.1 x.1.2 x.2))
  = (λ x, EvActivate x.1.1 x.1.2)
    <$> filter (λ x, is_module_descriptor x.2 = true) exports.
Proof.
  induction exports as [|x l IH]; [done|].
  rewrite bind_cons, of_kind_app, IH, activation_events_activate, filter_cons.
  destruct (is_module_descriptor x.2); by case_decide.
Qed.

Lemma scan_events_danger (exports : list Export) :
  length (of_kind KDanger (exports ≫= (λ x, activation_events x.1.1 x.1.2 x.2)))
  = length (filter (λ x, is_failed_activation x.2 = true) exports).
Proof.
  induction exports as [|x l IH]; [done|].
  rewrite bind_cons, of_kind_app, length_app, IH, activation_events_danger,
    filter_cons.
  destruct (is_failed_activation x.2); by case_decide.
Qed.

End activation_pass.

(** X13. The activation pass looks at the exported values of the imported
    bundles in order. It activates exactly those that carry an own
    [__annotations__] with an [NgModule] entry, up to the first [null] or
    [undefined] export, at which it throws. A module whose activation
    throws is reported by one alert and skipped; the modules handed to
    registration are those whose activation succeeded, in order. Nothing
    but the trace changes. *)
Theorem activation_pass_activates_module_descriptors
    (jsModules : list (string * JsModule)) (w : World) :
  let exports := all_exports jsModules in
  let run := activate_loop jsModules [] w in
  run.1 = (if existsb (λ x, is_nullish x.2) exports
           then Threw (TypeError "Cannot read property 'hasOwnProperty' of undefined")
           else Ok (exports ≫= (λ x, activated x.2)))
  ∧ ∃ evs,
      run.2 = add_events evs w
      ∧ of_kind KActivate evs
        = (λ x, EvActivate x.1.1 x.1.2)
          <$> filter (λ x, is_module_descriptor x.2 = true) (visited exports)
      ∧ length (of_kind KDanger evs)
        = length (filter (λ x, is_failed_activation x.2 = true)
                    (visited exports)).
Proof.
  cbn zeta. rewrite activate_loop_run. cbn [fst snd].
  split; [done|].
  exists (scan_events (all_exports jsModules)). split; [done|].
  unfold scan_events. by rewrite scan_events_activate, scan_events_danger.
Qed.

Example failed_activation_does_not_stop_the_pass :
  let run := activate_loop [("a", half_broken_module)] [] fresh_world in
  run.1 = Ok [7]
  ∧ trace run.2
    = [EvActivate "a" "Old";
       EvConsoleError (LogCompileFailed "a" (Error "compiled for 1006"));
       EvDanger widget_failed_text "compiled for 1006";
       EvActivate "a" "New"].
Proof. by split. Qed.

(** ** The end of a run: registration result and clean-up *)

Section cleanup_flag.

Lemma cleanup_fold_absent paths cleanup :
  (∀ id, id ∈ cleanup → id ∉ paths) →
  fold_left cleanup_step cleanup (Some paths, false) = (Some paths, false).
Proof.
  induction cleanup as [|x cleanup IH]; [done|]. intros Hnone.
  cbn [fold_left]. unfold cleanup_step at 2. cbn [fst].
  assert (Hx : (Js.indexOf x paths < 0)%Z).
  { apply indexOf_absent. apply Hnone. by left. }
  destruct (0 <=? Js.indexOf x paths)%Z eqn:Hle; [lia|].
  apply IH. intros id Hid. apply Hnone. by right.
Qed.

(** The clean-up removes something exactly when a marked identifier is
    listed. *)
Lemma cleaned_flag paths cleanup :
  (cleaned paths cleanup).2 = true ↔ ∃ id, id ∈ cleanup ∧ id ∈ paths.
Proof.
  split.
  - intros Hflag.
    destruct (decide (Exists (λ id, id ∈ paths) cleanup)) as [Hex|Hno].
    + apply Exists_exists in Hex as (id & ? & ?). by exists id.
    + exfalso. unfold cleaned in Hflag. cbn [snd] in Hflag.
      rewrite cleanup_fold_absent in Hflag; [done|].
      intros id Hid Hin. apply Hno. apply Exists_exists. by exists id.
  - intros (id & Hc & Hp).
    destruct (cleaned paths cleanup).2 eqn:Hflag; [done|]. exfalso.
    pose proof (cleaned_occurrences id paths cleanup) as Hocc.
    rewrite (cleaned_unchanged paths cleanup Hflag) in Hocc.
    assert (occurrences id cleanup ≠ 0) by (by intros ?%occurrences_zero).
    assert (occurrences id paths ≠ 0) by (by intros ?%occurrences_zero).
    lia.
Qed.

End cleanup_flag.

Lemma add_events_trace evs w : trace (add_events evs w) = trace w ++ evs.
Proof. done. Qed.

Lemma add_events_isLoaded evs w : isLoaded (add_events evs w) = isLoaded w.
Proof. done. Qed.

Lemma add_events_inventory evs w : inventory (add_events evs w) = inventory w.
Proof. done. Qed.

Lemma updated_trace id paths w :
  trace (updated id paths w) = trace w ++ [EvInventoryUpdate id paths].
Proof. done. Qed.

Lemma updated_isLoaded id paths w : isLoaded (updated id paths w) = isLoaded w.
Proof. done. Qed.

Lemma updated_inventory id paths w :
  inventory (updated id paths w) = update_paths id paths <$> inventory w.
Proof. done. Qed.

Section run_end.
Context (env : Env).

Lemma inventory_update_frame id paths w :
  let w' := (inventory_update env id paths w).2 in
  hostRegistry w' = hostRegistry w ∧ widgetFactories w' = widgetFactories w
  ∧ runtimeLoaded w' = runtimeLoaded w ∧ isLoaded w' = isLoaded w
  ∧ instances w' = instances w.
Proof.
  cbn zeta. rewrite inventory_update_run.
  by destruct (inventoryUpdateError env).
Qed.

Lemma auto_clean_frame rc cleanup w :
  let w' := (auto_clean env rc cleanup w).2 in
  hostRegistry w' = hostRegistry w ∧ widgetFactories w' = widgetFactories w
  ∧ runtimeLoaded w' = runtimeLoaded w ∧ isLoaded w' = isLoaded w
  ∧ instances w' = instances w.
Proof.
  cbn zeta. rewrite auto_clean_run.
  destruct (rc ≫= _) as [[r paths]|]; [|done].
  destruct (cleaned paths cleanup).2; [|done].
  apply inventory_update_frame.
Qed.

(** What the clean-up calls and leaves in the inventory. *)
Lemma auto_clean_calls rc cleanup w :
  let run := auto_clean env rc cleanup w in
  (run = (Ok (), w))
  ∨ ∃ r paths,
      rc = Some r ∧ widgetContextPaths r = Some paths
      ∧ (cleaned paths cleanup).2 = true
      ∧ let upd := EvInventoryUpdate (rc_id r) (cleaned paths cleanup).1 in
        trace run.2 = trace w ++ [upd]
        ∧ run.1 = match inventoryUpdateError env with
                  | Some e => Threw e
                  | None => Ok ()
                  end
        ∧ inventory run.2
          = match inventoryUpdateError env with
            | Some _ => inventory w
            | None =>
                update_paths (rc_id r) (cleaned paths cleanup).1 <$> inventory w
            end.
Proof.
  cbn zeta. rewrite auto_clean_run.
  destruct rc as [r|]; [|by left]. cbn [mbind option_bind].
  destruct (widgetContextPaths r) as [paths|] eqn:Hp; [|by left].
  cbn [fmap option_fmap option_map].
  destruct (cleaned paths cleanup).2 eqn:Hflag; [|by left].
  right. exists r, paths. split; [done|]. split; [done|]. split; [done|].
  rewrite inventory_update_run.
  by destruct (inventoryUpdateError env).
Qed.

Lemma registration_trace_no_update defs :
  of_kind KUpdate (registration_trace env defs) = [].
Proof.
  unfold registration_trace. rewrite !of_kind_app.
  rewrite (of_kind_absent registration_kinds KUpdate
             (defs ≫= loadWidget_events env));
    [done|apply registration_events_kinds|solve_not_in].
Qed.

Lemma scan_trace_no_update appList cps :
  of_kind KUpdate (scan_trace env appList cps) = [].
Proof. eapply of_kind_absent; [apply scan_trace_kinds|solve_not_in]. Qed.

Lemma loaded_world_registry appList cps w :
  let defs := batch_definitions env appList cps in
  let built := filter (λ d, buildable env d = true) defs in
  let w' := loaded_world env appList cps w in
  hostRegistry w' = hostRegistry w ++ built.*2
  ∧ dom (widgetFactories w')
    = list_to_set ((λ d, widget_id (defn env d.2)) <$> built)
      ∪ dom (widgetFactories w)
  ∧ runtimeLoaded w' = list_to_set defs.*2 ∪ runtimeLoaded w.
Proof.
  cbn zeta. unfold loaded_world, signal_loaded.
  cbn [hostRegistry widgetFactories runtimeLoaded set_instances set_isLoaded
       add_events set_trace].
  destruct (register_all_effect env (batch_definitions env appList cps)
              (add_events [EvHostRegistryReady; EvProgress MsgAlmostReady]
                 (add_events (scan_trace env appList cps) w)))
    as (H1 & H2 & H3 & _).
  by rewrite H1, H2, H3.
Qed.

End run_end.

(** X14. When a run returns, the host registry has gained exactly the
    collected definitions whose factories could be built, in the order the
    bundles and their modules provide them; the table has gained exactly
    their ids; every collected definition carries the runtime flag; and the
    signal is [true]. *)
Theorem returned_run_has_registered_the_collected_definitions
    (env : Env) (w : World) (user : string) (appList : list IApplication)
    (cp : string) (app : IApplication) :
  resolved env user appList cp app →
  let run := loadRuntimeWidgets env w in
  let defs :=
    batch_definitions env appList
      (resolve_contextPaths app (context_of app w)) in
  let built := filter (λ d, buildable env d = true) defs in
  run.1 = Ok () →
  hostRegistry run.2 = hostRegistry w ++ built.*2
  ∧ dom (widgetFactories run.2)
    = list_to_set ((λ d, widget_id (defn env d.2)) <$> built)
      ∪ dom (widgetFactories w)
  ∧ runtimeLoaded run.2 = list_to_set defs.*2 ∪ runtimeLoaded w
  ∧ isLoaded run.2 = true.
Proof.
  intros Hres. cbn zeta.
  rewrite (loadRuntimeWidgets_resolved env user appList cp app w Hres).
  rewrite load_batch_run.
  set (ids := resolve_contextPaths app (context_of app w)).
  destruct (scan_throws (batch_exports env appList ids));
    [intros Hok; simpl in Hok; discriminate Hok|].
  destruct (0 <? length (hostRegistry (add_events (preamble user) w)))%nat.
  2:{ intros Hok; simpl in Hok; discriminate Hok. }
  intros _.
  destruct (auto_clean_frame env (context_of app w)
              (cleanupWidgetContextPath (batch_state env appList ids))
              (loaded_world env appList ids (add_events (preamble user) w)))
    as (F1 & F2 & F3 & F4 & _).
  destruct (loaded_world_registry env appList ids
              (add_events (preamble user) w)) as (R1 & R2 & R3).
  rewrite F1, F2, F3, F4, R1, R2, R3, loaded_world_isLoaded. done.
Qed.

Lemma returned_run_has_registered_the_collected_definitions_witness :
  let run := loadRuntimeWidgets two_bundles_env fresh_world in
  run.1 = Ok () ∧ hostRegistry run.2 = [100; 1; 2] ∧ isLoaded run.2 = true.
Proof.
  assert (Hres : resolved two_bundles_env "alice"
                   [Sample.cockpit (Some ["a"; "b"])] "cockpit"
                   (Sample.cockpit (Some ["a"; "b"]))) by (by split).
  destruct (returned_run_has_registered_the_collected_definitions
              two_bundles_env fresh_world "alice" _ "cockpit" _ Hres eq_refl)
    as (H1 & _ & _ & H4).
  split; [reflexivity|]. split; [exact H1|exact H4].
Defined.

(** X15. A run of [loadRuntimeWidgets] calls [invService.update] at most
    once, and then as its very last call, after the signal has been
    emitted. Without that call the inventory is as before the run; with it,
    the inventory is as before when the update was rejected and otherwise
    differs only in the paths of the updated record. *)
Theorem run_updates_inventory_at_most_once (env : Env) (w : World) :
  let run := loadRuntimeWidgets env w in
  ∃ evs,
    trace run.2 = trace w ++ evs
    ∧ ((of_kind KUpdate evs = [] ∧ inventory run.2 = inventory w)
       ∨ ∃ before id paths,
           evs = before ++ [EvInventoryUpdate id paths]
           ∧ of_kind KUpdate before = []
           ∧ EvIsLoadedNext true ∈ before
           ∧ run.1 = match inventoryUpdateError env with
                     | Some e => Threw e
                     | None => Ok ()
                     end
           ∧ inventory run.2
             = match inventoryUpdateError env with
               | Some _ => inventory w
               | None => update_paths id paths <$> inventory w
               end).
Proof.
  cbn zeta.
  destruct (loadRuntimeWidgets_cases env w)
    as [(user & appList & cp & app & Hres)|(r & evs & -> & _ & Hpre)].
  2:{ exists evs. split; [done|]. left. split; [|done].
      eapply of_kind_absent; [by apply preamble_events_kinds|solve_not_in]. }
  rewrite (loadRuntimeWidgets_resolved env user appList cp app w Hres).
  rewrite load_batch_run.
  set (ids := resolve_contextPaths app (context_of app w)).
  assert (Hstop : ∀ r : Result (),
    ∃ evs,
      trace (r, add_events (scan_trace env appList ids)
                  (add_events (preamble user) w)).2 = trace w ++ evs
      ∧ of_kind KUpdate evs = []
      ∧ inventory (r, add_events (scan_trace env appList ids)
                        (add_events (preamble user) w)).2 = inventory w).
  { intros r. exists (preamble user ++ scan_trace env appList ids).
    cbn [snd]. rewrite add_events_app. split; [done|]. split; [|done].
    by rewrite of_kind_app, scan_trace_no_update. }
  destruct (scan_throws (batch_exports env appList ids)).
  { destruct (Hstop (Threw nullish_error)) as (evs & H1 & H2 & H3).
    exists evs. split; [done|]. by left. }
  destruct (0 <? length (hostRegistry (add_events (preamble user) w)))%nat.
  2:{ destruct (Hstop Pending) as (evs & H1 & H2 & H3).
      exists evs. split; [done|]. by left. }
  set (loaded := loaded_world env appList ids (add_events (preamble user) w)).
  assert (Hloaded :
    trace loaded
    = trace w ++ preamble user ++ scan_trace env appList ids
      ++ registration_trace env (batch_definitions env appList ids)).
  { unfold loaded. rewrite loaded_world_trace. cbn [trace add_events set_trace].
    by rewrite <- !app_assoc. }
  assert (Hinv : inventory loaded = inventory w).
  { unfold loaded. by rewrite loaded_world_inventory. }
  set (before := preamble user ++ scan_trace env appList ids
                 ++ registration_trace env (batch_definitions env appList ids)).
  assert (Hbefore : of_kind KUpdate before = []).
  { unfold before.
    by rewrite !of_kind_app, scan_trace_no_update, registration_trace_no_update. }
  destruct (auto_clean_calls env (context_of app w)
              (cleanupWidgetContextPath (batch_state env appList ids)) loaded)
    as [->|(r & paths & _ & _ & _ & Ht & Hr & Hi)].
  - exists before. cbn [snd]. split; [exact Hloaded|]. by left.
  - cbn zeta in Ht, Hr, Hi.
    exists (before ++ [EvInventoryUpdate (rc_id r)
                         (cleaned paths
                            (cleanupWidgetContextPath
                               (batch_state env appList ids))).1]).
    split.
    { rewrite Ht, Hloaded. unfold before. by rewrite <- !app_assoc. }
    right. eexists before, _, _. split; [done|].
    split; [exact Hbefore|]. split.
    { unfold before, registration_trace.
      rewrite !elem_of_app. right. right. right. right.
      apply elem_of_cons. right. by apply list_elem_of_singleton. }
    split; [exact Hr|]. by rewrite Hi, Hinv.
Qed.

(** X16. When the runtime context of the resolved application lists an
    identifier whose manifest cannot be imported and that is no application
    any more, a run that gets through registration ends with exactly one
    [invService.update] on that record, written after the signal, and the
    new path list has lost one occurrence of the identifier. If the update
    is rejected the run throws that error, although the widgets are
    registered and the signal is [true], and the inventory is as before. *)
Theorem stale_identifier_triggers_context_update
    (env : Env) (w : World) (user : string) (appList : list IApplication)
    (cp : string) (app : IApplication)
    (r : IAppRuntimeContext) (paths : list string) (id : string) :
  resolved env user appList cp app →
  context_of app w = Some r →
  widgetContextPaths r = Some paths →
  id ∈ paths →
  is_stale env appList id = true →
  hostRegistry w ≠ [] →
  let ids := resolve_contextPaths app (context_of app w) in
  scan_throws (batch_exports env appList ids) = false →
  let run := loadRuntimeWidgets env w in
  let paths' :=
    (cleaned paths (filter (λ x, is_stale env appList x = true) ids)).1 in
  run.1 = match inventoryUpdateError env with
          | Some e => Threw e
          | None => Ok ()
          end
  ∧ isLoaded run.2 = true
  ∧ trace run.2
    = trace w ++ preamble user ++ scan_trace env appList ids
      ++ registration_trace env (batch_definitions env appList ids)
      ++ [EvInventoryUpdate (rc_id r) paths']
  ∧ inventory run.2
    = match inventoryUpdateError env with
      | Some _ => inventory w
      | None => update_paths (rc_id r) paths' <$> inventory w
      end
  ∧ occurrences id paths' = occurrences id paths - 1.
Proof.
  intros Hres Hrc Hp Hin Hstale Hreg. cbn zeta. intros Hscan.
  rewrite (loadRuntimeWidgets_resolved env user appList cp app w Hres).
  rewrite load_batch_run, Hscan.
  change (hostRegistry (add_events (preamble user) w)) with (hostRegistry w).
  destruct (hostRegistry w) as [|h reg] eqn:Hh; [done|].
  cbn [length Nat.ltb Nat.leb]. clear Hh.
  set (ids := resolve_contextPaths app (context_of app w)).
  assert (Hids : id ∈ ids).
  { apply resolve_contextPaths_elem. right. by rewrite Hrc; cbn; rewrite Hp. }
  assert (Hcleanup : cleanupWidgetContextPath (batch_state env appList ids)
                     = filter (λ x, is_stale env appList x = true) ids).
  { unfold batch_state. by rewrite import_loop_cleanup. }
  rewrite Hcleanup.
  set (stale := filter (λ x, is_stale env appList x = true) ids).
  assert (Hflag : (cleaned paths stale).2 = true).
  { apply cleaned_flag. exists id. split; [|done].
    by apply list_elem_of_filter. }
  rewrite Hrc, (auto_clean_some env r paths) by done.
  rewrite Hflag, inventory_update_run.
  assert (Hocc : occurrences id (cleaned paths stale).1
                 = occurrences id paths - 1).
  { rewrite cleaned_occurrences. unfold stale.
    rewrite (occurrences_filter_NoDup _ id ids);
      [|apply resolve_contextPaths_NoDup|exact Hids].
    by rewrite decide_True. }
  assert (Hloaded :
    trace (loaded_world env appList ids (add_events (preamble user) w))
    = trace w ++ preamble user ++ scan_trace env appList ids
      ++ registration_trace env (batch_definitions env appList ids)).
  { rewrite loaded_world_trace. cbn [trace add_events set_trace].
    by rewrite <- !app_assoc. }
  destruct (inventoryUpdateError env) as [e|]; cbn [fst snd].
  - rewrite add_events_trace, add_events_isLoaded, add_events_inventory.
    rewrite Hloaded, loaded_world_isLoaded, loaded_world_inventory.
    split; [done|]. split; [done|]. split; [by rewrite <- !app_assoc|].
    split; [done|exact Hocc].
  - rewrite updated_trace, updated_isLoaded, updated_inventory.
    rewrite Hloaded, loaded_world_isLoaded, loaded_world_inventory.
    split; [done|]. split; [done|]. split; [by rewrite <- !app_assoc|].
    split; [done|exact Hocc].
Qed.

Lemma stale_identifier_triggers_context_update_witness :
  let run := loadRuntimeWidgets stale_bundle_env stale_bundle_world in
  run.1 = Ok () ∧ isLoaded run.2 = true
  ∧ inventory run.2 = [Sample.context ["a"]].
Proof.
  assert (Hres : resolved stale_bundle_env "alice"
                   [Sample.cockpit (Some ["a"; "b"])] "cockpit"
                   (Sample.cockpit (Some ["a"; "b"]))) by (by split).
  destruct (stale_identifier_triggers_context_update stale_bundle_env
              stale_bundle_world "alice" _ "cockpit" _
              (Sample.context ["a"; "b"]) ["a"; "b"] "b"
              Hres eq_refl eq_refl) as (H1 & H2 & _ & H4 & _).
  - apply (bool_decide_unpack _). vm_compute. exact I.
  - reflexivity.
  - done.
  - reflexivity.
  - split; [exact H1|]. split; [exact H2|]. rewrite H4. reflexivity.
Defined.

(** ** Which identifiers a run works on *)

Section listed_facts.
Context (env : Env) (appList : list IApplication).

Lemma import_trace_listed cps x :
  x ∈ subjects (import_trace env appList cps) → x ∈ cps.
Proof.
  unfold import_trace. rewrite import_loop_events_subjects.
  intros (cp & Hx & Hcp)%list_elem_of_bind.
  destruct (import_events_subjects env appList 0 cp 0) as [_ Hs].
  rewrite Forall_forall in Hs. by rewrite (Hs x Hx).
Qed.

Lemma visited_elem (exports : list Export) x :
  x ∈ visited exports → x ∈ exports.
Proof.
  induction exports as [|y l IH]; simpl; [done|].
  destruct (is_nullish y.2); [by intros ?%elem_of_nil|].
  intros [->|Hv]%elem_of_cons; [by left | right; by apply IH].
Qed.

Lemma activation_pass_listed cps x :
  x ∈ subjects (scan_events (batch_exports env appList cps)) → x ∈ cps.
Proof.
  unfold scan_events. rewrite subjects_bind.
  intros ([[id key] obj] & Hx & Hv)%list_elem_of_bind. simpl in Hx.
  assert (Hid : x = id).
  { pose proof (activation_events_subjects id key obj) as Hs.
    rewrite Forall_forall in Hs. by apply Hs. }
  subst x. apply visited_elem in Hv.
  unfold batch_exports, all_exports in Hv. rewrite batch_jsModules in Hv.
  apply list_elem_of_bind in Hv as (m & Hin & Hm).
  apply list_elem_of_omap in Hm as (id' & Hid' & Hm).
  unfold exports_of in Hin.
  apply list_elem_of_fmap in Hin as (kv & [= -> _ _] & _).
  by rewrite (imported_module_name env id' m Hm).
Qed.

End listed_facts.

Lemma subjects_elem e x evs :
  e ∈ evs → event_subject e = Some x → x ∈ subjects evs.
Proof. intros He Hs. apply list_elem_of_omap. by exists e. Qed.

(** The calls of a resolved run that work on an identifier work on a
    loadable identifier of the set. *)
Lemma resolved_run_subjects env w user appList cp app :
  resolved env user appList cp app →
  ∃ evs,
    trace (loadRuntimeWidgets env w).2 = trace w ++ evs
    ∧ ∀ x, x ∈ subjects evs →
           x ∈ resolve_contextPaths app (context_of app w)
           ∧ is_loadable x = true.
Proof.
  intros Hres.
  destruct (resolved_run_trace env w user appList cp app Hres)
    as (rest & Ht & Hrest).
  cbn zeta in Ht.
  set (ids := resolve_contextPaths app (context_of app w)) in *.
  eexists. split; [exact Ht|].
  assert (Hnone : subjects rest = []).
  { destruct Hrest as [->|(upd & -> & Hupd)]; [done|].
    by rewrite subjects_app, registration_trace_subjects,
      (update_events_subjects upd Hupd). }
  intros x. rewrite !subjects_app, Hnone, app_nil_r.
  change (subjects (preamble user)) with (@nil string).
  change (subjects [EvProgress MsgStillWorking]) with (@nil string).
  rewrite !app_nil_l. intros [Hx|Hx]%elem_of_app.
  - split; [by apply (import_trace_listed env appList)|].
    pose proof (import_trace_loadable env appList ids) as Hl.
    rewrite Forall_forall in Hl. by apply Hl.
  - split; [by apply (activation_pass_listed env appList)|].
    pose proof (activation_pass_loadable env appList ids) as Hl.
    rewrite Forall_forall in Hl. by apply Hl.
Qed.

(** X17. Once the application is resolved, every import, activation and
    console entry of the run concerns a non-empty identifier that is listed
    in the application's [widgetContextPaths] or in those of its runtime
    context: no other bundle is ever requested. *)
Theorem run_only_works_on_listed_identifiers
    (env : Env) (w : World) (user : string) (appList : list IApplication)
    (cp : string) (app : IApplication) :
  resolved env user appList cp app →
  ∃ evs,
    trace (loadRuntimeWidgets env w).2 = trace w ++ evs
    ∧ ∀ e id,
        e ∈ evs → event_subject e = Some id →
        id ≠ blank
        ∧ (id ∈ Js.or_empty (app_widgetContextPaths app)
           ∨ id ∈ Js.or_empty (context_of app w ≫= widgetContextPaths)).
Proof.
  intros Hres.
  destruct (resolved_run_subjects env w user appList cp app Hres)
    as (evs & Ht & Hs).
  exists evs. split; [exact Ht|]. intros e id He Hid.
  destruct (Hs id (subjects_elem e id evs He Hid)) as [Hin Hl].
  split; [by apply is_loadable_nonempty|].
  by apply resolve_contextPaths_elem.
Qed.

Lemma run_only_works_on_listed_identifiers_witness :
  ∃ evs,
    trace (loadRuntimeWidgets two_bundles_env fresh_world).2
    = trace fresh_world ++ evs
    ∧ ∀ e id, e ∈ evs → event_subject e = Some id →
              id ≠ blank ∧ (id ∈ ["a"; "b"] ∨ id ∈ []).
Proof.
  assert (Hres : resolved two_bundles_env "alice"
                   [Sample.cockpit (Some ["a"; "b"])] "cockpit"
                   (Sample.cockpit (Some ["a"; "b"]))) by (by split).
  exact (run_only_works_on_listed_identifiers two_bundles_env fresh_world
           "alice" _ "cockpit" _ Hres).
Defined.

(** ** [removeWidgetFromApp] *)

Section remove_facts.

(** [splice(indexOf(x), 1)] takes out the first occurrence. *)
Lemma splice_indexOf_split (x : string) (l : list string) :
  x ∈ l →
  ∃ l1 l2, l = l1 ++ x :: l2 ∧ (x ∉ l1)
           ∧ Js.splice1 (Js.indexOf x l) l = l1 ++ l2.
Proof.
  induction l as [|y l IH]; [by intros ?%elem_of_nil|].
  intros Hin. simpl. destruct (String.eqb_spec y x) as [->|Hne].
  - exists [], l. split; [done|]. split; [apply not_elem_of_nil|done].
  - apply elem_of_cons in Hin as [->|Hin]; [done|].
    destruct (IH Hin) as (l1 & l2 & Hl & Hx & Hs).
    assert (Hi : (0 ≤ Js.indexOf x l)%Z).
    { destruct (Z.lt_ge_cases (Js.indexOf x l) 0) as [Hlt|?]; [|done].
      by apply indexOf_absent in Hlt. }
    destruct (Js.indexOf x l <? 0)%Z eqn:Hlt; [lia|].
    exists (y :: l1), l2. split; [by rewrite Hl|]. split.
    + intros [->|?]%elem_of_cons; done.
    + unfold Js.splice1 in *.
      replace (Z.to_nat (Js.indexOf x l + 1)) with (S (Z.to_nat (Js.indexOf x l)))
        by lia.
      simpl. by rewrite Hs.
Qed.

Context (env : Env).

Lemma removeWidgetFromApp_run app cp w :
  removeWidgetFromApp env app cp w
  = match inventoryListError env with
    | Some e => (Threw e, add_events [EvInventoryList] w)
    | None =>
        match head (filter (λ rc, appId rc = Some app) (inventory w)) with
        | Some rc =>
            match widgetContextPaths rc with
            | Some paths =>
                if (0 <=? Js.indexOf cp paths)%Z then
                  inventory_update env (rc_id rc)
                    (Js.splice1 (Js.indexOf cp paths) paths)
                    (add_events [EvInventoryList] w)
                else (Ok (), add_events [EvInventoryList] w)
            | None => (Ok (), add_events [EvInventoryList] w)
            end
        | None => (Ok (), add_events [EvInventoryList] w)
        end
    end.
Proof.
  unfold removeWidgetFromApp. unfold_monad.
  destruct (inventoryListError env); [done|]. cbn [inventory].
  destruct (filter (λ rc, appId rc = Some app) (inventory w)) as [|rc l];
    [done|].
  simpl. destruct (widgetContextPaths rc) as [paths|]; [|done].
  by destruct (0 <=? Js.indexOf cp paths)%Z.
Qed.

Lemma removeWidgetFromApp_present
    app cp w (rc : IAppRuntimeContext) (paths : list string) :
  inventoryListError env = None →
  head (filter (λ rc, appId rc = Some app) (inventory w)) = Some rc →
  widgetContextPaths rc = Some paths →
  cp ∈ paths →
  let run := removeWidgetFromApp env app cp w in
  ∃ l1 l2,
    paths = l1 ++ cp :: l2 ∧ (cp ∉ l1)
    ∧ trace run.2
      = trace w ++ [EvInventoryList; EvInventoryUpdate (rc_id rc) (l1 ++ l2)]
    ∧ run.1 = match inventoryUpdateError env with
              | Some e => Threw e
              | None => Ok ()
              end
    ∧ inventory run.2
      = match inventoryUpdateError env with
        | Some _ => inventory w
        | None => update_paths (rc_id rc) (l1 ++ l2) <$> inventory w
        end.
Proof.
  intros Hl Hrc Hp Hin. cbn zeta.
  rewrite removeWidgetFromApp_run, Hl, Hrc, Hp.
  destruct (splice_indexOf_split cp paths Hin) as (l1 & l2 & Hsplit & Hl1 & Hs).
  exists l1, l2. split; [done|]. split; [done|].
  assert (Hi : (0 <=? Js.indexOf cp paths)%Z = true).
  { apply Z.leb_le.
    destruct (Z.lt_ge_cases (Js.indexOf cp paths) 0) as [Hlt|?]; [|done].
    by apply indexOf_absent in Hlt. }
  rewrite Hi, Hs, inventory_update_run.
  destruct (inventoryUpdateError env); cbn [fst snd].
  - rewrite !add_events_trace, !add_events_inventory.
    by rewrite <- app_assoc.
  - rewrite updated_trace, updated_inventory, add_events_trace,
      add_events_inventory.
    by rewrite <- app_assoc.
Qed.

Lemma removeWidgetFromApp_absent app cp w :
  inventoryListError env = None →
  (∀ rc paths,
     head (filter (λ rc, appId rc = Some app) (inventory w)) = Some rc →
     widgetContextPaths rc = Some paths → cp ∉ paths) →
  removeWidgetFromApp env app cp w = (Ok (), add_events [EvInventoryList] w).
Proof.
  intros Hl Habsent. rewrite removeWidgetFromApp_run, Hl.
  destruct (head _) as [rc|] eqn:Hrc; [|done].
  destruct (widgetContextPaths rc) as [paths|] eqn:Hp; [|done].
  assert (Hi : (Js.indexOf cp paths < 0)%Z).
  { apply indexOf_absent. by apply (Habsent rc). }
  destruct (0 <=? Js.indexOf cp paths)%Z eqn:Hle; [lia|done].
Qed.

End remove_facts.

(** X18. [removeWidgetFromApp] edits the first runtime context of the
    application: when its path list holds the identifier, the first
    occurrence is taken out, the other entries keep their order, and the
    shortened list is written back with one [invService.update]. If the
    update is rejected the call throws that error and the inventory is as
    before. *)
Theorem removeWidgetFromApp_removes_first_occurrence
    (env : Env) (app cp : string) (w : World)
    (rc : IAppRuntimeContext) (paths : list string) :
  inventoryListError env = None →
  head (filter (λ rc, appId rc = Some app) (inventory w)) = Some rc →
  widgetContextPaths rc = Some paths →
  cp ∈ paths →
  let run := removeWidgetFromApp env app cp w in
  ∃ l1 l2,
    paths = l1 ++ cp :: l2 ∧ (cp ∉ l1)
    ∧ trace run.2
      = trace w ++ [EvInventoryList; EvInventoryUpdate (rc_id rc) (l1 ++ l2)]
    ∧ run.1 = match inventoryUpdateError env with
              | Some e => Threw e
              | None => Ok ()
              end
    ∧ inventory run.2
      = match inventoryUpdateError env with
        | Some _ => inventory w
        | None => update_paths (rc_id rc) (l1 ++ l2) <$> inventory w
        end.
Proof. apply removeWidgetFromApp_present. Qed.

Lemma removeWidgetFromApp_removes_first_occurrence_witness :
  let w := initial_world [100] [Sample.context ["a"; "b"; "a"]] [] in
  let run := removeWidgetFromApp one_bundle_env "2" "a" w in
  ∃ l1 l2,
    ["a"; "b"; "a"] = l1 ++ "a" :: l2 ∧ ("a" ∉ l1)
    ∧ trace run.2
      = trace w ++ [EvInventoryList; EvInventoryUpdate "rc" (l1 ++ l2)]
    ∧ run.1 = Ok ()
    ∧ inventory run.2 = update_paths "rc" (l1 ++ l2) <$> inventory w.
Proof.
  apply (removeWidgetFromApp_removes_first_occurrence one_bundle_env "2" "a"
           (initial_world [100] [Sample.context ["a"; "b"; "a"]] [])
           (Sample.context ["a"; "b"; "a"]) ["a"; "b"; "a"]).
  - reflexivity.
  - reflexivity.
  - reflexivity.
  - apply (bool_decide_unpack _). vm_compute. exact I.
Defined.

(** X19. [removeWidgetFromApp] changes nothing when there is nothing to
    remove: when the application has no runtime context, when its first
    runtime context has no path list, or when that list does not hold the
    identifier, the call returns after the inventory query without any
    update. *)
Theorem removeWidgetFromApp_without_entry_changes_nothing
    (env : Env) (app cp : string) (w : World) :
  inventoryListError env = None →
  (∀ rc paths,
     head (filter (λ rc, appId rc = Some app) (inventory w)) = Some rc →
     widgetContextPaths rc = Some paths → cp ∉ paths) →
  removeWidgetFromApp env app cp w = (Ok (), add_events [EvInventoryList] w).
Proof. apply removeWidgetFromApp_absent. Qed.

Lemma removeWidgetFromApp_without_entry_changes_nothing_witness :
  let w :=
    initial_world [100]
      [ {| rc_id := "r1"; appId := Some "2"; widgetContextPaths := Some ["a"] |};
        {| rc_id := "r2"; appId := Some "2"; widgetContextPaths := Some ["b"] |} ]
      [] in
  removeWidgetFromApp one_bundle_env "2" "b" w
  = (Ok (), add_events [EvInventoryList] w).
Proof.
  apply removeWidgetFromApp_without_entry_changes_nothing; [reflexivity|].
  intros rc paths [= <-] [= <-].
  apply (bool_decide_unpack _). vm_compute. exact I.
Defined.

(** ** Removing a widget, then loading *)

Section remove_then_load.

Lemma opt_eqb_Some (o : option string) (a : string) :
  Js.opt_eqb o (Some a) = true ↔ o = Some a.
Proof.
  destruct o as [b|]; simpl; [|done].
  destruct (String.eqb_spec b a); split; intros; simplify_eq; done.
Qed.

(** The runtime context a run finds is the first one of the application. *)
Lemma context_of_head app w r :
  context_of app w = Some r →
  head (filter (λ rc, appId rc = Some (app_id app)) (inventory w)) = Some r.
Proof.
  unfold context_of, find_runtime_context.
  generalize 2000. generalize (inventory w). intros l.
  induction l as [|x l IH]; intros n.
  - by rewrite take_nil.
  - destruct n as [|n]; [done|]. simpl. rewrite filter_cons.
    destruct (Js.opt_eqb (appId x) (Some (app_id app))) eqn:Hx.
    + apply opt_eqb_Some in Hx. rewrite decide_True by done.
      by intros [= ->].
    + rewrite decide_False; [apply IH|].
      intros Hq. apply opt_eqb_Some in Hq. congruence.
Qed.

Lemma update_paths_appId id paths rc : appId (update_paths id paths rc) = appId rc.
Proof. unfold update_paths. by destruct (String.eqb (rc_id rc) id). Qed.

Lemma find_runtime_context_update app id paths l :
  find_runtime_context app (update_paths id paths <$> l)
  = update_paths id paths <$> find_runtime_context app l.
Proof.
  unfold find_runtime_context.
  induction l as [|x l IH]; [done|]. simpl.
  rewrite update_paths_appId.
  by destruct (Js.opt_eqb (appId x) (Some (app_id app))).
Qed.

Lemma context_of_update app id paths w w' :
  inventory w' = update_paths id paths <$> inventory w →
  context_of app w' = update_paths id paths <$> context_of app w.
Proof.
  intros Hinv. unfold context_of.
  by rewrite Hinv, <- fmap_take, find_runtime_context_update.
Qed.

Lemma context_of_same app w w' :
  inventory w' = inventory w → context_of app w' = context_of app w.
Proof. intros Hinv. unfold context_of. by rewrite Hinv. Qed.

End remove_then_load.

(** X20. Removal and loading fit together: after [removeWidgetFromApp] for
    the resolved application, with a duplicate-free path list in its
    runtime context and an identifier that the application's own
    [widgetContextPaths] does not list, the next run of
    [loadRuntimeWidgets] makes no call that concerns the removed
    identifier (no manifest import, no module import, no activation),
    while every other identifier is in its set exactly if it was
    before. *)
Theorem removed_widget_is_not_loaded_again
    (env : Env) (w : World) (user : string) (appList : list IApplication)
    (cp : string) (app : IApplication)
    (r : IAppRuntimeContext) (paths : list string) (id : string) :
  resolved env user appList cp app →
  inventoryUpdateError env = None →
  context_of app w = Some r →
  widgetContextPaths r = Some paths →
  NoDup paths →
  id ∉ Js.or_empty (app_widgetContextPaths app) →
  let removal := removeWidgetFromApp env (app_id app) id w in
  let run := loadRuntimeWidgets env removal.2 in
  removal.1 = Ok ()
  ∧ (∀ x, x ≠ id →
          x ∈ resolve_contextPaths app (context_of app removal.2)
          ↔ x ∈ resolve_contextPaths app (context_of app w))
  ∧ ∃ evs,
      trace run.2 = trace removal.2 ++ evs
      ∧ ∀ e, e ∈ evs → event_subject e ≠ Some id.
Proof.
  intros Hres Hupd Hrc Hp Hnd Hown. cbn zeta.
  pose proof (context_of_head app w r Hrc) as Hhead.
  pose proof (resolved_list _ _ _ _ _ Hres) as Hlist.
  assert (Hremoval :
    ∃ paths',
      (removeWidgetFromApp env (app_id app) id w).1 = Ok ()
      ∧ (context_of app (removeWidgetFromApp env (app_id app) id w).2
         ≫= widgetContextPaths) = Some paths'
      ∧ (id ∉ paths')
      ∧ ∀ x, x ≠ id → x ∈ paths' ↔ x ∈ paths).
  { destruct (decide (id ∈ paths)) as [Hin|Hout].
    - destruct (removeWidgetFromApp_present env
                  (app_id app) id w r paths Hlist Hhead Hp Hin)
        as (l1 & l2 & Hsplit & Hl1 & _ & Hok & Hinv).
      rewrite Hupd in Hok, Hinv.
      exists (l1 ++ l2). split; [done|].
      rewrite (context_of_update app (rc_id r) (l1 ++ l2) w _ Hinv), Hrc.
      split.
      { simpl. unfold update_paths. by rewrite String.eqb_refl. }
      subst paths. apply NoDup_app in Hnd as (_ & Hdis & Hnd2).
      apply NoDup_cons in Hnd2 as [Hl2 _].
      split.
      + intros [?|?]%elem_of_app; done.
      + intros x Hx. rewrite !elem_of_app, elem_of_cons.
        split; [intros [?|?]; [by left|right; by right]
               |intros [?|[?|?]]; [by left|done|by right]].
    - exists paths.
      rewrite (removeWidgetFromApp_absent env (app_id app) id w
                 Hlist).
      2:{ intros rc ps Hh Hps. rewrite Hhead in Hh. simplify_eq. done. }
      split; [done|]. cbn [snd].
      rewrite (context_of_same app w (add_events [EvInventoryList] w)) by done.
      rewrite Hrc. split; [by simpl|]. split; [done|]. done. }
  destruct Hremoval as (paths' & Hok & Hctx & Hgone & Hsame).
  set (w' := (removeWidgetFromApp env (app_id app) id w).2) in *.
  split; [exact Hok|]. split.
  - intros x Hx. rewrite !resolve_contextPaths_elem, Hctx, Hrc. simpl.
    rewrite Hp. simpl. by rewrite (Hsame x Hx).
  - destruct (resolved_run_subjects env w' user appList cp app Hres)
      as (evs & Ht & Hs).
    exists evs. split; [exact Ht|].
    intros e He Hid.
    destruct (Hs id (subjects_elem e id evs He Hid)) as [Hin _].
    apply resolve_contextPaths_elem in Hin as [Hin|Hin]; [done|].
    rewrite Hctx in Hin. done.
Qed.

Lemma removed_widget_is_not_loaded_again_witness :
  let w := initial_world [100] [Sample.context ["a"; "b"]] [] in
  let env := Sample.env_of [Sample.cockpit None] [] Sample.bundles in
  let removal := removeWidgetFromApp env "2" "b" w in
  removal.1 = Ok ()
  ∧ ∃ evs,
      trace (loadRuntimeWidgets env removal.2).2 = trace removal.2 ++ evs
      ∧ ∀ e, e ∈ evs → event_subject e ≠ Some "b".
Proof.
  assert (Hres : resolved (Sample.env_of [Sample.cockpit None] [] Sample.bundles)
                   "alice" [Sample.cockpit None] "cockpit"
                   (Sample.cockpit None)) by (by split).
  destruct (removed_widget_is_not_loaded_again
              (Sample.env_of [Sample.cockpit None] [] Sample.bundles)
              (initial_world [100] [Sample.context ["a"; "b"]] [])
              "alice" _ "cockpit" _ (Sample.context ["a"; "b"]) ["a"; "b"] "b"
              Hres eq_refl eq_refl eq_refl) as (H1 & _ & H3).
  - apply (bool_decide_unpack _). vm_compute. exact I.
  - apply not_elem_of_nil.
  - split; [exact H1|exact H3].
Defined.

(** * The installer service *)

Ltac unfold_installer :=
  repeat progress
    (unfold mbind, mret, Installer.I_bind, Installer.I_ret,
       Installer.try_catch, Installer.lift_sum, Installer.lift_error,
       Installer.throw, Installer.get_page, Installer.modify, Installer.emit,
       Installer.set_calls, Installer.set_busy, Installer.set_currentAlert,
       Installer.set_managedObjects;
     simpl).

Section installer_facts.
Import Installer.
Context (env : Installer.Env).

Lemma add_calls_nil p : add_calls [] p = p.
Proof. destruct p. unfold add_calls, set_calls. simpl. by rewrite app_nil_r. Qed.

Lemma add_calls_app cs1 cs2 p :
  add_calls cs2 (add_calls cs1 p) = add_calls (cs1 ++ cs2) p.
Proof. unfold add_calls, set_calls. simpl. by rewrite app_assoc. Qed.

Lemma service_calls_app cs1 cs2 :
  service_calls (cs1 ++ cs2) = service_calls cs1 ++ service_calls cs2.
Proof. apply filter_app. Qed.

Lemma refuse_development_run p :
  refuse_development env p
  = (if isDevMode env
        || String.eqb (before_colon (location_host env)) "localhost"
        || String.eqb (before_colon (location_host env)) "127.0.0.1"
     then Threw (Error development_text) else Ok tt, p).
Proof. unfold refuse_development. by destruct (_ || _ || _). Qed.

Lemma find_m_pure {A} (f : string → A → bool) cp (l : list A) p :
  contextPathFromURL (location_pathname env) = Some cp →
  find_m (λ x, c ← contextPathFromURL_call env; mret (f c x)) l p
  = (Ok (find (f cp) l), p).
Proof.
  intros Hcp.
  set (pred := λ x, c ← contextPathFromURL_call env; mret (f c x)).
  assert (Hpred : ∀ x q, pred x q = (Ok (f cp x), q)).
  { intros x q. unfold pred, contextPathFromURL_call. by rewrite Hcp. }
  induction l as [|x l IH]; [done|].
  change (find_m pred (x :: l) p)
    with (match pred x p with
          | (Ok b, p') => (if b : bool then mret (Some x) else find_m pred l) p'
          | (Threw e, p') => (Threw e, p')
          | (Pending, p') => (Pending, p')
          end).
  rewrite Hpred. simpl. destruct (f cp x); [done|]. apply IH.
Qed.

(** With a context path in the URL the searches of [installWidget] are
    those of [installWidgetWithContext] for that path. *)
Lemma find_current_app_url cp appList p :
  contextPathFromURL (location_pathname env) = Some cp →
  find_current_app env appList p = find_app_with_context cp appList p.
Proof.
  intros Hcp. unfold find_current_app, find_app_with_context.
  unfold mbind at 1, I_bind. rewrite (find_m_pure own_with cp) by done.
  destruct (find (own_with cp) appList); [done|].
  unfold mbind at 1, I_bind. rewrite (find_m_pure current_with cp) by done.
  by destruct (find (current_with cp) appList).
Qed.

Lemma read_context_path_run widgetFile p :
  read_context_path env widgetFile p
  = match manifest_context_path env widgetFile with
    | inl cause =>
        (Threw (Error "Not a valid widget"), add_calls [CallConsoleLog cause] p)
    | inr cp => (Ok cp, p)
    end.
Proof.
  unfold read_context_path, manifest_context_path. unfold_installer.
  destruct (unzip env widgetFile) as [e|[[e|[|[cp|]]]|]]; done.
Qed.

Lemma inventory_list_run p :
  inventory_list env p
  = match inventoryListError env with
    | Some e => (Threw e, add_calls [CallInventoryList] p)
    | None => (Ok (take 2000 (managedObjects p)), add_calls [CallInventoryList] p)
    end.
Proof.
  unfold inventory_list. unfold_installer.
  by destruct (inventoryListError env).
Qed.

Lemma add_to_context_run app cp p :
  add_to_context env app cp p
  = match inventoryListError env with
    | Some e => (Threw e, add_calls [CallInventoryList] p)
    | None =>
        let written := add_calls [CallInventoryList; context_write app cp p] p in
        match (match context_in app p with
               | Some _ => inventoryUpdateError env
               | None => inventoryCreateError env
               end) with
        | Some e => (Threw e, written)
        | None => (Ok tt, set_managedObjects (listed env app cp p) written)
        end
    end.
Proof.
  unfold add_to_context. unfold mbind at 1, I_bind.
  rewrite inventory_list_run.
  destruct (inventoryListError env); [done|].
  unfold context_write, listed, context_in.
  change (managedObjects (add_calls [CallInventoryList] p))
    with (managedObjects p).
  destruct (find_runtime_context app (take 2000 (managedObjects p))) as [rc|].
  - unfold inventory_update. unfold_installer.
    destruct (inventoryUpdateError env); unfold add_calls, set_calls; simpl;
      by rewrite <- app_assoc.
  - unfold inventory_create. unfold_installer.
    destruct (inventoryCreateError env); unfold add_calls, set_calls; simpl;
      by rewrite <- app_assoc.
Qed.

Lemma deploy_run appList widgetFile cp onUpdate p :
  deploy env appList widgetFile cp onUpdate p
  = let called := add_calls (deployment_calls env appList widgetFile cp) p in
    match deployment_error env appList widgetFile cp with
    | Some e => (Threw e, called)
    | None =>
        onUpdate (if is_known_app appList cp then already_deployed_text
                  else deployed_text) called
    end.
Proof.
  unfold deploy, deployment_calls, deployment_error, notify.
  destruct (is_known_app appList cp); [done|].
  unfold_installer.
  destruct (created env cp) as [e|widgetApp]; [done|].
  unfold_installer.
  destruct (uploaded env widgetApp widgetFile) as [e|appBinary];
    unfold add_calls, set_calls; simpl; rewrite <- ?app_assoc; [done|].
  unfold_installer.
  destruct (applicationUpdateError env); simpl; rewrite <- ?app_assoc; done.
Qed.

Lemma deployment_calls_service appList widgetFile cp :
  service_calls (deployment_calls env appList widgetFile cp)
  = deployment_calls env appList widgetFile cp.
Proof.
  unfold deployment_calls. destruct (is_known_app appList cp); [done|].
  destruct (created env cp) as [e|widgetApp]; [done|].
  destruct (uploaded env widgetApp widgetFile) as [e|appBinary]; [done|].
  by destruct (applicationUpdateError env).
Qed.

Lemma process_run appList app widgetFile onUpdate p :
  widgetInstallaitonProcess env appList app widgetFile onUpdate p
  = match manifest_context_path env widgetFile with
    | inl cause =>
        (Threw (Error "Not a valid widget"), add_calls [CallConsoleLog cause] p)
    | inr cp =>
        let called := add_calls (deployment_calls env appList widgetFile cp) p in
        match deployment_error env appList widgetFile cp with
        | Some e => (Threw e, called)
        | None =>
            (onUpdate (if is_known_app appList cp then already_deployed_text
                       else deployed_text);;
             add_to_context env app cp) called
        end
    end.
Proof.
  unfold widgetInstallaitonProcess. unfold mbind at 1, I_bind.
  rewrite read_context_path_run.
  destruct (manifest_context_path env widgetFile) as [cause|cp]; [done|].
  unfold mbind at 1, I_bind. rewrite deploy_run. cbn zeta.
  destruct (deployment_error env appList widgetFile cp); [done|].
  unfold mbind, I_bind. by destruct (onUpdate _ _) as [[[]| |] p'].
Qed.

Lemma context_in_same app p p' :
  managedObjects p' = managedObjects p → context_in app p' = context_in app p.
Proof. unfold context_in. by intros ->. Qed.

(** The successful process with a quiet callback. *)
Lemma process_success appList app widgetFile cp onUpdate p :
  quiet onUpdate →
  manifest_context_path env widgetFile = inr cp →
  deployment_error env appList widgetFile cp = None →
  inventoryListError env = None →
  inventoryUpdateError env = None →
  inventoryCreateError env = None →
  let run := widgetInstallaitonProcess env appList app widgetFile onUpdate p in
  run.1 = Ok tt
  ∧ service_calls (calls run.2)
    = service_calls (calls p) ++ deployment_calls env appList widgetFile cp
      ++ [CallInventoryList; context_write app cp p]
  ∧ managedObjects run.2 = listed env app cp p.
Proof.
  intros Hq Hm Hd Hl Hu Hc. cbn zeta.
  rewrite process_run, Hm. cbn zeta. rewrite Hd.
  set (called := add_calls (deployment_calls env appList widgetFile cp) p).
  set (msg := if is_known_app appList cp then already_deployed_text
              else deployed_text).
  destruct (Hq msg called) as (Hok & Hobj & Hcalls).
  unfold mbind, I_bind.
  destruct (onUpdate msg called) as [r p'] eqn:Hcb. simpl in Hok, Hobj, Hcalls.
  subst r. rewrite add_to_context_run, Hl. cbn zeta.
  assert (Hctx : context_in app p' = context_in app p).
  { by apply context_in_same. }
  assert (Hw : context_write app cp p' = context_write app cp p).
  { unfold context_write. by rewrite Hctx. }
  assert (Hlisted : listed env app cp p' = listed env app cp p).
  { unfold listed. by rewrite Hctx, Hobj. }
  rewrite Hctx, Hu, Hc, Hw, Hlisted.
  assert (Hres : (match context_in app p with
                  | Some _ => @None Exn
                  | None => None
                  end) = None) by (by destruct (context_in app p)).
  rewrite Hres. cbn [fst snd]. split; [done|]. split; [|done].
  cbn [calls set_managedObjects add_calls set_calls].
  rewrite service_calls_app, Hcalls. unfold called.
  cbn [calls add_calls set_calls].
  rewrite service_calls_app, deployment_calls_service.
  rewrite <- app_assoc. f_equal. f_equal.
  unfold context_write. by destruct (context_in app p).
Qed.

End installer_facts.

Section installer_properties.
Import Installer.

(** X21. Neither installer method does anything in development mode or when
    the page is served from [localhost] or [127.0.0.1], whatever port
    follows the host name: both throw the development-mode error before
    any call to the platform, and the page is as it was. *)
Theorem install_is_refused_in_development
    (env : Installer.Env) (widgetFile : Blob) (contextPath : string)
    (onUpdate : string → I unit) (p : Page) :
  isDevMode env = true
  ∨ before_colon (location_host env) = "localhost"
  ∨ before_colon (location_host env) = "127.0.0.1" →
  installWidget env widgetFile onUpdate p
  = (Threw (Error development_text), p)
  ∧ installWidgetWithContext env widgetFile contextPath onUpdate p
    = (Threw (Error development_text), p).
Proof.
  intros Hdev.
  assert (Hguard : refuse_development env p
                   = (Threw (Error development_text), p)).
  { rewrite refuse_development_run.
    destruct Hdev as [->|[->| ->]]; [done| |];
      by destruct (isDevMode env). }
  unfold installWidget, installWidgetWithContext.
  unfold mbind at 1 4, I_bind. by rewrite Hguard.
Qed.

Lemma install_is_refused_in_development_witness :
  before_colon "localhost:9000" = "localhost"
  ∧ installWidget dev_server 1 no_update fresh_page
    = (Threw (Error development_text), fresh_page).
Proof.
  split; [reflexivity|].
  apply (install_is_refused_in_development dev_server 1 "cockpit").
  right. left. reflexivity.
Defined.

(** X22. A widget file that does not yield a context path is rejected: the
    process logs what went wrong to the console and throws 'Not a valid
    widget'. That covers a file that is no zip archive, an archive without
    [cumulocity.json], a manifest that cannot be read or parsed, a manifest
    that is [null], and a manifest without [contextPath]. Nothing is
    deployed, the callback is not called and the runtime contexts are not
    touched. *)
Theorem invalid_widget_file_is_rejected
    (env : Installer.Env) (appList : list IApplication) (app : IApplication)
    (widgetFile : Blob) (onUpdate : string → I unit) (p : Page) :
  let run := widgetInstallaitonProcess env appList app widgetFile onUpdate p in
  let rejected cause :=
    run = (Threw (Error "Not a valid widget"),
           add_calls [CallConsoleLog cause] p) in
  (∀ e, unzip env widgetFile = inl e → rejected e)
  ∧ (unzip env widgetFile = inr None →
     rejected (TypeError "Cannot read property 'async' of null"))
  ∧ (∀ e, unzip env widgetFile = inr (Some (inl e)) → rejected e)
  ∧ (unzip env widgetFile = inr (Some (inr JsonNull)) →
     rejected (TypeError "Cannot read property 'contextPath' of null"))
  ∧ (unzip env widgetFile = inr (Some (inr (JsonValue None))) →
     rejected (Error "Widget has no context path")).
Proof.
  cbn zeta. rewrite process_run. unfold manifest_context_path.
  repeat split; intros; by simplify_eq; rewrite ?H.
Qed.

(** X23. With a readable manifest and a platform that answers, the process
    returns after these calls, in this order. If an application with the
    widget's context path exists: the callback with 'Widget already
    deployed! ...', and no call that creates or changes an application.
    Otherwise: [create] of the application, [upload] of the file as its
    binary, [update] of the application with the binary's id, then the
    callback with 'Widget deployed! ...'. In both cases the inventory
    query follows and one write: an [update] of the application's runtime
    context if there is one, a [create] if there is none. Afterwards the
    runtime contexts are as before except for that record. The callback is
    any function that returns and calls nothing but the alert service. *)
Theorem installation_deploys_then_lists
    (env : Installer.Env) (appList : list IApplication) (app : IApplication)
    (widgetFile : Blob) (cp : string) (onUpdate : string → I unit) (p : Page) :
  quiet onUpdate →
  unzip env widgetFile = inr (Some (inr (JsonValue (Some cp)))) →
  inventoryListError env = None →
  inventoryUpdateError env = None →
  inventoryCreateError env = None →
  let run := widgetInstallaitonProcess env appList app widgetFile onUpdate p in
  let done_with deployment :=
    run.1 = Ok tt
    ∧ service_calls (calls run.2)
      = service_calls (calls p) ++ deployment
        ++ [CallInventoryList; context_write app cp p]
    ∧ managedObjects run.2 = listed env app cp p in
  (is_known_app appList cp = true →
   done_with [CallOnUpdate already_deployed_text])
  ∧ (∀ widgetApp appBinary,
       is_known_app appList cp = false →
       created env cp = inr widgetApp →
       uploaded env widgetApp widgetFile = inr appBinary →
       applicationUpdateError env = None →
       done_with [CallApplicationCreate cp;
                  CallBinaryUpload widgetApp widgetFile;
                  CallApplicationUpdate widgetApp appBinary;
                  CallOnUpdate deployed_text]).
Proof.
  intros Hq Hz Hl Hu Hc. cbn zeta.
  assert (Hm : manifest_context_path env widgetFile = inr cp).
  { unfold manifest_context_path. by rewrite Hz. }
  split.
  - intros Hk.
    assert (Hd : deployment_error env appList widgetFile cp = None).
    { unfold deployment_error. by rewrite Hk. }
    destruct (process_success env appList app widgetFile cp onUpdate p
                Hq Hm Hd Hl Hu Hc) as (H1 & H2 & H3).
    split; [done|]. split; [|done].
    rewrite H2. unfold deployment_calls. by rewrite Hk.
  - intros widgetApp appBinary Hk Hcr Hup Hau.
    assert (Hd : deployment_error env appList widgetFile cp = None).
    { unfold deployment_error. by rewrite Hk, Hcr, Hup. }
    destruct (process_success env appList app widgetFile cp onUpdate p
                Hq Hm Hd Hl Hu Hc) as (H1 & H2 & H3).
    split; [done|]. split; [|done].
    rewrite H2. unfold deployment_calls. by rewrite Hk, Hcr, Hup, Hau.
Qed.

Lemma no_update_quiet : quiet no_update.
Proof. by intros msg p. Qed.

Lemma installation_deploys_then_lists_witness :
  let run :=
    widgetInstallaitonProcess tenant [Sample.cockpit None]
      (Sample.cockpit None) 1 no_update fresh_page in
  run.1 = Ok tt
  ∧ calls run.2
    = [CallApplicationCreate "w"; CallBinaryUpload "77" 1;
       CallApplicationUpdate "77" "9001"; CallOnUpdate deployed_text;
       CallInventoryList; CallInventoryCreate "2" ["w"]]
  ∧ managedObjects run.2 = [Sample.context ["w"]].
Proof.
  destruct (installation_deploys_then_lists tenant [Sample.cockpit None]
              (Sample.cockpit None) 1 "w" no_update fresh_page
              no_update_quiet eq_refl eq_refl eq_refl eq_refl) as [_ H].
  destruct (H "77" "9001" eq_refl eq_refl eq_refl eq_refl) as (H1 & _ & H3).
  split; [exact H1|]. split; [reflexivity|exact H3].
Defined.

(** X24. When the deployment of a new widget fails, the process throws the
    error of the failing call and stops there: after a failed [create]
    nothing is uploaded; after a failed [upload] the created application is
    left without binary; after a failed [update] the binary is left
    inactive. In none of these cases is the callback called or the runtime
    context of the application read or written. *)
Theorem failed_deployment_leaves_context_untouched
    (env : Installer.Env) (appList : list IApplication) (app : IApplication)
    (widgetFile : Blob) (cp : string) (onUpdate : string → I unit) (p : Page) :
  unzip env widgetFile = inr (Some (inr (JsonValue (Some cp)))) →
  is_known_app appList cp = false →
  let run := widgetInstallaitonProcess env appList app widgetFile onUpdate p in
  (∀ e, created env cp = inl e →
        run = (Threw e, add_calls [CallApplicationCreate cp] p))
  ∧ (∀ widgetApp e,
       created env cp = inr widgetApp →
       uploaded env widgetApp widgetFile = inl e →
       run = (Threw e,
              add_calls [CallApplicationCreate cp;
                         CallBinaryUpload widgetApp widgetFile] p))
  ∧ (∀ widgetApp appBinary e,
       created env cp = inr widgetApp →
       uploaded env widgetApp widgetFile = inr appBinary →
       applicationUpdateError env = Some e →
       run = (Threw e,
              add_calls [CallApplicationCreate cp;
                         CallBinaryUpload widgetApp widgetFile;
                         CallApplicationUpdate widgetApp appBinary] p)).
Proof.
  intros Hz Hk. cbn zeta. rewrite process_run.
  unfold manifest_context_path. rewrite Hz. cbn zeta.
  unfold deployment_error, deployment_calls. rewrite Hk.
  split; [|split].
  - by intros e ->.
  - by intros widgetApp e -> ->.
  - by intros widgetApp appBinary e -> -> ->.
Qed.

Lemma failed_deployment_leaves_context_untouched_witness :
  widgetInstallaitonProcess read_only_tenant [Sample.cockpit None]
    (Sample.cockpit None) 1 no_update fresh_page
  = (Threw (Error "403"), add_calls [CallApplicationCreate "w"] fresh_page).
Proof.
  exact (proj1 (failed_deployment_leaves_context_untouched read_only_tenant
                  [Sample.cockpit None] (Sample.cockpit None) 1 "w" no_update
                  fresh_page eq_refl eq_refl) (Error "403") eq_refl).
Defined.

End installer_properties.

Section set_facts.

Lemma set_insert_all_fresh (seen l : list string) :
  NoDup l → (∀ x, x ∈ l → x ∉ seen) → Js.set_insert_all seen l = l.
Proof.
  revert seen. induction l as [|x l IH]; intros seen Hnd Hfresh; [done|].
  apply NoDup_cons in Hnd as [Hx Hnd]. simpl.
  rewrite bool_decide_eq_false_2 by (apply Hfresh; by left).
  f_equal. apply IH; [done|].
  intros y Hy [->|Hs]%elem_of_cons; [done|].
  apply (Hfresh y); [by right|done].
Qed.

Lemma set_insert_all_snoc_seen (seen l : list string) (x : string) :
  x ∈ seen ∨ x ∈ l →
  Js.set_insert_all seen (l ++ [x]) = Js.set_insert_all seen l.
Proof.
  revert seen. induction l as [|y l IH]; intros seen Hx.
  - destruct Hx as [Hx|Hx]; [|by apply elem_of_nil in Hx].
    simpl. by rewrite bool_decide_eq_true_2.
  - simpl. case_bool_decide as Hy.
    + apply IH. destruct Hx as [?|[->|?]%elem_of_cons]; auto.
    + f_equal. apply IH.
      destruct Hx as [?|[->|?]%elem_of_cons];
        [left; by right|left; by left|by right].
Qed.

Lemma array_from_set_NoDup_id (l : list string) :
  NoDup l → Js.array_from_set l = l.
Proof.
  intros Hnd. apply set_insert_all_fresh; [done|].
  intros x _. apply not_elem_of_nil.
Qed.

Lemma with_widget_eq rc cp :
  Installer.with_widget rc cp
  = Js.array_from_set (Js.or_empty (rc ≫= widgetContextPaths) ++ [cp]).
Proof.
  unfold Installer.with_widget. by destruct (rc ≫= widgetContextPaths).
Qed.

End set_facts.

(** X25. The path list that the installer writes is the old list of the
    runtime context (empty if there is no context or no list) with the
    widget's context path at the end, passed through a [Set]: it has no
    duplicates and holds exactly the old identifiers and the new one. If
    the old list has no duplicates, it is kept as it is when it already
    lists the widget, and otherwise only gains the widget as last entry;
    so installing the same widget again changes nothing. *)
Theorem installed_identifier_is_listed_once
    (rc : option IAppRuntimeContext) (cp : string) :
  let old := Js.or_empty (rc ≫= widgetContextPaths) in
  let new := Installer.with_widget rc cp in
  NoDup new
  ∧ (∀ x, x ∈ new ↔ x ∈ old ∨ x = cp)
  ∧ (NoDup old → cp ∈ old → new = old)
  ∧ (NoDup old → cp ∉ old → new = old ++ [cp])
  ∧ Installer.with_widget
      (Some {| rc_id := blank; appId := None;
               widgetContextPaths := Some new |}) cp = new.
Proof.
  cbn zeta. rewrite !with_widget_eq.
  set (old := Js.or_empty (rc ≫= widgetContextPaths)).
  split; [apply array_from_set_NoDup|]. split.
  { intros x. rewrite array_from_set_elem, elem_of_app, list_elem_of_singleton.
    done. }
  split; [|split].
  - intros Hnd Hin. unfold Js.array_from_set.
    rewrite set_insert_all_snoc_seen by (by right).
    by apply array_from_set_NoDup_id.
  - intros Hnd Hout. apply array_from_set_NoDup_id.
    apply NoDup_app. split; [done|]. split; [|apply NoDup_singleton].
    intros x Hx ->%list_elem_of_singleton. done.
  - cbn [mbind option_bind widgetContextPaths Js.or_empty default].
    unfold Js.array_from_set at 1.
    rewrite set_insert_all_snoc_seen.
    + apply array_from_set_NoDup_id, array_from_set_NoDup.
    + right. apply array_from_set_elem, elem_of_app. right.
      by apply list_elem_of_singleton.
Qed.

Section no_wait.
Import Installer.

Lemma installWidget_outcome
    (env : Installer.Env) (onUpdate : string → I unit) (p : Page) :
  (∀ widgetFile,
    installWidget env widgetFile onUpdate p
    = match refuse_development env p with
      | (Ok _, _) =>
          match applications env with
          | inl e => (Threw e, add_calls [CallApplicationList] p)
          | inr appList =>
              match find_current_app env appList
                      (add_calls [CallApplicationList] p) with
              | (Ok app, p') =>
                  (Ok (widgetInstallaitonProcess env appList app widgetFile
                         onUpdate), p')
              | (Threw e, p') => (Threw e, p')
              | (Pending, p') => (Pending, p')
              end
          end
      | (Threw e, p') => (Threw e, p')
      | (Pending, p') => (Pending, p')
      end)
  ∧ (∀ appList q r q', find_current_app env appList q = (r, q') → q' = q).
Proof.
  assert (Hrun : ∀ widgetFile,
    installWidget env widgetFile onUpdate p
    = match refuse_development env p with
      | (Ok _, _) =>
          match applications env with
          | inl e => (Threw e, add_calls [CallApplicationList] p)
          | inr appList =>
              match find_current_app env appList
                      (add_calls [CallApplicationList] p) with
              | (Ok app, p') =>
                  (Ok (widgetInstallaitonProcess env appList app widgetFile
                         onUpdate), p')
              | (Threw e, p') => (Threw e, p')
              | (Pending, p') => (Pending, p')
              end
          end
      | (Threw e, p') => (Threw e, p')
      | (Pending, p') => (Pending, p')
      end).
  { intros widgetFile. unfold installWidget. unfold mbind at 1, I_bind.
    destruct (refuse_development env p) as [[[]| |] p0] eqn:Hg; try done.
    rewrite refuse_development_run in Hg.
    assert (p0 = p) as -> by (by simplify_eq).
    unfold appService_list. unfold_installer.
    destruct (applications env) as [e|appList]; [done|]. simpl.
    unfold add_calls, set_calls. simpl.
    by destruct (find_current_app env appList _) as [[app| |] p']. }
  assert (Hfind : ∀ appList q r q',
    find_current_app env appList q = (r, q') → q' = q).
  { intros appList q r q' Hf.
    destruct (contextPathFromURL (location_pathname env)) as [cp|] eqn:Hcp.
    - rewrite (find_current_app_url env cp) in Hf by done.
      unfold find_app_with_context in Hf.
      destruct (find (own_with cp) appList);
        [unfold mret, I_ret in Hf; by simplify_eq|].
      destruct (find (current_with cp) appList);
        unfold mret, I_ret, throw in Hf; by simplify_eq.
    - unfold find_current_app in Hf. destruct appList as [|a l]; simpl in Hf.
      + unfold mbind, I_bind, mret, I_ret, throw in Hf. by simplify_eq.
      + unfold mbind, I_bind, contextPathFromURL_call in Hf.
        rewrite Hcp in Hf. unfold throw in Hf. by simplify_eq. }
  by split.
Qed.

(** X26. [installWidget] does not wait for the installation: it returns as
    soon as the current application is found, with the process left
    running, so its own outcome and calls are the same for every widget
    file, and what the process throws is not thrown by it. With a context
    path in the URL, [installWidgetWithContext] for that path is
    [installWidget] followed by the process it leaves running. *)
Theorem installWidget_does_not_wait
    (env : Installer.Env) (onUpdate : string → I unit) (p : Page) :
  (∀ file1 file2,
     (installWidget env file1 onUpdate p).2
     = (installWidget env file2 onUpdate p).2
     ∧ match (installWidget env file1 onUpdate p).1,
             (installWidget env file2 onUpdate p).1 with
       | Ok _, Ok _ | Pending, Pending => True
       | Threw e1, Threw e2 => e1 = e2
       | _, _ => False
       end)
  ∧ (∀ widgetFile running p',
       installWidget env widgetFile onUpdate p = (Ok running, p') →
       p' = add_calls [CallApplicationList] p
       ∧ ∃ appList app,
           running
           = widgetInstallaitonProcess env appList app widgetFile onUpdate)
  ∧ (∀ widgetFile cp,
       contextPathFromURL (location_pathname env) = Some cp →
       installWidgetWithContext env widgetFile cp onUpdate p
       = (running ← installWidget env widgetFile onUpdate; running) p).
Proof.
  destruct (installWidget_outcome env onUpdate p) as (Hrun & Hfind).
  split; [|split].
  - intros file1 file2. rewrite !Hrun.
    destruct (refuse_development env p) as [[[]| |] p0]; try done.
    destruct (applications env) as [e|appList]; [done|].
    by destruct (find_current_app env appList _) as [[app| |] p'].
  - intros widgetFile running p'. rewrite Hrun.
    destruct (refuse_development env p) as [[[]| |] p0]; try done.
    destruct (applications env) as [e|appList]; [done|].
    destruct (find_current_app env appList _) as [[app| |] q] eqn:Hf; try done.
    intros [= <- <-]. split; [by apply (Hfind _ _ _ _ Hf)|].
    by exists appList, app.
  - intros widgetFile cp Hcp.
    unfold installWidgetWithContext, installWidget.
    unfold mbind at 1 4 5, I_bind.
    destruct (refuse_development env p) as [[[]| |] p0]; try done.
    unfold mbind at 1 3, I_bind.
    destruct (appService_list env p0) as [[appList| |] p1]; try done.
    unfold mbind at 1 2, I_bind.
    rewrite (find_current_app_url env cp) by done.
    by destruct (find_app_with_context cp appList p1) as [[app| |] p2].
Qed.

Example invalid_file_passes_installWidget :
  (installWidget tenant 2 no_update fresh_page).2
  = add_calls [CallApplicationList] fresh_page
  ∧ (running ← installWidget tenant 2 no_update; running) fresh_page
    = (Threw (Error "Not a valid widget"),
       add_calls [CallApplicationList; CallConsoleLog (Error "Corrupted zip")]
         fresh_page).
Proof. by split. Qed.

End no_wait.

(** ** Installing a widget, then loading *)

Section install_then_load.

Lemma find_app_last (P : IAppRuntimeContext → bool) l x :
  find P l = None → P x = true → find P (l ++ [x]) = Some x.
Proof.
  induction l as [|y l IH]; simpl; [by intros _ ->|].
  destruct (P y); [done|]. apply IH.
Qed.

(** The record of the application after the widget has been listed. *)
Lemma listed_context ienv app cp p current :
  app_id current = app_id app →
  length (Installer.managedObjects p) < 2000 →
  ∃ rc,
    find_runtime_context current (take 2000 (Installer.listed ienv app cp p))
    = Some rc
    ∧ ∃ paths, widgetContextPaths rc = Some paths ∧ cp ∈ paths.
Proof.
  intros Hid Hlen. unfold Installer.listed, Installer.context_in.
  assert (Hsame : ∀ l, find_runtime_context current l
                       = find_runtime_context app l).
  { intros l. unfold find_runtime_context. by rewrite Hid. }
  rewrite Hsame.
  destruct (find_runtime_context app (take 2000 (Installer.managedObjects p)))
    as [rc|] eqn:Hrc.
  - rewrite <- fmap_take, find_runtime_context_update, Hrc. simpl.
    eexists. split; [done|].
    unfold update_paths. rewrite String.eqb_refl. simpl.
    eexists. split; [done|].
    rewrite with_widget_eq. apply array_from_set_elem, elem_of_app. right.
    by apply list_elem_of_singleton.
  - rewrite take_ge in Hrc by lia.
    rewrite take_ge by (rewrite length_app; simpl; lia).
    unfold find_runtime_context in *.
    rewrite (find_app_last _ _ _ Hrc).
    + eexists. split; [done|]. simpl. eexists. split; [done|].
      rewrite with_widget_eq. apply array_from_set_elem, elem_of_app. right.
      by apply list_elem_of_singleton.
    + simpl. by rewrite String.eqb_refl.
Qed.

Lemma process_returns ienv appList app widgetFile cp onUpdate p :
  Installer.quiet onUpdate →
  Installer.manifest_context_path ienv widgetFile = inr cp →
  (Installer.widgetInstallaitonProcess ienv appList app widgetFile onUpdate p).1
  = Ok tt →
  Installer.managedObjects
    (Installer.widgetInstallaitonProcess ienv appList app widgetFile onUpdate p).2
  = Installer.listed ienv app cp p.
Proof.
  intros Hq Hm. rewrite process_run, Hm. cbn zeta.
  destruct (Installer.deployment_error ienv appList widgetFile cp);
    [intros Hok; simpl in Hok; discriminate Hok|].
  set (called := Installer.add_calls _ p).
  set (msg := if is_known_app appList cp then _ else _).
  destruct (Hq msg called) as (Hok & Hobj & _).
  unfold mbind, Installer.I_bind.
  destruct (onUpdate msg called) as [r p'] eqn:Hcb. simpl in Hok, Hobj.
  subst r. rewrite add_to_context_run.
  destruct (Installer.inventoryListError ienv);
    [intros H; simpl in H; discriminate H|].
  cbn zeta.
  assert (Hctx : Installer.context_in app p' = Installer.context_in app p).
  { by apply context_in_same. }
  destruct (match Installer.context_in app p' with
            | Some _ => _ | None => _ end);
    [intros H; simpl in H; discriminate H|].
  intros _. cbn [snd Installer.managedObjects Installer.set_managedObjects].
  unfold Installer.listed. by rewrite Hctx, Hobj.
Qed.

End install_then_load.

(** X27. Installer and loader fit together: after an installation process
    that returned, the widget's context path is in the identifier set of
    the next run of [loadRuntimeWidgets] for that application, and, the
    path being non-empty, the run requests its manifest. (The application
    has fewer than 2000 runtime contexts on the tenant, the page size of
    both queries.) *)
Theorem installed_widget_is_loaded_by_next_run
    (ienv : Installer.Env) (appList : list IApplication) (app : IApplication)
    (widgetFile : Installer.Blob) (cp : string)
    (onUpdate : string → Installer.I unit) (p : Installer.Page)
    (env : Env) (w : World) (user : string) (apps : list IApplication)
    (url : string) (current : IApplication) :
  let installation :=
    Installer.widgetInstallaitonProcess ienv appList app widgetFile onUpdate p in
  Installer.quiet onUpdate →
  Installer.unzip ienv widgetFile
  = inr (Some (inr (Installer.JsonValue (Some cp)))) →
  installation.1 = Ok tt →
  length (Installer.managedObjects p) < 2000 →
  inventory w = Installer.managedObjects installation.2 →
  resolved env user apps url current →
  app_id current = app_id app →
  cp ≠ blank →
  cp ∈ resolve_contextPaths current (context_of current w)
  ∧ EvManifestImport cp ∈ trace (loadRuntimeWidgets env w).2.
Proof.
  cbn zeta. intros Hq Hz Hok Hlen Hinv Hres Hid Hcp.
  assert (Hm : Installer.manifest_context_path ienv widgetFile = inr cp).
  { unfold Installer.manifest_context_path. by rewrite Hz. }
  rewrite (process_returns ienv appList app widgetFile cp onUpdate p Hq Hm Hok)
    in Hinv.
  destruct (listed_context ienv app cp p current Hid Hlen)
    as (rc & Hrc & paths & Hp & Hin).
  assert (Hids : cp ∈ resolve_contextPaths current (context_of current w)).
  { apply resolve_contextPaths_elem. right.
    unfold context_of. rewrite Hinv, Hrc. simpl. by rewrite Hp. }
  split; [exact Hids|].
  destruct (resolved_run_trace env w user apps url current Hres)
    as (rest & Ht & _).
  cbn zeta in Ht. rewrite Ht.
  apply elem_of_app. right. apply elem_of_app. right. apply elem_of_app. left.
  assert (Hk : EvManifestImport cp
               ∈ of_kind KManifest
                   (import_trace env apps
                      (resolve_contextPaths current (context_of current w)))).
  { unfold import_trace. rewrite import_loop_events_manifest.
    apply list_elem_of_fmap. exists cp. split; [done|].
    apply list_elem_of_filter. split; [|done].
    unfold is_loadable. destruct cp; [done|]. done. }
  unfold of_kind in Hk. by apply list_elem_of_filter in Hk as [_ ?].
Qed.

Lemma installed_widget_is_loaded_by_next_run_witness :
  let installation :=
    Installer.widgetInstallaitonProcess Installer.tenant [Sample.cockpit None]
      (Sample.cockpit None) 1 Installer.no_update Installer.fresh_page in
  let env := Sample.env_of [Sample.cockpit None] [] Sample.bundles in
  let w := initial_world [100] (Installer.managedObjects installation.2) [] in
  EvManifestImport "w" ∈ trace (loadRuntimeWidgets env w).2.
Proof.
  assert (Hres : resolved (Sample.env_of [Sample.cockpit None] [] Sample.bundles)
                   "alice" [Sample.cockpit None] "cockpit"
                   (Sample.cockpit None)) by (by split).
  refine (proj2 (installed_widget_is_loaded_by_next_run Installer.tenant
                   [Sample.cockpit None] (Sample.cockpit None) 1 "w"
                   Installer.no_update Installer.fresh_page
                   (Sample.env_of [Sample.cockpit None] [] Sample.bundles)
                   (initial_world [100]
                      (Installer.managedObjects
                         (Installer.widgetInstallaitonProcess Installer.tenant
                            [Sample.cockpit None] (Sample.cockpit None) 1
                            Installer.no_update Installer.fresh_page).2) [])
                   "alice" _ "cockpit" _
                   no_update_quiet eq_refl eq_refl _ eq_refl Hres eq_refl _)).
  - simpl. lia.
  - done.
Defined.

(** * The dialog *)

Section dialog.
Import Installer.

Lemma installWidget_page env widgetFile onUpdate q :
  let run := installWidget env widgetFile onUpdate q in
  (run.2 = q ∨ run.2 = add_calls [CallApplicationList] q)
  ∧ run.1 ≠ Pending
  ∧ ∀ running, run.1 = Ok running →
      run.2 = add_calls [CallApplicationList] q
      ∧ ∃ appList app,
          running
          = widgetInstallaitonProcess env appList app widgetFile onUpdate.
Proof.
  cbn zeta.
  destruct (installWidget_outcome env onUpdate q) as (Hrun & Hfind).
  rewrite Hrun.
  destruct (refuse_development env q) as [[[]| |] q0] eqn:Hg.
  - destruct (applications env) as [e|appList].
    { split; [by right|]. split; [done|]. by intros running [=]. }
    destruct (find_current_app env appList _) as [[app| |] q'] eqn:Hf;
      pose proof (Hfind _ _ _ _ Hf) as ->.
    + split; [by right|]. split; [done|]. intros running [= <-].
      split; [done|]. by exists appList, app.
    + split; [by right|]. split; [done|]. by intros running [=].
    + exfalso. revert Hf. clear.
      destruct (contextPathFromURL (location_pathname env)) as [cp|] eqn:Hcp.
      * rewrite (find_current_app_url env cp) by done.
        unfold find_app_with_context.
        destruct (find (own_with cp) appList); [done|].
        by destruct (find (current_with cp) appList).
      * unfold find_current_app. destruct appList as [|a l]; [done|].
        simpl. unfold mbind, I_bind, contextPathFromURL_call.
        by rewrite Hcp.
  - rewrite refuse_development_run in Hg.
    assert (q0 = q) as -> by (by simplify_eq).
    split; [by left|]. split; [done|]. by intros running [=].
  - rewrite refuse_development_run in Hg. exfalso.
    by destruct (_ || _ || _).
Qed.

Lemma replace_alert_run msg p :
  replace_alert msg p
  = (Ok tt,
     add_calls [CallAlertRemove (currentAlert p);
                CallAlertAdd {| alert_text := msg; alert_type := "info" |}]
       (set_currentAlert {| alert_text := msg; alert_type := "info" |} p)).
Proof.
  unfold replace_alert. unfold_installer. unfold add_calls, set_calls. simpl.
  by rewrite <- app_assoc.
Qed.

Lemma replace_alert_quiet : quiet replace_alert.
Proof.
  intros msg p. rewrite replace_alert_run. cbn [fst snd].
  split; [done|]. split; [done|].
  cbn [calls add_calls set_calls set_currentAlert].
  rewrite service_calls_app. cbn. by rewrite app_nil_r.
Qed.

(** The process started by the dialog leaves [busy] alone and only adds to
    the calls made. *)
Lemma dialog_process_frame env appList app widgetFile p :
  let run :=
    widgetInstallaitonProcess env appList app widgetFile replace_alert p in
  busy run.2 = busy p ∧ ∃ cs, calls run.2 = calls p ++ cs.
Proof.
  cbn zeta. rewrite process_run.
  destruct (manifest_context_path env widgetFile) as [cause|cp].
  { split; [done|]. by eexists. }
  cbn zeta.
  destruct (deployment_error env appList widgetFile cp).
  { split; [done|]. by eexists. }
  unfold mbind, I_bind. rewrite replace_alert_run, add_to_context_run.
  destruct (inventoryListError env).
  { split; [done|]. cbn. rewrite <- !app_assoc. by eexists. }
  cbn zeta.
  destruct (match context_in app _ with
            | Some _ => inventoryUpdateError env
            | None => inventoryCreateError env
            end).
  - split; [done|]. cbn. rewrite <- !app_assoc. by eexists.
  - split; [done|]. cbn. rewrite <- !app_assoc. by eexists.
Qed.

Lemma upload_accepted env file files p :
  name_accepted file = true →
  upload env (Some (file :: files)) p
  = match installWidget env (file_blob file) replace_alert (started p) with
    | (Ok running, p') =>
        let installation :=
          running
            (add_calls [CallAlertRemove (currentAlert p');
                        CallAlertSuccess "Widget Added! Refreshing...";
                        CallSetTimeout 5000] p') in
        (Ok (Some installation.1),
         add_calls [CallLocationReload] installation.2)
    | (Threw e, p') =>
        (Ok None,
         set_busy false
           (add_calls [CallAlertDanger "Failed to add widget!" (Some (message e));
                       CallConsoleError e] p'))
    | (Pending, p') => (Pending, p')
    end.
Proof.
  unfold name_accepted. intros Hname%negb_true_iff.
  unfold upload. cbn [head]. rewrite Hname.
  unfold try_catch.
  unfold mbind at 1, I_bind. unfold modify at 1.
  unfold mbind at 1, I_bind. unfold modify at 1.
  unfold mbind at 1, I_bind. unfold emit at 1, modify at 1.
  unfold mbind at 1, I_bind.
  change (set_calls _ (set_currentAlert uploading (set_busy true p)))
    with (started p).
  destruct (installWidget env (file_blob file) replace_alert (started p))
    as [[running| |] p']; [| |done].
  - unfold mbind at 1, I_bind. unfold get_page at 1.
    unfold mbind at 1, I_bind. unfold emit at 1, modify at 1.
    unfold mbind at 1, I_bind. unfold emit at 1, modify at 1.
    unfold mbind at 1, I_bind. unfold emit at 1, modify at 1.
    unfold mbind at 1, I_bind. unfold detached at 1.
    cbn zeta.
    assert (Hpage :
      set_calls
        (calls
           (set_calls
              (calls (set_calls (calls p' ++ [CallAlertRemove (currentAlert p')]) p')
               ++ [CallAlertSuccess "Widget Added! Refreshing..."])
              (set_calls (calls p' ++ [CallAlertRemove (currentAlert p')]) p'))
         ++ [CallSetTimeout 5000])
        (set_calls
           (calls (set_calls (calls p' ++ [CallAlertRemove (currentAlert p')]) p')
            ++ [CallAlertSuccess "Widget Added! Refreshing..."])
           (set_calls (calls p' ++ [CallAlertRemove (currentAlert p')]) p'))
      = add_calls [CallAlertRemove (currentAlert p');
                   CallAlertSuccess "Widget Added! Refreshing...";
                   CallSetTimeout 5000] p').
    { unfold add_calls, set_calls. simpl. by rewrite <- !app_assoc. }
    rewrite Hpage.
    by destruct (running _) as [r q].
  - unfold_installer. unfold add_calls, set_calls, set_busy. simpl.
    by rewrite <- !app_assoc.
Qed.

(** X28. [upload] turns down a bad selection with one alert and nothing
    else: an empty selection with 'No widget file selected', a file whose
    name holds a space with 'Widget File name cannot contain SPACE'. The
    installer is not called, [busy] stays as it was, and no 'Uploading
    widget...' alert is shown. When the dialog's [widgetFile] was never
    set, reading it throws inside the [try], and the user is told 'Failed
    to add widget!' with the message of the [TypeError]. *)
Theorem upload_turns_down_bad_selection
    (env : Installer.Env) (p : Page) :
  upload env (Some []) p
  = (Ok None, add_calls [CallAlertDanger "No widget file selected" None] p)
  ∧ (∀ file files,
       name_accepted file = false →
       file_name file ≠ blank
       ∧ contains_space (file_name file) = true
       ∧ upload env (Some (file :: files)) p
         = (Ok None,
            add_calls
              [CallAlertDanger "Widget File name cannot contain SPACE" None] p))
  ∧ upload env None p
    = (Ok None,
       set_busy false
         (add_calls
            [CallAlertDanger "Failed to add widget!"
               (Some "Cannot read property 'item' of undefined");
             CallConsoleError
               (TypeError "Cannot read property 'item' of undefined")] p)).
Proof.
  split; [reflexivity|]. split.
  2:{ unfold upload. unfold_installer. unfold add_calls, set_calls, set_busy.
      simpl. by rewrite <- app_assoc. }
  intros file files Hname. unfold name_accepted in Hname.
  apply negb_false_iff in Hname.
  pose proof Hname as [Hne Hsp]%andb_prop.
  split; [|split; [done|]].
  - intros Hb. rewrite Hb in Hne. done.
  - unfold upload. cbn [head]. by rewrite Hname.
Qed.

(** X29. When [installWidget] throws (development mode, a failed
    application query, no current application), [upload] does not throw:
    it raises the alert 'Failed to add widget!' with the error's message,
    writes the error to the console and resets [busy]. The 'Uploading
    widget...' alert it had added is not removed. *)
Theorem upload_reports_installer_failure
    (env : Installer.Env) (file : File) (files : list File) (p : Page)
    (e : Exn) :
  name_accepted file = true →
  (installWidget env (file_blob file) replace_alert (started p)).1 = Threw e →
  let run := upload env (Some (file :: files)) p in
  run.1 = Ok None
  ∧ busy run.2 = false
  ∧ managedObjects run.2 = managedObjects p
  ∧ ∃ cs,
      calls run.2
      = calls p ++ [CallAlertAdd uploading] ++ cs
        ++ [CallAlertDanger "Failed to add widget!" (Some (message e));
            CallConsoleError e]
      ∧ (cs = [] ∨ cs = [CallApplicationList]).
Proof.
  intros Hname Hthrow. cbn zeta. rewrite (upload_accepted env file files p Hname).
  destruct (installWidget_page env (file_blob file) replace_alert (started p))
    as (Hpage & _ & _).
  destruct (installWidget env (file_blob file) replace_alert (started p))
    as [r p'] eqn:Hrun.
  simpl in Hthrow, Hpage. subst r. cbn [fst snd].
  split; [done|]. split; [done|].
  destruct Hpage as [-> | ->].
  - split; [done|]. exists []. split; [|by left].
    cbn. by rewrite <- !app_assoc.
  - split; [done|]. exists [CallApplicationList]. split; [|by right].
    cbn. by rewrite <- !app_assoc.
Qed.

Lemma upload_reports_installer_failure_witness :
  let run := upload dev_server (Some [ {| file_name := "w.zip"; file_blob := 1 |} ])
               fresh_page in
  run.1 = Ok None ∧ busy run.2 = false
  ∧ calls run.2
    = [CallAlertAdd uploading;
       CallAlertDanger "Failed to add widget!" (Some development_text);
       CallConsoleError (Error development_text)].
Proof.
  destruct (upload_reports_installer_failure dev_server
              {| file_name := "w.zip"; file_blob := 1 |} [] fresh_page
              (Error development_text) eq_refl eq_refl) as (H1 & H2 & _).
  split; [exact H1|]. split; [exact H2|reflexivity].
Defined.

(** X30. When [installWidget] returns, [upload] announces success without
    waiting for the installation: it removes the 'Uploading widget...'
    alert, raises 'Widget Added! Refreshing...' and starts the timer of
    five seconds. The installation process that [installWidget] left
    running does its work during that time (the platform being taken to
    answer within it): all its calls, and its write to the runtime
    context, come after the announcement and before the reload of the
    page, which is the last call. Whatever the process returns or throws,
    [upload] returns normally and [busy] stays set. For a file that is no
    valid widget the process only logs the cause; for a valid widget on a
    platform that answers, the widget is deployed and listed in the
    runtime context before the page is reloaded. *)
Theorem upload_announces_success_without_waiting
    (env : Installer.Env) (file : File) (files : list File) (p : Page)
    (running : I unit) :
  name_accepted file = true →
  (installWidget env (file_blob file) replace_alert (started p)).1
  = Ok running →
  let run := upload env (Some (file :: files)) p in
  let installation := running (announced p) in
  run = (Ok (Some installation.1), add_calls [CallLocationReload] installation.2)
  ∧ calls (announced p)
    = calls p
      ++ [CallAlertAdd uploading; CallApplicationList;
          CallAlertRemove uploading;
          CallAlertSuccess "Widget Added! Refreshing...";
          CallSetTimeout 5000]
  ∧ (∃ cs, calls run.2 = calls (announced p) ++ cs ++ [CallLocationReload])
  ∧ busy run.2 = true
  ∧ ∃ appList app,
      running
      = widgetInstallaitonProcess env appList app (file_blob file)
          replace_alert
      ∧ (∀ cause,
           manifest_context_path env (file_blob file) = inl cause →
           run
           = (Ok (Some (Threw (Error "Not a valid widget"))),
              add_calls [CallConsoleLog cause; CallLocationReload]
                (announced p)))
      ∧ (∀ cp,
           manifest_context_path env (file_blob file) = inr cp →
           deployment_error env appList (file_blob file) cp = None →
           inventoryListError env = None →
           inventoryUpdateError env = None →
           inventoryCreateError env = None →
           run.1 = Ok (Some (Ok tt))
           ∧ managedObjects run.2 = listed env app cp p
           ∧ service_calls (calls run.2)
             = service_calls (calls p)
               ++ [CallApplicationList; CallSetTimeout 5000]
               ++ deployment_calls env appList (file_blob file) cp
               ++ [CallInventoryList; context_write app cp p;
                   CallLocationReload]).
Proof.
  intros Hname Hok. cbn zeta.
  rewrite (upload_accepted env file files p Hname).
  destruct (installWidget_page env (file_blob file) replace_alert (started p))
    as (_ & _ & Hret).
  destruct (installWidget env (file_blob file) replace_alert (started p))
    as [r0 p']. simpl in Hok. subst r0.
  destruct (Hret running eq_refl) as [Hp' (appList & app0 & Hproc)].
  simpl in Hp'. subst p'. cbn zeta.
  change (add_calls _ (add_calls [CallApplicationList] (started p)))
    with (announced p).
  split; [done|]. split.
  { cbn. by rewrite <- !app_assoc. }
  cbn [fst snd]. subst running.
  destruct (dialog_process_frame env appList app0 (file_blob file) (announced p))
    as (Hbusy & cs & Hcs).
  split.
  { exists cs. cbn [calls add_calls set_calls]. rewrite Hcs.
    by rewrite <- app_assoc. }
  split; [exact Hbusy|].
  exists appList, app0. split; [done|]. split.
  - intros cause Hm. rewrite process_run, Hm. cbn [fst snd].
    by rewrite add_calls_app.
  - intros cp Hm Hd Hl Hu Hc.
    destruct (process_success env appList app0 (file_blob file) cp replace_alert
                (announced p) replace_alert_quiet Hm Hd Hl Hu Hc)
      as (H1 & H2 & H3).
    rewrite H1. split; [done|]. split.
    + cbn [managedObjects add_calls set_calls]. exact H3.
    + cbn [calls add_calls set_calls]. rewrite service_calls_app, H2.
      assert (Hw : context_write app0 cp (announced p) = context_write app0 cp p)
        by done.
      rewrite Hw. cbn. rewrite !service_calls_app. cbn.
      rewrite !app_nil_r. by rewrite <- !app_assoc.
Qed.

Lemma upload_announces_success_without_waiting_witness :
  let widget := {| file_name := "w.zip"; file_blob := 1 |} in
  let run := upload tenant (Some [widget]) fresh_page in
  run.1 = Ok (Some (Ok tt))
  ∧ busy run.2 = true
  ∧ managedObjects run.2
    = [ {| rc_id := "rc"; appId := Some (app_id (Sample.cockpit None));
           widgetContextPaths := Some ["w"] |} ]
  ∧ calls run.2
    = [CallAlertAdd uploading; CallApplicationList; CallAlertRemove uploading;
       CallAlertSuccess "Widget Added! Refreshing..."; CallSetTimeout 5000;
       CallApplicationCreate "w"; CallBinaryUpload "77" 1;
       CallApplicationUpdate "77" "9001"; CallOnUpdate deployed_text;
       CallAlertRemove uploading;
       CallAlertAdd {| alert_text := deployed_text; alert_type := "info" |};
       CallInventoryList; CallInventoryCreate (app_id (Sample.cockpit None)) ["w"];
       CallLocationReload].
Proof.
  destruct (upload_announces_success_without_waiting tenant
              {| file_name := "w.zip"; file_blob := 1 |} [] fresh_page
              (widgetInstallaitonProcess tenant [Sample.cockpit None]
                 (Sample.cockpit None) 1 replace_alert)
              eq_refl eq_refl) as (H1 & _ & _ & H4 & _).
  split; [by rewrite H1|]. split; [exact H4|]. split; reflexivity.
Defined.

End dialog.

